(** * Blue Schools water-quality monitor: the Bayesian decision model

    A shallow embedding of [src/backend/bayesian_model.py]: the network that
    [_build_network] declares, the methods of [BoreholeWaterQualityModel]
    built on top of the inference engine, and the properties the
    specification states about them.

    Conventions.
    - Probabilities are exact rationals ([Q]); the source computes with
      binary64 numbers, whose rounding is not modelled.  Every arithmetic
      result is reduced with [Qred], and equalities between probabilities
      are stated with [==].
    - A Python [Dict[str, int]] is a [gmap string Z]: evidence values are
      arbitrary integers, negative ones included.
    - A method of the class is a computation in the monad [M]: it receives
      the object ([Self]), returns a value or raises an [Error], and hands
      the object back.
    - The engine the source imports (pgmpy's network validation and
      [VariableElimination.query]) is not part of the repository's source;
      it is modelled from the specification (sections 4.1 to 4.3), and
      every such definition says so. *)

From Stdlib Require Import QArith Qabs Qminmax.
From stdpp Require Import gmap strings list fin_maps.

Local Open Scope Q_scope.

(* ================================================================= *)
(** ** Errors, results, and the method monad *)

Inductive Error : Type :=
| UnknownVariableError
| StateRangeError
| TargetEvidenceConflictError
| DegenerateFactorError
| ScopeError
| CPDShapeError
| StructuralError
| MissingCPDError
| ParentMismatchError
| NormalizationError
| AssertionError
| AttributeError
| IndexError
| KeyError
| ValueError.

Inductive result (A : Type) : Type :=
| Ok (a : A)
| Err (e : Error).
Arguments Ok {A} a.
Arguments Err {A} e.

Definition rbind {A B} (r : result A) (k : A → result B) : result B :=
  match r with
  | Ok a => k a
  | Err e => Err e
  end.

#[global] Instance result_ret : MRet result := λ A a, Ok a.
#[global] Instance result_bind : MBind result := λ A B k r, rbind r k.

(** [mapR f l] applies a fallible function to every element, left to
    right, and stops at the first error. *)
Fixpoint mapR {A B} (f : A → result B) (l : list A) : result (list B) :=
  match l with
  | [] => Ok []
  | a :: l' =>
      match f a with
      | Ok b =>
          match mapR f l' with
          | Ok bs => Ok (b :: bs)
          | Err e => Err e
          end
      | Err e => Err e
      end
  end.

(** [foldR f l s] threads an accumulator through a fallible loop body. *)
Fixpoint foldR {A S} (f : S → A → result S) (l : list A) (s : S) : result S :=
  match l with
  | [] => Ok s
  | a :: l' =>
      match f s a with
      | Ok s' => foldR f l' s'
      | Err e => Err e
      end
  end.

(* ================================================================= *)
(** ** Exact arithmetic helpers *)

Definition qsum (l : list Q) : Q := Qred (fold_right Qplus 0 l).

Definition Qltb (x y : Q) : bool := negb (Qle_bool y x).

(** Python's [x[i]] on a sequence with a non-negative index. *)
Definition getitem {A} (l : list A) (i : nat) : result A :=
  match l !! i with
  | Some a => Ok a
  | None => Err IndexError
  end.

(** Python's [max] of a non-empty sequence: the first maximal element. *)
Definition py_max (x : Q) (xs : list Q) : Q :=
  fold_left (λ m y, if Qltb m y then y else m) xs x.

(** [numpy.argmax] of a one-dimensional array: the index of the first
    occurrence of the maximum; [ValueError] on an empty array. *)
Fixpoint argmax_from (best : nat) (bv : Q) (i : nat) (l : list Q) : nat :=
  match l with
  | [] => best
  | x :: l' =>
      if Qltb bv x then argmax_from i x (S i) l'
      else argmax_from best bv (S i) l'
  end.

Definition argmax (l : list Q) : result nat :=
  match l with
  | [] => Err ValueError
  | x :: l' => Ok (argmax_from 0%nat x 1%nat l')
  end.

(* ================================================================= *)
(** ** The network as the source declares it *)

(** [TabularCPD(variable, variable_card, values, evidence, evidence_card)]:
    [values] has one row per state of [variable] and one column per joint
    state of the parents, the last parent varying fastest. *)
Record TabularCPD : Type := {
  variable : string;
  variable_card : nat;
  values : list (list Q);
  evidence : list string;
  evidence_card : list nat
}.

Record DiscreteBayesianNetwork : Type := {
  nodes : list string;
  edges : list (string * string);
  cpds : list TabularCPD
}.

Definition add_node (ns : list string) (n : string) : list string :=
  if bool_decide (n ∈ ns) then ns else ns ++ [n].

(** Modelled from the spec: section 4.2, [add_variable] and [add_edge]
    (pgmpy's constructor is not in the source).
    [DiscreteBayesianNetwork(edge_list)]: the nodes are the endpoints of
    the edges, in order of first appearance. *)
Definition new_network (es : list (string * string)) : DiscreteBayesianNetwork :=
  {| nodes := fold_left (λ ns e, add_node (add_node ns e.1) e.2) es [];
     edges := es;
     cpds := [] |}.

Definition network_edges : list (string * string) :=
  [ ("Rainfall", "Turbidity");
    ("Rainfall", "Surface_Runoff");
    ("Turbidity", "Contamination");
    ("Surface_Runoff", "Contamination");
    ("Latrine_Dist", "Contamination");
    ("Pump_Age", "Pump_Failure") ]%string.

Definition cpd_rainfall : TabularCPD :=
  {| variable := "Rainfall"; variable_card := 3;
     values := [[0.5]; [0.3]; [0.2]];
     evidence := []; evidence_card := [] |}.

Definition cpd_latrine : TabularCPD :=
  {| variable := "Latrine_Dist"; variable_card := 2;
     values := [[0.7]; [0.3]];
     evidence := []; evidence_card := [] |}.

Definition cpd_pump_age : TabularCPD :=
  {| variable := "Pump_Age"; variable_card := 3;
     values := [[0.3]; [0.5]; [0.2]];
     evidence := []; evidence_card := [] |}.

Definition cpd_turbidity : TabularCPD :=
  {| variable := "Turbidity"; variable_card := 3;
     values := [ [0.90; 0.50; 0.10];
                 [0.08; 0.35; 0.30];
                 [0.02; 0.15; 0.60] ];
     evidence := ["Rainfall"%string]; evidence_card := [3%nat] |}.

Definition cpd_runoff : TabularCPD :=
  {| variable := "Surface_Runoff"; variable_card := 2;
     values := [ [0.95; 0.40; 0.10];
                 [0.05; 0.60; 0.90] ];
     evidence := ["Rainfall"%string]; evidence_card := [3%nat] |}.

Definition cpd_pump_failure : TabularCPD :=
  {| variable := "Pump_Failure"; variable_card := 2;
     values := [ [0.98; 0.90; 0.70];
                 [0.02; 0.10; 0.30] ];
     evidence := ["Pump_Age"%string]; evidence_card := [3%nat] |}.

Definition cpd_contamination : TabularCPD :=
  {| variable := "Contamination"; variable_card := 2;
     values := [ [0.99; 0.95; 0.85; 0.70;
                  0.80; 0.60; 0.50; 0.30;
                  0.40; 0.20; 0.15; 0.05];
                 [0.01; 0.05; 0.15; 0.30;
                  0.20; 0.40; 0.50; 0.70;
                  0.60; 0.80; 0.85; 0.95] ];
     evidence := ["Turbidity"; "Surface_Runoff"; "Latrine_Dist"]%string;
     evidence_card := [3; 2; 2]%nat |}.

Definition network_cpds : list TabularCPD :=
  [ cpd_rainfall; cpd_latrine; cpd_pump_age; cpd_turbidity;
    cpd_runoff; cpd_pump_failure; cpd_contamination ].

(* ================================================================= *)
(** ** Network construction and validation *)

Definition n_columns (c : TabularCPD) : nat :=
  fold_right Nat.mul 1%nat (evidence_card c).

(** Modelled from the spec: section 4.2, [set_cpd] (the shape check that
    pgmpy's [TabularCPD] constructor performs is not in the source).  The
    table of a CPD has one row per child state and one column per parent
    assignment; a variable has at least two states. *)
Definition cpd_shape_ok (c : TabularCPD) : bool :=
  (2 <=? variable_card c)%nat
  && (length (values c) =? variable_card c)%nat
  && forallb (λ row, (length row =? n_columns c)%nat) (values c)
  && (length (evidence c) =? length (evidence_card c))%nat.

(** Modelled from the spec: section 4.2, [set_cpd] ([add_cpds] of pgmpy is
    not in the source).  A CPD is attached to a declared variable, has the
    right shape, and replaces an earlier CPD of the same variable. *)
Definition add_cpds (net : DiscreteBayesianNetwork) (cs : list TabularCPD)
  : result DiscreteBayesianNetwork :=
  foldR (λ net c,
           if negb (bool_decide (variable c ∈ nodes net)) then Err UnknownVariableError
           else if negb (cpd_shape_ok c) then Err CPDShapeError
           else Ok {| nodes := nodes net;
                      edges := edges net;
                      cpds := filter (λ c', variable c' ≠ variable c) (cpds net) ++ [c] |})
        cs net.

(** Modelled from the spec: section 4.2, validation step (a).  Whether a
    node still has an incoming edge from a remaining node. *)
Definition has_incoming (es : list (string * string)) (remaining : list string)
    (n : string) : bool :=
  existsb (λ e, bool_decide (e.2 = n) && bool_decide (e.1 ∈ remaining)) es.

(** Modelled from the spec: section 4.2, validation step (a).  Kahn's
    algorithm: repeatedly take out a remaining node without an incoming
    edge from a remaining node; the sort fails when no such node exists. *)
Fixpoint toposort (fuel : nat) (es : list (string * string))
    (remaining : list string) : option (list string) :=
  match remaining with
  | [] => Some []
  | _ :: _ =>
      match fuel with
      | O => None
      | S fuel' =>
          match find (λ n, negb (has_incoming es remaining n)) remaining with
          | None => None
          | Some n =>
              match toposort fuel' es (filter (λ m, m ≠ n) remaining) with
              | Some order => Some (n :: order)
              | None => None
              end
          end
      end
  end.

(** Modelled from the spec: section 4.2, validation step (a), on the
    nodes and edges of a network. *)
Definition topological_sort (net : DiscreteBayesianNetwork) : option (list string) :=
  toposort (length (nodes net)) (edges net) (nodes net).

(** Modelled from the spec: section 3 (one CPD per variable).  The CPD
    attached to a variable. *)
Definition get_cpds (net : DiscreteBayesianNetwork) (v : string) : option TabularCPD :=
  find (λ c, bool_decide (variable c = v)) (cpds net).

(** Modelled from the spec: section 4.2, validation step (c).  The
    parents the edges give a variable, and equality of two lists as sets. *)
Definition structural_parents (net : DiscreteBayesianNetwork) (v : string) : list string :=
  (λ e, e.1) <$> filter (λ e, e.2 = v) (edges net).

Definition same_set (l1 l2 : list string) : bool :=
  forallb (λ x, bool_decide (x ∈ l2)) l1 && forallb (λ x, bool_decide (x ∈ l1)) l2.

(** The sum of column [j] of a CPD table: the total probability of the
    child's states under the [j]-th parent assignment. *)
Definition column_sum (c : TabularCPD) (j : nat) : Q :=
  qsum ((λ row, nth j row 0) <$> values c).

(** Modelled from the spec: section 4.2, validation step (d), with the
    tolerance of section 8. *)
Definition normalization_tolerance : Q := 1e-6.

Definition columns_normalized (c : TabularCPD) : bool :=
  forallb (λ j, Qle_bool (Qabs (column_sum c j - 1)) normalization_tolerance)
          (seq 0 (n_columns c)).

(** Modelled from the spec: section 4.2, [validate] (pgmpy's [check_model]
    is not in the source).  In order: (a) a topological sort exists,
    (b) every variable has a CPD, (c) the declared parents of each CPD are
    the structural parents, as sets, (d) every CPD column sums to 1 within
    the tolerance. *)
Definition check_model (net : DiscreteBayesianNetwork) : result bool :=
  match topological_sort net with
  | None => Err StructuralError
  | Some _ =>
      match mapR (λ v, match get_cpds net v with
                       | Some c => Ok c
                       | None => Err MissingCPDError
                       end) (nodes net) with
      | Err e => Err e
      | Ok cs =>
          if negb (forallb (λ c, same_set (evidence c)
                                   (structural_parents net (variable c))) cs)
          then Err ParentMismatchError
          else if negb (forallb columns_normalized cs)
          then Err NormalizationError
          else Ok true
      end
  end.

(* ================================================================= *)
(** ** Factor algebra *)

(** Modelled from the spec: section 3, Variable and Factor (pgmpy's
    [DiscreteFactor] is not in the source).  A factor is a dense table
    over an ordered scope, stored row-major: the first variable of the
    scope varies slowest. *)
Record Var : Type := {
  name : string;
  cardinality : nat
}.

Record Factor : Type := {
  scope : list Var;
  table : list Q
}.

(** Modelled from the spec: section 4.1 (scope membership; no factor
    code is in the source).  Names are compared with [String.eqb]
    throughout the factor algebra. *)
Definition in_names (x : string) (sc : list Var) : bool :=
  existsb (λ v, String.eqb (name v) x) sc.

Definition in_scope (x : string) (f : Factor) : bool :=
  in_names x (scope f).

(** Modelled from the spec: section 3 (a dense table of size the product
    of the cardinalities in scope).  The number of entries of a table over
    a scope. *)
Fixpoint table_size (sc : list Var) : nat :=
  match sc with
  | [] => 1
  | v :: sc' => cardinality v * table_size sc'
  end.

(** Modelled from the spec: section 4.1 (the full assignments a table
    ranges over).  All assignments of a scope, in table order. *)
Fixpoint assignments (sc : list Var) : list (list nat) :=
  match sc with
  | [] => [[]]
  | v :: sc' =>
      s ← seq 0 (cardinality v); (λ a, s :: a) <$> assignments sc'
  end.

(** Modelled from the spec: section 4.2 (row-major storage with a
    consistent stride order).  The position of an assignment in the table
    of its scope. *)
Fixpoint offset (sc : list Var) (a : list nat) : nat :=
  match sc, a with
  | v :: sc', s :: a' => s * table_size sc' + offset sc' a'
  | _, _ => 0
  end.

(** Modelled from the spec: section 4.1 (an assignment restricted to a
    smaller scope).  The state that assignment [a] of scope [sc] gives to
    variable [x]. *)
Fixpoint state_of (sc : list Var) (a : list nat) (x : string) : nat :=
  match sc, a with
  | v :: sc', s :: a' => if String.eqb (name v) x then s else state_of sc' a' x
  | _, _ => 0
  end.

(** Modelled from the spec: section 4.1 ("value at any full assignment =
    f.value restricted to scope(f)").  The value of [f] at assignment [a]
    of a scope [sc] that contains the scope of [f]. *)
Definition value_at (f : Factor) (sc : list Var) (a : list nat) : Q :=
  nth (offset (scope f) ((λ v, state_of sc a (name v)) <$> scope f)) (table f) 0.

(** Modelled from the spec: section 4.1, [product]. *)
Definition product (f1 f2 : Factor) : Factor :=
  let sc := scope f1 ++ filter (λ v, in_names (name v) (scope f1) = false) (scope f2) in
  {| scope := sc;
     table := (λ a, Qred (value_at f1 sc a * value_at f2 sc a)) <$> assignments sc |}.

(** Modelled from the spec: section 4.1, [marginalize]. *)
Definition marginalize (f : Factor) (x : string) : result Factor :=
  match find (λ v, String.eqb (name v) x) (scope f) with
  | None => Err ScopeError
  | Some vx =>
      let sc' := filter (λ v, String.eqb (name v) x = false) (scope f) in
      Ok {| scope := sc';
            table := (λ a, qsum ((λ s, value_at f (vx :: sc') (s :: a))
                                   <$> seq 0 (cardinality vx)))
                     <$> assignments sc' |}
  end.

(** Modelled from the spec: section 4.1, [reduce]. *)
Definition reduce (f : Factor) (x : string) (state : Z) : result Factor :=
  match find (λ v, String.eqb (name v) x) (scope f) with
  | None => Err ScopeError
  | Some vx =>
      if bool_decide (0 ≤ state < Z.of_nat (cardinality vx))%Z then
        let sc' := filter (λ v, String.eqb (name v) x = false) (scope f) in
        Ok {| scope := sc';
              table := (λ a, value_at f (vx :: sc') (Z.to_nat state :: a))
                       <$> assignments sc' |}
      else Err StateRangeError
  end.

(** Modelled from the spec: section 4.1, [normalize]. *)
Definition normalize (f : Factor) : result Factor :=
  let total := qsum (table f) in
  if Qle_bool total 0 then Err DegenerateFactorError
  else Ok {| scope := scope f;
             table := (λ x, Qred (x / total)) <$> table f |}.

(* ================================================================= *)
(** ** The inference engine *)

(** Modelled from the spec: section 4.3 (the engine is a stateless query
    function over a network; pgmpy's class is not in the source).
    [VariableElimination(model)] keeps a reference to the network. *)
Record VariableElimination : Type := {
  ve_model : DiscreteBayesianNetwork
}.

(** Modelled from the spec: section 3 (a CPD has scope [child] ++ parents
    in declared order).  The CPD of a variable as a factor. *)
Definition cpd_factor (c : TabularCPD) : Factor :=
  {| scope := {| name := variable c; cardinality := variable_card c |}
              :: zip_with (λ p k, {| name := p; cardinality := k |})
                          (evidence c) (evidence_card c);
     table := concat (values c) |}.

(** Modelled from the spec: section 3 (a variable has a cardinality; the
    source declares it with the CPD).  The cardinality of a variable. *)
Definition card_of (net : DiscreteBayesianNetwork) (v : string) : option nat :=
  variable_card <$> get_cpds net v.

(** Modelled from the spec: section 4.3, error conditions.  An evidence
    entry whose variable is in the network and whose state lies outside
    [0, cardinality). *)
Definition out_of_range (net : DiscreteBayesianNetwork) (kv : string * Z) : bool :=
  match card_of net kv.1 with
  | Some c => negb (bool_decide (0 ≤ kv.2 < Z.of_nat c)%Z)
  | None => false
  end.

(** Modelled from the spec: section 4.3, error conditions.  A name is a
    variable of the network when it is a node with a CPD. *)
Definition known (net : DiscreteBayesianNetwork) (v : string) : bool :=
  bool_decide (v ∈ nodes net) && bool_decide (is_Some (card_of net v)).

(** Modelled from the spec: section 4.3, step 2.  Fix one observed
    variable in every factor whose scope contains it. *)
Definition reduce_all (fs : list Factor) (kv : string * Z) : result (list Factor) :=
  mapR (λ f, if in_scope kv.1 f then reduce f kv.1 kv.2 else Ok f) fs.

(** Modelled from the spec: section 4.3, steps 4 and 5.  The product of a
    non-empty list of factors, left to right. *)
Definition product_all (f : Factor) (fs : list Factor) : Factor :=
  fold_left product fs f.

(** Modelled from the spec: section 4.3, step 4.  Multiply the factors
    that mention [v], sum [v] out, and put the result back. *)
Definition eliminate (fs : list Factor) (v : string) : result (list Factor) :=
  match filter (λ f, in_scope v f = true) fs with
  | [] => Ok fs
  | f :: rest =>
      match marginalize (product_all f rest) v with
      | Ok g => Ok (filter (λ f, in_scope v f = false) fs ++ [g])
      | Err e => Err e
      end
  end.

(** Modelled from the spec: section 4.3 (pgmpy's
    [VariableElimination.query] is not in the source).  The request is
    checked first.  Section 4.3 names the three query-input errors without
    an order among them; the order here is the library's: a variable that
    is both target and evidence is a conflict (the first thing its [query]
    looks at); a target or evidence key that is not a variable of the
    network is an unknown-variable error; an evidence state outside
    [0, cardinality) of its variable is a state-range error, found last,
    when the factors are reduced.  Then: the CPDs as factors, reduction by
    the evidence, elimination of every other variable in the order of the
    network's nodes, product of what remains, normalization. *)
Definition query (engine : VariableElimination) (variables : list string)
    (evid : gmap string Z) : result (list Q) :=
  let net := ve_model engine in
  if existsb (λ t, bool_decide (is_Some (evid !! t))) variables
  then Err TargetEvidenceConflictError
  else if negb (forallb (known net) (variables ++ ((map_to_list evid).*1)))
  then Err UnknownVariableError
  else if existsb (out_of_range net) (map_to_list evid) then Err StateRangeError
  else
    match foldR reduce_all (map_to_list evid) (cpd_factor <$> cpds net) with
    | Err e => Err e
    | Ok reduced =>
        let order := filter (λ v, (v ∉ variables) ∧ (evid !! v = None)) (nodes net) in
        match foldR eliminate order reduced with
        | Err e => Err e
        | Ok [] => Err DegenerateFactorError
        | Ok (f :: rest) =>
            match normalize (product_all f rest) with
            | Ok g => Ok (table g)
            | Err e => Err e
            end
        end
    end.

(* ================================================================= *)
(** ** The model object and its methods *)

(** The attributes of a [BoreholeWaterQualityModel]. *)
Record Self : Type := {
  model : option DiscreteBayesianNetwork;
  inference_engine : option VariableElimination
}.

(** A method: from the object to a result and the object afterwards.  An
    error leaves the object as it was when the error was raised. *)
Definition M (A : Type) : Type := Self → result A * Self.

#[global] Instance M_ret : MRet M := λ A a self, (Ok a, self).
#[global] Instance M_bind : MBind M := λ A B k m self,
  match m self with
  | (Ok a, self') => k a self'
  | (Err e, self') => (Err e, self')
  end.

Definition raise {A} (e : Error) : M A := λ self, (Err e, self).
Definition lift {A} (r : result A) : M A := λ self, (r, self).

Definition set_model (net : option DiscreteBayesianNetwork) : M unit :=
  λ self, (Ok (), {| model := net; inference_engine := inference_engine self |}).
Definition set_inference_engine (eng : option VariableElimination) : M unit :=
  λ self, (Ok (), {| model := model self; inference_engine := eng |}).

(** [self.model], used as a network: [None] has no such attribute. *)
Definition get_model : M DiscreteBayesianNetwork :=
  λ self, match model self with
          | Some net => (Ok net, self)
          | None => (Err AttributeError, self)
          end.

(** [self.inference_engine.query(variables=..., evidence=...)].  The
    engine reads the network and writes nothing (spec, section 4.3: "the
    engine holds no mutable state between calls"). *)
Definition engine_query (variables : list string) (evid : gmap string Z)
  : M (list Q) :=
  λ self, match inference_engine self with
          | Some engine => (query engine variables evid, self)
          | None => (Err AttributeError, self)
          end.

(** A [for] loop with a fallible body over a list. *)
Fixpoint foldM {A S} (body : S → A → M S) (l : list A) (s : S) : M S :=
  match l with
  | [] => mret s
  | a :: l' => s' ← body s a; foldM body l' s'
  end.

(** The body of [_build_network], with the edge list and the CPDs it
    declares as parameters. *)
Definition build_network (es : list (string * string)) (cs : list TabularCPD)
  : M unit :=
  set_model (Some (new_network es));;
  net ← get_model;
  net ← lift (add_cpds net cs);
  set_model (Some net);;
  valid ← lift (check_model net);
  (if valid : bool then mret () else raise AssertionError);;
  set_inference_engine (Some {| ve_model := net |}).

Definition _build_network : M unit :=
  build_network network_edges network_cpds.

Definition __init__ : M unit :=
  set_model None;;
  set_inference_engine None;;
  _build_network.

(** [BoreholeWaterQualityModel()]: the object exists only when
    [__init__] returns. *)
Definition BoreholeWaterQualityModel : result Self :=
  match __init__ {| model := None; inference_engine := None |} with
  | (Ok _, self) => Ok self
  | (Err e, _) => Err e
  end.

(** The network and the engine that [_build_network] leaves in the
    object, written out: [construction_ok] below shows that
    [BoreholeWaterQualityModel()] returns exactly this object. *)
Definition the_network : DiscreteBayesianNetwork :=
  {| nodes := ["Rainfall"; "Turbidity"; "Surface_Runoff"; "Contamination";
               "Latrine_Dist"; "Pump_Age"; "Pump_Failure"]%string;
     edges := network_edges;
     cpds := network_cpds |}.

Definition the_engine : VariableElimination := {| ve_model := the_network |}.

(** The singleton of [backend/app.py]. *)
Definition bayesian_model : Self :=
  {| model := Some the_network; inference_engine := Some the_engine |}.

Definition _categorize_risk (prob : Q) : string :=
  if Qltb prob 0.2 then "LOW"
  else if Qltb prob 0.5 then "MODERATE"
  else if Qltb prob 0.8 then "HIGH"
  else "CRITICAL".

Record ContaminationRisk : Type := {
  safe_probability : Q;
  contamination_probability : Q;
  risk_level : string;
  evidence_used : gmap string Z
}.

Definition predict_contamination_risk (evid : gmap string Z) : M ContaminationRisk :=
  result ← engine_query ["Contamination"%string] evid;
  let probs := result in
  p0 ← lift (getitem probs 0);
  p1 ← lift (getitem probs 1);
  mret {| safe_probability := p0;
          contamination_probability := p1;
          risk_level := _categorize_risk p1;
          evidence_used := evid |}.

Record PumpStatus : Type := {
  working_probability : Q;
  failure_probability : Q;
  maintenance_needed : bool
}.

Definition predict_pump_status (pump_age : Z) : M PumpStatus :=
  result ← engine_query ["Pump_Failure"%string] {[ "Pump_Age"%string := pump_age ]};
  let probs := result in
  p0 ← lift (getitem probs 0);
  p1 ← lift (getitem probs 1);
  mret {| working_probability := p0;
          failure_probability := p1;
          maintenance_needed := Qltb 0.15 p1 |}.

(** The body of [get_most_likely_scenario], with the query of the
    inference engine as a parameter: the loop and [numpy.argmax] are the
    source's and do not depend on how the engine computes its values.
    Those values are binary64 numbers in the source; every finite one is
    a rational and the comparisons of [argmax] are the same on both, so
    the result of a query is a [list Q] whatever arithmetic the engine
    uses. *)
Definition most_likely_scenario_with
    (engine_query : list string → gmap string Z → M (list Q))
    (evid : gmap string Z) : M (gmap string nat) :=
  net ← get_model;
  let all_vars := nodes net in
  let unobserved := filter (λ v, evid !! v = None) all_vars in
  foldM (λ results var,
           query_result ← engine_query [var] evid;
           most_probable_state ← lift (argmax query_result);
           mret (<[var := most_probable_state]> results))
        unobserved ∅.

Definition get_most_likely_scenario (evid : gmap string Z) : M (gmap string nat) :=
  most_likely_scenario_with engine_query evid.

Record VariableInfo : Type := {
  states : list string;
  description : string
}.

Definition get_variable_info : gmap string VariableInfo :=
  list_to_map
    [ ("Rainfall",
       {| states := ["Low"; "Medium"; "High"];
          description := "Recent rainfall intensity" |});
      ("Turbidity",
       {| states := ["Clear"; "Slightly Cloudy"; "Very Cloudy"];
          description := "Water clarity/cloudiness" |});
      ("Surface_Runoff",
       {| states := ["No"; "Yes"];
          description := "Presence of surface water runoff" |});
      ("Latrine_Dist",
       {| states := ["Safe (>30m)"; "Risky (<30m)"];
          description := "Distance of latrine from borehole" |});
      ("Pump_Age",
       {| states := ["New (<2yr)"; "Medium (2-5yr)"; "Old (>5yr)"];
          description := "Age of water pump" |});
      ("Pump_Failure",
       {| states := ["Working"; "Failed"];
          description := "Pump operational status" |});
      ("Contamination",
       {| states := ["Safe"; "Contaminated"];
          description := "Water contamination risk" |}) ]%string.

(** One turn of the inner loop of [sensitivity_analysis]: the loop state
    is the working copy of the evidence and the impacts collected so far. *)
Definition flip_state (target var : string) (original_state : Z) (base_prob : Q)
    (acc : gmap string Z * list Q) (state : nat) : M (gmap string Z * list Q) :=
  if bool_decide (Z.of_nat state ≠ original_state) then
    let temp_evidence := <[var := Z.of_nat state]> acc.1 in
    new_result ← engine_query [target] temp_evidence;
    new_prob ← lift (getitem new_result 1);
    let impact := Qabs (new_prob - base_prob) in
    mret (temp_evidence, acc.2 ++ [impact])
  else mret acc.

(** One turn of the outer loop: the score of one evidence variable. *)
Definition score_variable (target : string) (evid : gmap string Z) (base_prob : Q)
    (sensitivity : gmap string Q) (var : string) : M (gmap string Q) :=
  let temp_evidence := evid in
  original_state ← lift (from_option Ok (Err KeyError) (temp_evidence !! var));
  let variable_info := get_variable_info in
  info ← lift (from_option Ok (Err KeyError) (variable_info !! var));
  let num_states := length (states info) in
  r ← foldM (flip_state target var original_state base_prob)
            (seq 0 num_states) (temp_evidence, []);
  let impacts := r.2 in
  mret (<[var := match impacts with
                  | [] => 0
                  | x :: xs => py_max x xs
                  end]> sensitivity).

Definition sensitivity_analysis (target : string) (evid : gmap string Z)
  : M (gmap string Q) :=
  base_result ← engine_query [target] evid;
  base_prob ← lift (getitem base_result 1);
  foldM (score_variable target evid base_prob) ((map_to_list evid).*1) ∅.

(* ================================================================= *)
(** ** The request layer of [backend/app.py] *)

(** The observation fields of [ObservationInput] that carry states; the
    free-text fields play no role here. *)
Record ObservationInput : Type := {
  rainfall : option Z;
  turbidity : option Z;
  surface_runoff : option Z;
  latrine_distance : option Z;
  pump_age : option Z
}.

(** [Field(None, ge=lo, le=hi)]: an absent field passes, a present one
    must lie in [lo, hi]. *)
Definition field_ok (lo hi : Z) (v : option Z) : bool :=
  match v with
  | None => true
  | Some x => bool_decide (lo ≤ x ≤ hi)%Z
  end.

Definition observation_ok (o : ObservationInput) : bool :=
  field_ok 0 2 (rainfall o)
  && field_ok 0 2 (turbidity o)
  && field_ok 0 1 (surface_runoff o)
  && field_ok 0 1 (latrine_distance o)
  && field_ok 0 2 (pump_age o).

Definition set_if_present (key : string) (v : option Z) (evid : gmap string Z)
  : gmap string Z :=
  match v with
  | Some x => <[key := x]> evid
  | None => evid
  end.

(** The evidence dictionary that [predict_contamination] and
    [analyze_sensitivity] build from an observation. *)
Definition observation_evidence (o : ObservationInput) : gmap string Z :=
  set_if_present "Latrine_Dist" (latrine_distance o)
    (set_if_present "Surface_Runoff" (surface_runoff o)
       (set_if_present "Turbidity" (turbidity o)
          (set_if_present "Rainfall" (rainfall o) ∅))).

(* ================================================================= *)
(** ** Vocabulary of the properties *)

(** Evidence is valid for a network when every key names one of its
    variables and every value is a state index of that variable. *)
Definition valid_evidence (net : DiscreteBayesianNetwork) (evid : gmap string Z) : Prop :=
  ∀ k s, evid !! k = Some s →
         k ∈ nodes net ∧ ∃ c, card_of net k = Some c ∧ (0 ≤ s < Z.of_nat c)%Z.

(** The probability of state 1 of [target] given the evidence: what
    [sensitivity_analysis] reads as [values[1]]. *)
Definition state1_probability (engine : VariableElimination) (target : string)
    (evid : gmap string Z) : result Q :=
  rbind (query engine [target] evid) (λ r, getitem r 1).

Definition state1_or_zero (engine : VariableElimination) (target : string)
    (evid : gmap string Z) : Q :=
  match state1_probability engine target evid with
  | Ok p => p
  | Err _ => 0
  end.

(** The impacts the inner loop of [sensitivity_analysis] collects for one
    variable, as a list comprehension. *)
Definition impacts_of (engine : VariableElimination) (target : string)
    (evid : gmap string Z) (var : string) (original_state : Z) (base_prob : Q)
    (num_states : nat) : list Q :=
  (λ s, Qabs (state1_or_zero engine target (<[var := Z.of_nat s]> evid) - base_prob))
    <$> filter (λ s, Z.of_nat s ≠ original_state) (seq 0 num_states).

Definition score_of_impacts (impacts : list Q) : Q :=
  match impacts with
  | [] => 0
  | x :: xs => py_max x xs
  end.

(** The score the specification describes: [score] is the largest
    absolute change of the state-1 probability of [target] over the
    alternative states of [var]. *)
Definition is_max_impact (engine : VariableElimination) (target : string)
    (evid : gmap string Z) (var : string) (original_state : Z) (card : nat)
    (base_prob score : Q) : Prop :=
  (∀ s : nat, (s < card)%nat → Z.of_nat s ≠ original_state →
     ∃ p, state1_probability engine target (<[var := Z.of_nat s]> evid) = Ok p
          ∧ Qabs (p - base_prob) <= score)
  ∧ (∃ (s : nat) p, (s < card)%nat ∧ Z.of_nat s ≠ original_state
       ∧ state1_probability engine target (<[var := Z.of_nat s]> evid) = Ok p
       ∧ score == Qabs (p - base_prob)).


(** Directed paths and cycles of an edge list. *)
Definition edge (es : list (string * string)) (u v : string) : Prop := (u, v) ∈ es.
Definition path (es : list (string * string)) : string → string → Prop := tc (edge es).
Definition acyclic (es : list (string * string)) : Prop := ∀ v, ¬ path es v v.
Definition has_cycle (es : list (string * string)) : Prop := ∃ v, path es v v.

(** Well-formed factors: the invariant of the elimination. *)
Definition consistent (net : DiscreteBayesianNetwork) (sc : list Var) : Prop :=
  ∀ v, v ∈ sc → card_of net (name v) = Some (cardinality v) ∧ (0 < cardinality v)%nat.

Definition fits (sc : list Var) (a : list nat) : Prop :=
  Forall2 (λ v s, (s < cardinality v)%nat) sc a.

Record wf_factor (net : DiscreteBayesianNetwork) (f : Factor) : Prop := {
  wf_consistent : consistent net (scope f);
  wf_nodup : NoDup (name <$> scope f);
  wf_length : length (table f) = table_size (scope f);
  wf_positive : Forall (λ x, 0 < x) (table f)
}.

Definition mentions (fs : list Factor) (x : string) : Prop :=
  ∃ f, f ∈ fs ∧ x ∈ name <$> scope f.

(** The decidable form of [wf_factor], with the scope inside the nodes. *)
Definition wf_factorb (net : DiscreteBayesianNetwork) (f : Factor) : bool :=
  forallb (λ v, bool_decide (card_of net (name v) = Some (cardinality v))
                && (0 <? cardinality v)%nat
                && bool_decide (name v ∈ nodes net)) (scope f)
  && bool_decide (NoDup (name <$> scope f))
  && (length (table f) =? table_size (scope f))%nat
  && forallb (Qltb 0) (table f).

(** A network on which every valid query succeeds: its CPDs are
    well-formed factors with positive entries over its own nodes. *)
Definition network_ok (net : DiscreteBayesianNetwork) : bool :=
  forallb (wf_factorb net) (cpd_factor <$> cpds net).

(** Evidence on the two pump variables, which are not connected to the
    contamination part of the network. *)
Definition without_pump (evid : gmap string Z) : gmap string Z :=
  delete "Pump_Age"%string (delete "Pump_Failure"%string evid).

(** All mappings from some of the listed variables to their states. *)
Fixpoint enum_evidence (vs : list (string * nat)) : list (gmap string Z) :=
  match vs with
  | [] => [∅]
  | (k, c) :: vs' =>
      m ← enum_evidence vs';
      m :: ((λ s, <[k := Z.of_nat s]> m) <$> seq 0 c)
  end.

Definition node_cards (net : DiscreteBayesianNetwork) (vs : list string)
  : list (string * nat) :=
  omap (λ v, (λ c, (v, c)) <$> card_of net v) vs.

(** The contaminated probability does not move when the pump evidence is
    dropped. *)
Definition pump_irrelevant (engine : VariableElimination) (evid : gmap string Z) : bool :=
  match state1_probability engine "Contamination" evid,
        state1_probability engine "Contamination" (without_pump evid) with
  | Ok p, Ok q => Qeq_bool p q
  | _, _ => false
  end.

(** Entry [(row, col)] of a CPD table. *)
Definition cpd_entry (c : TabularCPD) (row col : nat) : option Q :=
  values c !! row ≫= (.!! col).

(** The variables other than the target of [predict_contamination_risk],
    with their cardinalities. *)
Definition evidence_cards : list (string * nat) :=
  node_cards the_network
    ["Rainfall"; "Turbidity"; "Surface_Runoff"; "Latrine_Dist";
     "Pump_Age"; "Pump_Failure"]%string.

(* ================================================================= *)
(** ** The endpoints of [backend/app.py] *)

(** What an endpoint can raise inside its [try] block: a Python error of the
    model, or an [HTTPException].  The [detail] of the exception the
    handlers build is [f"...{str(e)}"]: a prefix and the exception it
    was built from. *)
Inductive Exception : Type :=
| PyError (e : Error)
| HTTPException (status_code : nat) (detail : Detail)
with Detail : Type :=
| Text (s : string)
| Formatted (prefix : string) (cause : Exception).

Inductive Outcome (A : Type) : Type :=
| Return (a : A)
| Raise (e : Exception).
Arguments Return {A} a.
Arguments Raise {A} e.

(** [try: body / except Exception as e: handler]: [HTTPException] derives
    from [Exception], so the handler receives it as well. *)
Definition try_except {A} (body : Outcome A) (handler : Exception → Outcome A)
  : Outcome A :=
  match body with
  | Return a => Return a
  | Raise e => handler e
  end.

(** Python's [l[i]] with an integer index: a negative index counts from
    the end. *)
Definition py_index {A} (l : list A) (i : Z) : result A :=
  if bool_decide (0 ≤ i)%Z then getitem l (Z.to_nat i)
  else if bool_decide (- Z.of_nat (length l) ≤ i)%Z
       then getitem l (Z.to_nat (Z.of_nat (length l) + i))
       else Err IndexError.

(** Python's stable [sorted(items, key=lambda x: x[1], reverse=True)]:
    decreasing scores, equal scores in their original order. *)
Fixpoint insert_desc (x : string * Q) (l : list (string * Q)) : list (string * Q) :=
  match l with
  | [] => [x]
  | y :: l' => if Qltb x.2 y.2 then y :: insert_desc x l' else x :: y :: l'
  end.

Definition sorted_desc (items : list (string * Q)) : list (string * Q) :=
  fold_right insert_desc [] items.

Module ContaminationRiskResponse.
Record t : Type := {
  safe_probability : Q;
  contamination_probability : Q;
  risk_level : string;
  recommendation : string;
  evidence_used : gmap string Z;
  timestamp : string;
  confidence : string
}.
End ContaminationRiskResponse.

Module PumpStatusResponse.
Record t : Type := {
  working_probability : Q;
  failure_probability : Q;
  maintenance_needed : bool;
  recommendation : string;
  pump_age_category : string
}.
End PumpStatusResponse.

(** The dictionary [analyze_sensitivity] returns; an entry of
    [ranked_variables] is the pair of its "variable" and its "impact". *)
Module SensitivityResponse.
Record t : Type := {
  sensitivity_scores : gmap string Q;
  most_impactful : option string;
  ranked_variables : list (string * Q)
}.
End SensitivityResponse.

Module app.

Definition recommendations : gmap string string :=
  list_to_map
    [ ("LOW"%string, "âœ… Water appears safe. Continue routine monitoring."%string);
      ("MODERATE"%string, "âš ï¸ CAUTION: Consider boiling water or using water purification tablets. Monitor closely."%string);
      ("HIGH"%string, "ðŸš¨ WARNING: Do NOT drink without treatment. Boil water for at least 3 minutes or use chlorine treatment."%string);
      ("CRITICAL"%string, "ðŸ”´ DANGER: Water likely contaminated. DO NOT USE for drinking or cooking. Contact health authorities immediately."%string) ].

Definition _generate_recommendation (risk_level : string) (probability : Q) : string :=
  default "Monitor water quality closely"%string (recommendations !! risk_level).

Definition _calculate_confidence (num_observations : nat) : string :=
  if (4 <=? num_observations)%nat then "HIGH"
  else if (2 <=? num_observations)%nat then "MEDIUM"
  else "LOW".

(** The keys of the evidence dictionary in the order the endpoints
    insert them, which is the order of [sensitivity.items()]. *)
Definition evidence_keys : list string :=
  ["Rainfall"; "Turbidity"; "Surface_Runoff"; "Latrine_Dist"]%string.

(** [POST /predict].  [now] is what [datetime.now().isoformat()] gives;
    [g] is the module's singleton [bayesian_model]. *)
Definition predict_contamination (now : string) (observation : ObservationInput)
    (g : Self) : Outcome ContaminationRiskResponse.t * Self :=
  let evidence := observation_evidence observation in
  let body :=
    if bool_decide (evidence = ∅) then
      (Raise (HTTPException 400 (Text "At least one observation (rainfall, turbidity, surface_runoff, or latrine_distance) must be provided"%string)), g)
    else
      match predict_contamination_risk evidence g with
      | (Err e, g') => (Raise (PyError e), g')
      | (Ok result, g') =>
          let recommendation :=
            _generate_recommendation (risk_level result)
                                     (contamination_probability result) in
          let confidence := _calculate_confidence (size evidence) in
          (Return {| ContaminationRiskResponse.safe_probability := safe_probability result;
                     ContaminationRiskResponse.contamination_probability :=
                       contamination_probability result;
                     ContaminationRiskResponse.risk_level := risk_level result;
                     ContaminationRiskResponse.recommendation := recommendation;
                     ContaminationRiskResponse.evidence_used := evidence;
                     ContaminationRiskResponse.timestamp := now;
                     ContaminationRiskResponse.confidence := confidence |}, g')
      end in
  (try_except body.1
     (λ e, Raise (HTTPException 500 (Formatted "Prediction error: " e))),
   body.2).

(** [Query(..., ge=0, le=2)] on the [pump_age] parameter. *)
Definition pump_age_ok (pump_age : Z) : bool := bool_decide (0 ≤ pump_age ≤ 2)%Z.

Definition age_categories : list string :=
  ["New (<2 years)";
     "Medium (2-5 years)";
     "Old (>5 years)"]%string.

(** [POST /predict-pump]. *)
Definition predict_pump_status (pump_age : Z) (g : Self)
  : Outcome PumpStatusResponse.t * Self :=
  let body :=
    match predict_pump_status pump_age g with
    | (Err e, g') => (Raise (PyError e), g')
    | (Ok result, g') =>
        let recommendation : string :=
          if Qltb 0.2 (failure_probability result) then
            "âš ï¸ URGENT: Schedule immediate inspection and maintenance"
          else if Qltb 0.1 (failure_probability result) then
            "âš¡ IMPORTANT: Plan maintenance within next 2 weeks"
          else
            "âœ… GOOD: Continue routine monitoring" in
        match py_index age_categories pump_age with
        | Err e => (Raise (PyError e), g')
        | Ok category =>
            (Return {| PumpStatusResponse.working_probability := working_probability result;
                       PumpStatusResponse.failure_probability := failure_probability result;
                       PumpStatusResponse.maintenance_needed := maintenance_needed result;
                       PumpStatusResponse.recommendation := recommendation;
                       PumpStatusResponse.pump_age_category := category |}, g')
        end
    end in
  (try_except body.1
     (λ e, Raise (HTTPException 500 (Formatted "Pump prediction error: " e))),
   body.2).

(** [sensitivity.items()], in insertion order. *)
Definition items (sensitivity : gmap string Q) : list (string * Q) :=
  omap (λ k, (λ score, (k, score)) <$> sensitivity !! k) evidence_keys.

(** [POST /sensitivity-analysis]. *)
Definition analyze_sensitivity (observation : ObservationInput) (g : Self)
  : Outcome SensitivityResponse.t * Self :=
  let evidence := observation_evidence observation in
  let body :=
    if bool_decide (evidence = ∅) then
      (Raise (HTTPException 400 (Text "At least one observation required"%string)), g)
    else
      match sensitivity_analysis "Contamination" evidence g with
      | (Err e, g') => (Raise (PyError e), g')
      | (Ok sensitivity, g') =>
          let ranked := sorted_desc (items sensitivity) in
          (Return {| SensitivityResponse.sensitivity_scores := sensitivity;
                     SensitivityResponse.most_impactful := fst <$> head ranked;
                     SensitivityResponse.ranked_variables := ranked |}, g')
      end in
  (try_except body.1
     (λ e, Raise (HTTPException 500 (Formatted "Sensitivity analysis error: " e))),
   body.2).

End app.

(* ================================================================= *)
(** ** The contamination endpoint of [backend/main.py] *)

Module main.

(** [POST /predict/contamination]: the evidence of the request goes to the
    model as it is. *)
Definition predict_contamination (evidence : gmap string Z) : M ContaminationRisk :=
  predict_contamination_risk evidence.

End main.

(* ================================================================= *)
(** ** The dashboard of [streamlit_app/app.py] *)

Module streamlit_app.

Definition percentage_to_category (percentage : Z) (categories : nat) : Z :=
  if bool_decide (categories = 3%nat) then
    if bool_decide (percentage ≤ 33)%Z then 0
    else if bool_decide (percentage ≤ 66)%Z then 1
    else 2
  else
    if bool_decide (percentage ≤ 50)%Z then 0
    else 1.

Definition get_category_label (percentage : Z) (labels : list string) : result string :=
  let categories := length labels in
  let category_index := percentage_to_category percentage categories in
  py_index labels category_index.

Definition rainfall_labels : list string :=
  ["☀️ Low/None (0-33%)";
     "🌧️ Medium (34-66%)";
     "⛈️ Heavy (67-100%)"]%string.

Definition runoff_labels : list string :=
  ["❌ No runoff (0-50%)";
     "✅ Runoff present (51-100%)"]%string.

Definition latrine_labels : list string :=
  ["⚠️ Too close (<30m)";
     "✅ Safe (>30m)"]%string.

Definition turbidity_labels : list string :=
  ["💎 Clear (0-33%)";
     "☁️ Slightly Cloudy (34-66%)";
     "🌫️ Very Cloudy (67-100%)"]%string.

Definition pump_labels : list string :=
  ["🆕 New (<2 years)";
     "⚙️ Medium (2-5 years)";
     "🔧 Old (>5 years)"]%string.

(** The [observations] the "assess" button sends to [POST /predict]; the
    three text fields are not part of [ObservationInput] here. *)
Definition observations (rainfall_pct turbidity_pct runoff_pct latrine_pct : Z)
  : ObservationInput :=
  {| rainfall := Some (percentage_to_category rainfall_pct 3);
     turbidity := Some (percentage_to_category turbidity_pct 3);
     surface_runoff := Some (percentage_to_category runoff_pct 2);
     latrine_distance := Some (percentage_to_category latrine_pct 2);
     pump_age := None |}.

(** [display_risk_result]: the CSS class of a risk level. *)
Definition css_class_map : gmap string string :=
  list_to_map
    [ ("LOW", "risk-low"); ("MODERATE", "risk-moderate");
      ("HIGH", "risk-high"); ("CRITICAL", "risk-critical") ]%string.

Definition css_class (risk_level : string) : string :=
  default "risk-moderate"%string (css_class_map !! risk_level).

(** The [background-color] of each risk class in the page's style block. *)
Definition background_color : gmap string string :=
  list_to_map
    [ ("risk-low", "#d4edda"); ("risk-moderate", "#fff3cd");
      ("risk-high", "#f8d7da"); ("risk-critical", "#f5c6cb") ]%string.

(** [create_risk_gauge]: the value shown and the coloured steps of the
    gauge, as (lower end, upper end, colour). *)
Definition gauge_value (probability : Q) : Q := probability * 100.

Definition gauge_steps : list (Q * Q * string) :=
  [ (0, 20, "#d4edda"%string); (20, 50, "#fff3cd"%string);
    (50, 80, "#f8d7da"%string); (80, 100, "#f5c6cb"%string) ].

End streamlit_app.

(* ================================================================= *)
(** ** The dashboard of [deployment/streamlit_app.py] *)

Module deployment.

(** The choices of the four input widgets and the labels their
    [format_func] shows. *)
Definition rainfall_options : list Z := [0; 1; 2]%Z.

Definition rainfall_format (x : Z) : result string :=
  py_index
    ["☀️ Low/None";
     "🌧️ Medium";
     "⛈️ Heavy"]%string x.

Definition surface_runoff_options : list Z := [0; 1]%Z.

Definition surface_runoff_format (x : Z) : result string :=
  py_index
    ["❌ No runoff observed";
     "✅ Runoff present"]%string x.

Definition latrine_distance_options : list Z := [0; 1]%Z.

Definition latrine_distance_format (x : Z) : result string :=
  py_index
    ["✅ Safe (>30 meters)";
     "⚠️ Too close (<30 meters)"]%string x.

Definition turbidity_options : list Z := [0; 1; 2]%Z.

Definition turbidity_format (x : Z) : result string :=
  py_index
    ["💎 Clear";
     "☁️ Slightly Cloudy";
     "🌫️ Very Cloudy"]%string x.

(** The [observations] the "assess" button sends to [POST /predict]. *)
Definition observations (rainfall turbidity surface_runoff latrine_distance : Z)
  : ObservationInput :=
  {| rainfall := Some rainfall;
     turbidity := Some turbidity;
     surface_runoff := Some surface_runoff;
     latrine_distance := Some latrine_distance;
     pump_age := None |}.

End deployment.

(* ================================================================= *)
(** ** Vocabulary of the further properties *)

(** The severity order of the risk levels. *)
Definition risk_rank (risk_level : string) : nat :=
  if bool_decide (risk_level = "LOW"%string) then 0
  else if bool_decide (risk_level = "MODERATE"%string) then 1
  else if bool_decide (risk_level = "HIGH"%string) then 2
  else 3.

(** The four observable variables with their cardinalities. *)
Definition observation_cards : list (string * nat) :=
  node_cards the_network app.evidence_keys.

(** The contaminated probability does not decrease when variable [v]
    moves from state [s] to state [s + 1], and increases when [v] is
    not the rainfall. *)
Definition step_up_ok (engine : VariableElimination) (v : string) (s : nat)
    (evid : gmap string Z) : bool :=
  match state1_probability engine "Contamination" (<[v := Z.of_nat s]> evid),
        state1_probability engine "Contamination" (<[v := Z.of_nat (S s)]> evid) with
  | Ok p, Ok q => if String.eqb v "Rainfall" then Qle_bool p q else Qltb p q
  | _, _ => false
  end.

(** The check above, for every observable variable that the evidence
    leaves open and every state but its last. *)
Definition monotone_check (engine : VariableElimination) (evid : gmap string Z) : bool :=
  forallb (λ vn : string * nat,
             match evid !! vn.1 with
             | Some _ => true
             | None => forallb (λ s, step_up_ok engine vn.1 s evid) (seq 0 (vn.2 - 1))
             end) observation_cards.

(** A list of scored variables in order of decreasing score. *)
Fixpoint descending (l : list (string * Q)) : Prop :=
  match l with
  | [] => True
  | a :: l' => Forall (λ b : string * Q, b.2 <= a.2) l' ∧ descending l'
  end.

(** The number of observation fields of a request that carry a state and
    go into the evidence. *)
Definition observed_count (o : ObservationInput) : nat :=
  length (filter is_Some [rainfall o; turbidity o; surface_runoff o; latrine_distance o]).

(** Membership in an explicit list, and in the nodes of the network. *)
Ltac in_list :=
  repeat first [apply list_elem_of_here | apply list_elem_of_further].

Ltac in_nodes := unfold the_network; cbn [nodes]; in_list.

(* ================================================================= *)
(** ** Basic facts: arithmetic, results, the constructed object *)

Lemma Qltb_lt x y : Qltb x y = true ↔ x < y.
Proof.
  unfold Qltb. rewrite negb_true_iff, <- not_true_iff_false, Qle_bool_iff.
  split; [apply Qnot_le_lt | apply Qlt_not_le].
Qed.

Lemma Qltb_ge x y : Qltb x y = false ↔ y <= x.
Proof.
  unfold Qltb. rewrite negb_false_iff, Qle_bool_iff. reflexivity.
Qed.

Lemma within_tolerance x tol : x == 1 → 0 <= tol → Qabs (x - 1) <= tol.
Proof.
  intros Hx Htol. assert (x - 1 == 0) as H0 by (rewrite Hx; reflexivity).
  rewrite (Qabs_wd _ _ H0). exact Htol.
Qed.

Lemma construction_ok : BoreholeWaterQualityModel = Ok bayesian_model.
Proof. vm_compute. reflexivity. Qed.

Lemma model_of_singleton : model bayesian_model = Some the_network.
Proof. reflexivity. Qed.

Lemma engine_of_singleton : inference_engine bayesian_model = Some the_engine.
Proof. reflexivity. Qed.

Lemma nodes_of_network :
  nodes the_network
  = ["Rainfall"; "Turbidity"; "Surface_Runoff"; "Contamination";
     "Latrine_Dist"; "Pump_Age"; "Pump_Failure"]%string.
Proof. reflexivity. Qed.

Lemma edges_of_network : edges the_network = network_edges.
Proof. reflexivity. Qed.

Lemma cpds_of_network : cpds the_network = network_cpds.
Proof. reflexivity. Qed.

Lemma engine_query_singleton variables evid :
  engine_query variables evid bayesian_model
  = (query the_engine variables evid, bayesian_model).
Proof. unfold engine_query. rewrite engine_of_singleton. reflexivity. Qed.








(* ================================================================= *)
(** ** Risk categories *)

Lemma categorize_low p : _categorize_risk p = "LOW"%string ↔ p < 0.2.
Proof.
  unfold _categorize_risk. rewrite <- Qltb_lt.
  destruct (Qltb p 0.2); [tauto|].
  destruct (Qltb p 0.5); [split; discriminate|].
  destruct (Qltb p 0.8); split; discriminate.
Qed.

Lemma categorize_moderate p :
  _categorize_risk p = "MODERATE"%string ↔ 0.2 <= p ∧ p < 0.5.
Proof.
  unfold _categorize_risk. rewrite <- Qltb_ge, <- Qltb_lt.
  destruct (Qltb p 0.2); [split; [discriminate | intros [? _]; discriminate]|].
  destruct (Qltb p 0.5); [tauto|].
  destruct (Qltb p 0.8); (split; [discriminate | intros [_ ?]; discriminate]).
Qed.

Lemma categorize_high p :
  _categorize_risk p = "HIGH"%string ↔ 0.5 <= p ∧ p < 0.8.
Proof.
  unfold _categorize_risk. rewrite <- Qltb_ge, <- Qltb_lt.
  destruct (Qltb p 0.2) eqn:H2.
  { split; [discriminate|]. intros [H5 _]. exfalso.
    apply Qltb_lt in H2. apply Qltb_ge in H5.
    apply (Qlt_irrefl p). eapply Qlt_le_trans; [apply H2|].
    eapply Qle_trans; [|apply H5]. discriminate. }
  destruct (Qltb p 0.5); [split; [discriminate | intros [? _]; discriminate]|].
  destruct (Qltb p 0.8); [tauto|].
  split; [discriminate | intros [_ ?]; discriminate].
Qed.

Lemma categorize_critical p : _categorize_risk p = "CRITICAL"%string ↔ 0.8 <= p.
Proof.
  unfold _categorize_risk. rewrite <- Qltb_ge.
  destruct (Qltb p 0.8) eqn:H8; [|].
  - split; [|discriminate].
    destruct (Qltb p 0.2); [discriminate|].
    destruct (Qltb p 0.5); discriminate.
  - split; [reflexivity|]. intros _.
    assert (Qltb p 0.5 = false) as ->.
    { apply Qltb_ge. apply Qltb_ge in H8.
      eapply Qle_trans; [|apply H8]. discriminate. }
    assert (Qltb p 0.2 = false) as ->; [|reflexivity].
    apply Qltb_ge. apply Qltb_ge in H8.
    eapply Qle_trans; [|apply H8]. discriminate.
Qed.

(** The fields of a successful [predict_contamination_risk]. *)
Lemma predict_contamination_risk_inv evid self r self' :
  predict_contamination_risk evid self = (Ok r, self') →
  ∃ probs p0 p1,
    engine_query ["Contamination"%string] evid self = (Ok probs, self')
    ∧ probs !! 0%nat = Some p0 ∧ probs !! 1%nat = Some p1
    ∧ r = {| safe_probability := p0; contamination_probability := p1;
             risk_level := _categorize_risk p1; evidence_used := evid |}.
Proof.
  unfold predict_contamination_risk, mbind, M_bind, lift, getitem, mret, M_ret.
  destruct (engine_query _ evid self) as [[probs|e] s1]; [|discriminate].
  destruct (probs !! 0%nat) as [p0|] eqn:H0; [|discriminate].
  destruct (probs !! 1%nat) as [p1|] eqn:H1; [|discriminate].
  intros [= <- <-]. exists probs, p0, p1. done.
Qed.

(** Claim C10.  The [risk_level] of every result of
    [predict_contamination_risk] classifies its contamination probability
    [p] totally: it is "LOW" exactly when [p < 0.2], "MODERATE" exactly
    when [0.2 <= p < 0.5], "HIGH" exactly when [0.5 <= p < 0.8], and
    "CRITICAL" exactly when [0.8 <= p]; it is always one of the four. *)
Theorem risk_level_classification evid self r self' :
  predict_contamination_risk evid self = (Ok r, self') →
  let p := contamination_probability r in
  (risk_level r = "LOW"%string ↔ p < 0.2)
  ∧ (risk_level r = "MODERATE"%string ↔ 0.2 <= p ∧ p < 0.5)
  ∧ (risk_level r = "HIGH"%string ↔ 0.5 <= p ∧ p < 0.8)
  ∧ (risk_level r = "CRITICAL"%string ↔ 0.8 <= p)
  ∧ risk_level r ∈ ["LOW"; "MODERATE"; "HIGH"; "CRITICAL"]%string.
Proof.
  intros Hrun. apply predict_contamination_risk_inv in Hrun
    as (probs & p0 & p1 & _ & _ & _ & ->). simpl.
  split; [apply categorize_low|].
  split; [apply categorize_moderate|].
  split; [apply categorize_high|].
  split; [apply categorize_critical|].
  unfold _categorize_risk.
  destruct (Qltb p1 0.2); [in_list|].
  destruct (Qltb p1 0.5); [in_list|].
  destruct (Qltb p1 0.8); in_list.
Qed.

Lemma risk_level_classification_witness :
  let r := {| safe_probability := 1458947 # 2000000;
              contamination_probability := 541053 # 2000000;
              risk_level := "MODERATE";
              evidence_used := ∅ |} in
  let p := contamination_probability r in
  (risk_level r = "LOW"%string ↔ p < 0.2)
  ∧ (risk_level r = "MODERATE"%string ↔ 0.2 <= p ∧ p < 0.5)
  ∧ (risk_level r = "HIGH"%string ↔ 0.5 <= p ∧ p < 0.8)
  ∧ (risk_level r = "CRITICAL"%string ↔ 0.8 <= p)
  ∧ risk_level r ∈ ["LOW"; "MODERATE"; "HIGH"; "CRITICAL"]%string.
Proof.
  apply (risk_level_classification ∅ bayesian_model _ bayesian_model).
  vm_compute. reflexivity.
Defined.

(* ================================================================= *)
(** ** Pump status *)


Lemma predict_pump_status_new :
  predict_pump_status 0 bayesian_model
  = (Ok {| working_probability := 49 # 50; failure_probability := 1 # 50;
           maintenance_needed := false |}, bayesian_model).
Proof. vm_compute. reflexivity. Qed.

Lemma predict_pump_status_medium :
  predict_pump_status 1 bayesian_model
  = (Ok {| working_probability := 9 # 10; failure_probability := 1 # 10;
           maintenance_needed := false |}, bayesian_model).
Proof. vm_compute. reflexivity. Qed.

Lemma predict_pump_status_old :
  predict_pump_status 2 bayesian_model
  = (Ok {| working_probability := 7 # 10; failure_probability := 3 # 10;
           maintenance_needed := true |}, bayesian_model).
Proof. vm_compute. reflexivity. Qed.

(** Claim C9.  For [pump_age] 0, 1 and 2, [predict_pump_status] returns
    as working and failure probabilities the column of the Pump_Failure
    CPD for that age, (0.98, 0.02), (0.90, 0.10) and (0.70, 0.30)
    respectively; [maintenance_needed] holds exactly when the failure
    probability exceeds 0.15, which is exactly when [pump_age] is 2. *)
Theorem predict_pump_status_column (pump_age : Z) :
  (0 ≤ pump_age ≤ 2)%Z →
  ∃ r w f,
    predict_pump_status pump_age bayesian_model = (Ok r, bayesian_model)
    ∧ cpd_entry cpd_pump_failure 0 (Z.to_nat pump_age) = Some w
    ∧ cpd_entry cpd_pump_failure 1 (Z.to_nat pump_age) = Some f
    ∧ working_probability r == w
    ∧ failure_probability r == f
    ∧ [(0.98, 0.02); (0.90, 0.10); (0.70, 0.30)] !! Z.to_nat pump_age = Some (w, f)
    ∧ (maintenance_needed r = true ↔ 0.15 < failure_probability r)
    ∧ (maintenance_needed r = true ↔ pump_age = 2%Z).
Proof.
  intros Hage.
  assert (pump_age = 0 ∨ pump_age = 1 ∨ pump_age = 2)%Z as Hcases by lia.
  clear Hage. destruct Hcases as [-> | [-> | ->]].
  - eexists _, 0.98, 0.02. split; [apply predict_pump_status_new|]. simpl.
    repeat split; try reflexivity; discriminate.
  - eexists _, 0.90, 0.10. split; [apply predict_pump_status_medium|]. simpl.
    repeat split; try reflexivity; discriminate.
  - eexists _, 0.70, 0.30. split; [apply predict_pump_status_old|]. simpl.
    repeat split; try reflexivity; discriminate.
Qed.

Lemma predict_pump_status_column_witness :
  ∃ r w f,
    predict_pump_status 2 bayesian_model = (Ok r, bayesian_model)
    ∧ cpd_entry cpd_pump_failure 0 (Z.to_nat 2) = Some w
    ∧ cpd_entry cpd_pump_failure 1 (Z.to_nat 2) = Some f
    ∧ working_probability r == w
    ∧ failure_probability r == f
    ∧ [(0.98, 0.02); (0.90, 0.10); (0.70, 0.30)] !! Z.to_nat 2 = Some (w, f)
    ∧ (maintenance_needed r = true ↔ 0.15 < failure_probability r)
    ∧ (maintenance_needed r = true ↔ 2%Z = 2%Z).
Proof. apply (predict_pump_status_column 2). lia. Defined.

(* ================================================================= *)
(** ** The declared tables *)

Lemma columns_sum_to_one :
  forallb (λ c, forallb (λ j, Qeq_bool (column_sum c j) 1) (seq 0 (n_columns c)))
          network_cpds = true.
Proof. vm_compute. reflexivity. Qed.

Lemma check_model_ok : check_model the_network = Ok true.
Proof. vm_compute. reflexivity. Qed.

Lemma every_node_has_cpd v :
  v ∈ nodes the_network → ∃ c, get_cpds the_network v = Some c ∧ c ∈ network_cpds.
Proof.
  rewrite nodes_of_network. intros Hv.
  repeat (apply elem_of_cons in Hv as [-> | Hv];
          [eexists; split; [vm_compute; reflexivity | unfold network_cpds; in_list]|]).
  by apply elem_of_nil in Hv.
Qed.

(** Claim C6.  The network has seven variables; each has a CPD, and for
    every assignment of its parents (every column of its table) the
    probabilities of the child's states sum to 1 (exactly, hence within
    1e-6); the validation [check_model] succeeds on the network. *)
Theorem cpd_columns_normalized :
  length (nodes the_network) = 7%nat
  ∧ (∀ v, v ∈ nodes the_network →
       ∃ c, get_cpds the_network v = Some c
            ∧ ∀ j, (j < n_columns c)%nat →
                   column_sum c j == 1
                   ∧ Qabs (column_sum c j - 1) <= 1e-6)
  ∧ check_model the_network = Ok true.
Proof.
  split; [rewrite nodes_of_network; reflexivity|].
  split; [|apply check_model_ok].
  intros v Hv. destruct (every_node_has_cpd v Hv) as (c & Hc & Hin).
  exists c. split; [exact Hc|]. intros j Hj.
  pose proof columns_sum_to_one as Hall.
  rewrite forallb_forall in Hall.
  specialize (Hall c (proj1 (list_elem_of_In _ _) Hin)).
  rewrite forallb_forall in Hall.
  assert (column_sum c j == 1) as Hone.
  { apply Qeq_bool_iff, Hall, in_seq. lia. }
  split; [exact Hone|]. by apply within_tolerance.
Qed.

(* ================================================================= *)
(** ** Priors *)

Lemma prior_rainfall :
  query the_engine ["Rainfall"%string] ∅ = Ok [1 # 2; 3 # 10; 1 # 5].
Proof. vm_compute. reflexivity. Qed.

Lemma prior_latrine :
  query the_engine ["Latrine_Dist"%string] ∅ = Ok [7 # 10; 3 # 10].
Proof. vm_compute. reflexivity. Qed.

Lemma prior_pump_age :
  query the_engine ["Pump_Age"%string] ∅ = Ok [3 # 10; 1 # 2; 1 # 5].
Proof. vm_compute. reflexivity. Qed.

(** Claim C5.  Querying a variable without parents under empty evidence
    returns its prior CPD values: this holds for every parentless CPD of
    the network, and in particular the posterior of Rainfall is
    [0.5, 0.3, 0.2], of Latrine_Dist [0.7, 0.3], and of Pump_Age
    [0.3, 0.5, 0.2]. *)
Theorem query_parentless_prior :
  (∀ c, c ∈ cpds the_network → evidence c = [] →
     ∃ p, engine_query [variable c] ∅ bayesian_model = (Ok p, bayesian_model)
          ∧ Forall2 Qeq p (concat (values c)))
  ∧ (∃ p, query the_engine ["Rainfall"%string] ∅ = Ok p
          ∧ Forall2 Qeq p [0.5; 0.3; 0.2])
  ∧ (∃ p, query the_engine ["Latrine_Dist"%string] ∅ = Ok p
          ∧ Forall2 Qeq p [0.7; 0.3])
  ∧ (∃ p, query the_engine ["Pump_Age"%string] ∅ = Ok p
          ∧ Forall2 Qeq p [0.3; 0.5; 0.2]).
Proof.
  split.
  { intros c Hc Hnone. rewrite cpds_of_network in Hc.
    repeat (apply elem_of_cons in Hc as [-> | Hc]); try discriminate Hnone.
    - eexists. rewrite engine_query_singleton. simpl variable.
      rewrite prior_rainfall. split; [reflexivity|].
      repeat constructor.
    - eexists. rewrite engine_query_singleton. simpl variable.
      rewrite prior_latrine. split; [reflexivity|].
      repeat constructor.
    - eexists. rewrite engine_query_singleton. simpl variable.
      rewrite prior_pump_age. split; [reflexivity|].
      repeat constructor.
    - set_solver. }
  split; [eexists; split; [apply prior_rainfall | repeat constructor]|].
  split; [eexists; split; [apply prior_latrine | repeat constructor]|].
  eexists; split; [apply prior_pump_age | repeat constructor].
Qed.

(* ================================================================= *)
(** ** Cycles and the topological sort *)

Section Cycles.
Variable es : list (string * string).

(** The last edge of a path. *)
Lemma path_last u v :
  path es u v → ∃ w, edge es w v ∧ (w = u ∨ path es u w).
Proof.
  unfold path. induction 1 as [x y Hxy | x y z Hxy Hyz (w & Hw & IH)].
  - exists x. auto.
  - exists w. split; [exact Hw|]. right.
    destruct IH as [-> | IH]; [by apply tc_once | by eapply tc_l].
Qed.

(** Every node of a cycle has a predecessor on the same cycle. *)
Lemma cycle_predecessor v x :
  path es v v → path es v x → path es x v →
  ∃ w, edge es w x ∧ path es v w ∧ path es w v.
Proof.
  intros Hvv Hvx Hxv. destruct (path_last v x Hvx) as (w & Hw & Hvw).
  exists w. split; [exact Hw|]. split.
  - destruct Hvw as [-> | ?]; assumption.
  - unfold path. eapply tc_l; [exact Hw | exact Hxv].
Qed.

(** The sort never takes a node of a cycle out, so it cannot finish. *)
Lemma toposort_cycle v fuel remaining :
  path es v v →
  (∀ x, path es v x → path es x v → x ∈ remaining) →
  toposort fuel es remaining = None.
Proof.
  intros Hvv. revert remaining.
  induction fuel as [|fuel IH]; intros remaining Hin.
  - destruct remaining; [|reflexivity].
    specialize (Hin v Hvv Hvv). by apply elem_of_nil in Hin.
  - destruct remaining as [|r0 rest].
    { specialize (Hin v Hvv Hvv). by apply elem_of_nil in Hin. }
    cbn [toposort]. set (remaining := r0 :: rest) in *.
    destruct (find _ remaining) as [n|] eqn:Hfind; [|reflexivity].
    apply find_some in Hfind as [Hn Hfree].
    apply negb_true_iff in Hfree.
    assert (¬ (path es v n ∧ path es n v)) as Hoff.
    { intros [Hvn Hnv].
      destruct (cycle_predecessor v n Hvv Hvn Hnv) as (w & Hw & Hvw & Hwv).
      apply not_true_iff_false in Hfree. apply Hfree.
      unfold has_incoming. apply existsb_exists. exists (w, n). split.
      - apply list_elem_of_In, Hw.
      - simpl. rewrite bool_decide_eq_true_2 by reflexivity.
        rewrite bool_decide_eq_true_2; [reflexivity | by apply Hin]. }
    rewrite IH; [reflexivity|].
    intros x Hvx Hxv. apply list_elem_of_filter. split; [|by apply Hin].
    intros ->. apply Hoff. by split.
Qed.

(** Every node on a path out of anywhere is the head of an edge. *)
Lemma path_target u v : path es u v → ∃ w, (w, v) ∈ es.
Proof. intros H. destruct (path_last u v H) as (w & Hw & _). by exists w. Qed.
End Cycles.

Lemma add_node_mono ns n x : x ∈ ns → x ∈ add_node ns n.
Proof. unfold add_node. case_bool_decide; set_solver. Qed.

Lemma add_node_in ns n : n ∈ add_node ns n.
Proof. unfold add_node. case_bool_decide; set_solver. Qed.

Lemma fold_add_node_mono es init x :
  x ∈ init → x ∈ fold_left (λ ns e, add_node (add_node ns e.1) e.2) es init.
Proof.
  revert init. induction es as [|e es IH]; intros init Hx; [exact Hx|].
  simpl. apply IH. by do 2 apply add_node_mono.
Qed.

(** The constructor declares both endpoints of every edge. *)
Lemma new_network_nodes es u v :
  (u, v) ∈ es → u ∈ nodes (new_network es) ∧ v ∈ nodes (new_network es).
Proof.
  unfold new_network. simpl. generalize (@nil string) as init.
  induction es as [|e es IH]; intros init Huv; [by apply elem_of_nil in Huv|].
  apply elem_of_cons in Huv as [<- | Huv]; [|by apply IH].
  simpl. split; apply fold_add_node_mono.
  - apply add_node_mono, add_node_in.
  - apply add_node_in.
Qed.

Lemma add_cpds_structure cs : ∀ net net',
  add_cpds net cs = Ok net' → nodes net' = nodes net ∧ edges net' = edges net.
Proof.
  unfold add_cpds. induction cs as [|c cs IH]; intros net net' H; simpl in H.
  - by injection H as <-.
  - destruct (negb (bool_decide (variable c ∈ nodes net))); [discriminate|].
    destruct (negb (cpd_shape_ok c)); [discriminate|].
    apply IH in H as [-> ->]. done.
Qed.

(** Validation step (a) refuses a network whose edges contain a cycle. *)
Lemma check_model_cycle net :
  has_cycle (edges net) →
  (∀ u v, (u, v) ∈ edges net → v ∈ nodes net) →
  check_model net = Err StructuralError.
Proof.
  intros [v Hv] Hnodes. unfold check_model, topological_sort.
  rewrite (toposort_cycle (edges net) v); [reflexivity | exact Hv |].
  intros x Hvx _. destruct (path_target _ _ _ Hvx) as (w & Hw).
  by eapply Hnodes.
Qed.

Lemma build_network_cycle es cs self :
  has_cycle es →
  ∃ e self',
    build_network es cs self = (Err e, self')
    ∧ inference_engine self' = inference_engine self
    ∧ (e = StructuralError ∨ add_cpds (new_network es) cs = Err e).
Proof.
  intros Hcyc. unfold build_network, mbind, M_bind, set_model, get_model, lift.
  simpl. destruct (add_cpds (new_network es) cs) as [net|e] eqn:Hadd.
  - destruct (add_cpds_structure _ _ _ Hadd) as [Hn He].
    rewrite check_model_cycle.
    + eexists _, _. split; [reflexivity|]. simpl. auto.
    + by rewrite He.
    + intros u v Huv. rewrite He in Huv. rewrite Hn.
      by apply (new_network_nodes es u v).
  - eexists _, _. split; [reflexivity|]. simpl. auto.
Qed.

Lemma network_edges_acyclic : acyclic network_edges.
Proof.
  intros v Hv.
  assert (toposort 7 network_edges (nodes (new_network network_edges)) = None) as H.
  { apply (toposort_cycle network_edges v); [exact Hv|].
    intros x Hvx _. destruct (path_target _ _ _ Hvx) as (w & Hw).
    by apply (new_network_nodes _ w x). }
  vm_compute in H. discriminate H.
Qed.

(** Claim C7.  The network has the six declared edges; they form an
    acyclic graph; validation succeeds, the constructor returns the
    object, and the object has an inference engine.  For any edge list
    that contains a cycle, the same construction fails, whatever CPDs are
    supplied, and it never sets the inference engine: with a structural
    error at validation, unless attaching the CPDs has failed before. *)
Theorem network_is_dag :
  edges the_network = network_edges
  ∧ length network_edges = 6%nat
  ∧ acyclic network_edges
  ∧ check_model the_network = Ok true
  ∧ BoreholeWaterQualityModel = Ok bayesian_model
  ∧ inference_engine bayesian_model = Some the_engine
  ∧ (∀ es cs self, has_cycle es →
       ∃ e self',
         build_network es cs self = (Err e, self')
         ∧ inference_engine self' = inference_engine self
         ∧ (e = StructuralError ∨ add_cpds (new_network es) cs = Err e)).
Proof.
  split; [apply edges_of_network|].
  split; [reflexivity|].
  split; [apply network_edges_acyclic|].
  split; [apply check_model_ok|].
  split; [apply construction_ok|].
  split; [apply engine_of_singleton|].
  apply build_network_cycle.
Qed.

(* ================================================================= *)
(** ** Sums of rationals *)

Lemma qsum_eq l : qsum l == fold_right Qplus 0 l.
Proof. apply Qred_correct. Qed.

Lemma fold_sum_nonneg l : Forall (λ x, 0 < x) l → 0 <= fold_right Qplus 0 l.
Proof.
  induction 1 as [|x l Hx _ IH]; simpl; [discriminate|].
  apply Qlt_le_weak in Hx.
  replace 0 with (0 + 0) by reflexivity. by apply Qplus_le_compat.
Qed.

Lemma qsum_pos l : l ≠ [] → Forall (λ x, 0 < x) l → 0 < qsum l.
Proof.
  intros Hne Hall. rewrite qsum_eq. destruct Hall as [|x l Hx Hl]; [done|].
  simpl. apply fold_sum_nonneg in Hl.
  apply Qlt_le_trans with (x + 0).
  - by rewrite Qplus_0_r.
  - apply Qplus_le_compat; [apply Qle_refl | exact Hl].
Qed.

(* ================================================================= *)
(** ** Tables, assignments and offsets *)

Lemma length_bind_const {A B} (g : A → list B) (l : list A) k :
  (∀ x, length (g x) = k) → length (l ≫= g) = (length l * k)%nat.
Proof.
  intros Hg. induction l as [|x l IH]; [reflexivity|].
  change ((x :: l) ≫= g) with (g x ++ (l ≫= g)).
  rewrite length_app, Hg, IH. simpl. lia.
Qed.

Lemma length_assignments sc : length (assignments sc) = table_size sc.
Proof.
  induction sc as [|v sc IH]; [reflexivity|]. simpl.
  rewrite (length_bind_const _ _ (table_size sc)).
  - by rewrite length_seq.
  - intros s. by rewrite length_fmap.
Qed.

Lemma assignments_fits sc a : a ∈ assignments sc → fits sc a.
Proof.
  revert a. induction sc as [|v sc IH]; intros a Ha; simpl in Ha.
  - apply list_elem_of_singleton in Ha as ->. constructor.
  - apply list_elem_of_bind in Ha as (s & Ha & Hs).
    apply list_elem_of_fmap in Ha as (a' & -> & Ha').
    apply elem_of_seq in Hs. constructor; [lia | by apply IH].
Qed.

Lemma offset_lt sc a : fits sc a → (offset sc a < table_size sc)%nat.
Proof.
  induction 1 as [|v s sc a Hs _ IH]; simpl; [lia|]. nia.
Qed.

Section Consistency.
Variable net : DiscreteBayesianNetwork.

Lemma consistent_cons v sc :
  consistent net (v :: sc) → consistent net sc.
Proof. intros H w Hw. apply H. by right. Qed.

Lemma table_size_pos sc : consistent net sc → (0 < table_size sc)%nat.
Proof.
  induction sc as [|v sc IH]; intros H; simpl; [lia|].
  destruct (H v) as [_ Hv]; [by left|].
  specialize (IH (consistent_cons _ _ H)). nia.
Qed.

(** The state an assignment gives to a variable of its scope is a state
    of that variable. *)
Lemma state_of_lt sc a x c :
  consistent net sc → fits sc a → x ∈ name <$> sc →
  card_of net x = Some c → (state_of sc a x < c)%nat.
Proof.
  intros Hcons Hfit. revert Hcons.
  induction Hfit as [|v s sc a Hs _ IH]; intros Hcons Hx Hc.
  - by apply elem_of_nil in Hx.
  - simpl. destruct (String.eqb_spec (name v) x) as [Hname | Hname].
    + destruct (Hcons v) as [Hv _]; [by left|].
      rewrite Hname, Hc in Hv. by injection Hv as ->.
    + apply IH; [by eapply consistent_cons | | exact Hc].
      simpl in Hx. apply elem_of_cons in Hx as [Hx | Hx]; [done | exact Hx].
Qed.

Lemma restrict_fits sc sub a :
  consistent net sc → consistent net sub → fits sc a →
  (∀ v, v ∈ sub → name v ∈ name <$> sc) →
  fits sub ((λ v, state_of sc a (name v)) <$> sub).
Proof.
  intros Hsc Hsub Hfit. induction sub as [|v sub IH]; intros Hin.
  - constructor.
  - simpl. constructor.
    + destruct (Hsub v) as [Hv _]; [by left|].
      apply state_of_lt; auto. apply Hin. by left.
    + apply IH; [by eapply consistent_cons|].
      intros w Hw. apply Hin. by right.
Qed.

(** A well-formed factor is positive at every assignment of a larger
    scope. *)
Lemma value_at_pos f sc a :
  wf_factor net f → consistent net sc →
  (∀ v, v ∈ scope f → name v ∈ name <$> sc) →
  fits sc a → 0 < value_at f sc a.
Proof.
  intros [Hcons _ Hlen Hpos] Hsc Hin Hfit. unfold value_at.
  apply (proj1 (Forall_nth _ 0 (table f)) Hpos). rewrite Hlen.
  apply offset_lt. by apply restrict_fits.
Qed.
End Consistency.

(* ================================================================= *)
(** ** The factor operations keep factors well-formed *)

Lemma names_filter (P : Var → Prop) `{∀ v, Decision (P v)} (sc : list Var) x :
  x ∈ name <$> filter P sc ↔ ∃ v, v ∈ sc ∧ P v ∧ name v = x.
Proof.
  rewrite list_elem_of_fmap. split.
  - intros (v & -> & Hv). apply list_elem_of_filter in Hv as [? ?]. eauto.
  - intros (v & Hv & HP & <-). exists v. split; [done|].
    by apply list_elem_of_filter.
Qed.

Lemma NoDup_names_filter (P : Var → Prop) `{∀ v, Decision (P v)} (sc : list Var) :
  NoDup (name <$> sc) → NoDup (name <$> filter P sc).
Proof.
  induction sc as [|v sc IH]; [done|]. simpl. intros Hnd.
  apply NoDup_cons in Hnd as [Hv Hnd].
  rewrite filter_cons. case_decide; [|by apply IH].
  simpl. apply NoDup_cons. split; [|by apply IH].
  intros Hin. apply Hv. apply names_filter in Hin as (w & Hw & _ & Hname).
  rewrite <- Hname. by apply list_elem_of_fmap_2.
Qed.

Lemma find_name (sc : list Var) x :
  x ∈ name <$> sc →
  ∃ vx, find (λ v, String.eqb (name v) x) sc = Some vx ∧ vx ∈ sc ∧ name vx = x.
Proof.
  induction sc as [|v sc IH]; intros Hx; [by apply elem_of_nil in Hx|].
  simpl. destruct (String.eqb_spec (name v) x) as [Hname | Hname].
  - exists v. split; [done|]. split; [by left | done].
  - simpl in Hx. apply elem_of_cons in Hx as [Hx | Hx]; [done|].
    destruct (IH Hx) as (vx & Hf & Hin & Hn). exists vx.
    split; [done|]. split; [by right | done].
Qed.

Lemma in_names_iff x (sc : list Var) : in_names x sc = true ↔ x ∈ name <$> sc.
Proof.
  unfold in_names. rewrite existsb_exists, list_elem_of_fmap. split.
  - intros (v & Hv & Heq). exists v. apply String.eqb_eq in Heq.
    split; [done | by apply list_elem_of_In].
  - intros (v & -> & Hv). exists v. split; [by apply list_elem_of_In|].
    apply String.eqb_refl.
Qed.

Lemma in_names_false x (sc : list Var) : in_names x sc = false ↔ x ∉ name <$> sc.
Proof. rewrite <- in_names_iff. symmetry. apply not_true_iff_false. Qed.

Lemma Qred_pos q : 0 < q → 0 < Qred q.
Proof. intros H. by rewrite Qred_correct. Qed.

Section Operations.
Variable net : DiscreteBayesianNetwork.

Lemma consistent_filter (P : Var → Prop) `{∀ v, Decision (P v)} (sc : list Var) :
  consistent net sc → consistent net (filter P sc).
Proof. intros Hc v Hv. apply list_elem_of_filter in Hv as [_ Hv]. by apply Hc. Qed.

Lemma product_names f1 f2 x :
  x ∈ name <$> scope (product f1 f2)
  ↔ x ∈ name <$> scope f1 ∨ x ∈ name <$> scope f2.
Proof.
  unfold product. simpl. rewrite fmap_app, elem_of_app, names_filter.
  split.
  - intros [? | (v & Hv & _ & <-)]; [by left | right].
    by apply list_elem_of_fmap_2.
  - intros [? | Hx]; [by left|].
    destruct (decide (x ∈ name <$> scope f1)) as [|Hno]; [by left | right].
    apply list_elem_of_fmap in Hx as (v & -> & Hv). exists v.
    split; [done|]. split; [by apply in_names_false | done].
Qed.

Lemma product_wf f1 f2 :
  wf_factor net f1 → wf_factor net f2 → wf_factor net (product f1 f2).
Proof.
  intros Hw1 Hw2.
  assert (consistent net (scope (product f1 f2))) as Hcons.
  { intros v Hv. unfold product in Hv. simpl in Hv.
    apply elem_of_app in Hv as [Hv | Hv].
    - by apply (wf_consistent _ _ Hw1).
    - apply list_elem_of_filter in Hv as [_ Hv]. by apply (wf_consistent _ _ Hw2). }
  split; [exact Hcons | | |].
  - unfold product. simpl. rewrite fmap_app. apply NoDup_app.
    split; [apply (wf_nodup _ _ Hw1)|]. split.
    + intros x Hx Hin. apply names_filter in Hin as (v & _ & Hv & <-).
      by apply in_names_false in Hv.
    + apply NoDup_names_filter, (wf_nodup _ _ Hw2).
  - unfold product. simpl. by rewrite length_fmap, length_assignments.
  - change (table (product f1 f2))
      with ((λ a, Qred (value_at f1 (scope (product f1 f2)) a
                        * value_at f2 (scope (product f1 f2)) a))
              <$> assignments (scope (product f1 f2))).
    apply Forall_fmap, Forall_forall. intros a Ha. simpl.
    apply assignments_fits in Ha. apply Qred_pos.
    apply Qmult_lt_0_compat.
    + apply (value_at_pos net); auto.
      intros v Hv. apply product_names. left. by apply list_elem_of_fmap_2.
    + apply (value_at_pos net); auto.
      intros v Hv. apply product_names. right. by apply list_elem_of_fmap_2.
Qed.

(** The scope that [marginalize] and [reduce] evaluate the factor on:
    the removed variable first, then the rest. *)
Lemma split_scope_ok f x vx :
  wf_factor net f → vx ∈ scope f → name vx = x →
  consistent net (vx :: filter (λ v, String.eqb (name v) x = false) (scope f))
  ∧ ∀ v, v ∈ scope f →
         name v ∈ name <$> (vx :: filter (λ v, String.eqb (name v) x = false)
                                         (scope f)).
Proof.
  intros Hw Hvx Hname. split.
  - intros v Hv. apply elem_of_cons in Hv as [-> | Hv].
    + by apply (wf_consistent _ _ Hw).
    + apply list_elem_of_filter in Hv as [_ Hv]. by apply (wf_consistent _ _ Hw).
  - intros v Hv. simpl. destruct (decide (name v = x)) as [Heq | Hne].
    + rewrite Heq, Hname. by left.
    + right. apply names_filter. exists v.
      split; [done|]. split; [by apply String.eqb_neq | done].
Qed.

Lemma marginalize_ok f x :
  wf_factor net f → x ∈ name <$> scope f →
  ∃ g, marginalize f x = Ok g ∧ wf_factor net g
       ∧ ∀ y, y ∈ name <$> scope g ↔ y ∈ name <$> scope f ∧ y ≠ x.
Proof.
  intros Hw Hx. destruct (find_name _ _ Hx) as (vx & Hfind & Hvx & Hname).
  unfold marginalize. rewrite Hfind. eexists. split; [reflexivity|].
  destruct (split_scope_ok f x vx Hw Hvx Hname) as [Hcons Hsub].
  split; [split|]; simpl.
  - apply consistent_filter, (wf_consistent _ _ Hw).
  - apply NoDup_names_filter, (wf_nodup _ _ Hw).
  - by rewrite length_fmap, length_assignments.
  - apply Forall_fmap, Forall_forall. intros a Ha. simpl.
    apply assignments_fits in Ha.
    destruct (wf_consistent _ _ Hw vx Hvx) as [_ Hpos].
    apply qsum_pos.
    + destruct (cardinality vx); [lia | discriminate].
    + apply Forall_fmap, Forall_forall. intros s Hs. simpl.
      apply elem_of_seq in Hs.
      apply (value_at_pos net); auto. constructor; [lia | exact Ha].
  - intros y. rewrite names_filter. split.
    + intros (v & Hv & Hne & <-). apply String.eqb_neq in Hne.
      split; [by apply list_elem_of_fmap_2 | done].
    + intros [Hy Hne]. apply list_elem_of_fmap in Hy as (v & -> & Hv).
      exists v. split; [done|]. split; [by apply String.eqb_neq | done].
Qed.

Lemma reduce_ok f x (s : Z) c :
  wf_factor net f → x ∈ name <$> scope f →
  card_of net x = Some c → (0 ≤ s < Z.of_nat c)%Z →
  ∃ g, reduce f x s = Ok g ∧ wf_factor net g
       ∧ ∀ y, y ∈ name <$> scope g ↔ y ∈ name <$> scope f ∧ y ≠ x.
Proof.
  intros Hw Hx Hc Hs. destruct (find_name _ _ Hx) as (vx & Hfind & Hvx & Hname).
  destruct (wf_consistent _ _ Hw vx Hvx) as [Hcard Hpos].
  rewrite Hname, Hc in Hcard. injection Hcard as ->.
  unfold reduce. rewrite Hfind. rewrite bool_decide_eq_true_2 by exact Hs.
  eexists. split; [reflexivity|].
  destruct (split_scope_ok f x vx Hw Hvx Hname) as [Hcons Hsub].
  split; [split|]; simpl.
  - apply consistent_filter, (wf_consistent _ _ Hw).
  - apply NoDup_names_filter, (wf_nodup _ _ Hw).
  - by rewrite length_fmap, length_assignments.
  - apply Forall_fmap, Forall_forall. intros a Ha. simpl.
    apply assignments_fits in Ha.
    apply (value_at_pos net); auto. constructor; [lia | exact Ha].
  - intros y. rewrite names_filter. split.
    + intros (v & Hv & Hne & <-). apply String.eqb_neq in Hne.
      split; [by apply list_elem_of_fmap_2 | done].
    + intros [Hy Hne]. apply list_elem_of_fmap in Hy as (v & -> & Hv).
      exists v. split; [done|]. split; [by apply String.eqb_neq | done].
Qed.

Lemma normalize_ok f :
  wf_factor net f →
  ∃ g, normalize f = Ok g ∧ length (table g) = table_size (scope f).
Proof.
  intros Hw. unfold normalize.
  assert (0 < qsum (table f)) as Hpos.
  { apply qsum_pos; [|apply (wf_positive _ _ Hw)].
    pose proof (table_size_pos net _ (wf_consistent _ _ Hw)) as Hsz.
    rewrite <- (wf_length _ _ Hw) in Hsz. destruct (table f); [simpl in Hsz; lia | done]. }
  destruct (Qle_bool (qsum (table f)) 0) eqn:Hle.
  - apply Qle_bool_iff in Hle. exfalso.
    apply (Qlt_irrefl 0). eapply Qlt_le_trans; eauto.
  - eexists. split; [reflexivity|]. simpl.
    rewrite length_fmap. apply (wf_length _ _ Hw).
Qed.
End Operations.

(* ================================================================= *)
(** ** The elimination keeps the factor list well-formed *)

Lemma in_scope_iff x f : in_scope x f = true ↔ x ∈ name <$> scope f.
Proof. unfold in_scope. apply in_names_iff. Qed.

Lemma in_scope_false x f : in_scope x f = false ↔ x ∉ name <$> scope f.
Proof. unfold in_scope. apply in_names_false. Qed.

Lemma mentions_nil x : ¬ mentions [] x.
Proof. intros (f & Hf & _). by apply elem_of_nil in Hf. Qed.

Lemma mentions_cons f fs x :
  mentions (f :: fs) x ↔ x ∈ name <$> scope f ∨ mentions fs x.
Proof.
  unfold mentions. split.
  - intros (g & Hg & Hx). apply elem_of_cons in Hg as [-> | Hg]; eauto.
  - intros [Hx | (g & Hg & Hx)]; [exists f | exists g]; split; auto; by constructor.
Qed.

Lemma mentions_app fs1 fs2 x :
  mentions (fs1 ++ fs2) x ↔ mentions fs1 x ∨ mentions fs2 x.
Proof.
  unfold mentions. split.
  - intros (g & Hg & Hx). apply elem_of_app in Hg as [Hg | Hg]; eauto.
  - intros [(g & Hg & Hx) | (g & Hg & Hx)]; exists g; split; auto;
      apply elem_of_app; auto.
Qed.

Section Elimination.
Variable net : DiscreteBayesianNetwork.

Lemma reduce_all_ok fs k (s : Z) c :
  Forall (wf_factor net) fs →
  card_of net k = Some c → (0 ≤ s < Z.of_nat c)%Z →
  ∃ fs', reduce_all fs (k, s) = Ok fs' ∧ Forall (wf_factor net) fs'
         ∧ ∀ x, mentions fs' x ↔ mentions fs x ∧ x ≠ k.
Proof.
  intros Hall Hc Hs. unfold reduce_all. simpl.
  induction Hall as [|f fs Hf _ (fs' & Hmap & Hwf & Hm)].
  - exists []. split; [done|]. split; [constructor|].
    intros x. split; [intros H; by apply mentions_nil in H | intros [H _]; done].
  - simpl. destruct (in_scope k f) eqn:Hk.
    + apply in_scope_iff in Hk.
      destruct (reduce_ok net f k s c Hf Hk Hc Hs) as (g & -> & Hg & Hnames).
      rewrite Hmap. exists (g :: fs'). split; [done|].
      split; [by constructor|]. intros x.
      rewrite !mentions_cons, Hnames, Hm. tauto.
    + apply in_scope_false in Hk.
      rewrite Hmap. exists (f :: fs'). split; [done|].
      split; [by constructor|]. intros x.
      rewrite !mentions_cons, Hm. split; [|tauto].
      intros [Hx | ?]; [|tauto]. split; [by left|]. by intros ->.
Qed.

Lemma reduce_evidence_ok (l : list (string * Z)) : ∀ fs,
  Forall (wf_factor net) fs →
  (∀ k s, (k, s) ∈ l → ∃ c, card_of net k = Some c ∧ (0 ≤ s < Z.of_nat c)%Z) →
  ∃ fs', foldR reduce_all l fs = Ok fs' ∧ Forall (wf_factor net) fs'
         ∧ ∀ x, mentions fs' x ↔ mentions fs x ∧ x ∉ l.*1.
Proof.
  induction l as [|[k s] l IH]; intros fs Hall Hvalid.
  - exists fs. split; [done|]. split; [done|]. intros x. simpl.
    split; [intros ?; split; [done | apply not_elem_of_nil] | tauto].
  - destruct (Hvalid k s) as (c & Hc & Hs); [by left|].
    destruct (reduce_all_ok fs k s c Hall Hc Hs) as (fs1 & Hred & Hwf1 & Hm1).
    destruct (IH fs1 Hwf1) as (fs' & Hfold & Hwf & Hm).
    { intros k' s' Hin. apply Hvalid. by right. }
    exists fs'. simpl. rewrite Hred. split; [done|]. split; [done|].
    intros x. rewrite Hm, Hm1, not_elem_of_cons. tauto.
Qed.

Lemma product_all_wf rest : ∀ f,
  wf_factor net f → Forall (wf_factor net) rest →
  wf_factor net (product_all f rest)
  ∧ ∀ x, x ∈ name <$> scope (product_all f rest)
         ↔ x ∈ name <$> scope f ∨ mentions rest x.
Proof.
  unfold product_all. induction rest as [|g rest IH]; intros f Hf Hrest.
  - simpl. split; [done|]. intros x. split; [by left|].
    intros [? | H]; [done | by apply mentions_nil in H].
  - apply Forall_cons in Hrest as [Hg Hrest]. simpl.
    destruct (IH (product f g)) as [Hwf Hnames];
      [by apply product_wf | done |].
    split; [done|]. intros x.
    rewrite Hnames, product_names, mentions_cons. tauto.
Qed.

Lemma eliminate_ok fs v :
  Forall (wf_factor net) fs →
  ∃ fs', eliminate fs v = Ok fs' ∧ Forall (wf_factor net) fs'
         ∧ ∀ x, mentions fs' x ↔ mentions fs x ∧ x ≠ v.
Proof.
  intros Hall. unfold eliminate.
  destruct (filter (λ f, in_scope v f = true) fs) as [|f rest] eqn:Hsel.
  - exists fs. split; [done|]. split; [done|]. intros x.
    split; [|tauto]. intros Hx. split; [done|]. intros ->.
    destruct Hx as (g & Hg & Hv).
    assert (g ∈ filter (λ f, in_scope v f = true) fs) as Hin.
    { apply list_elem_of_filter. split; [by apply in_scope_iff | done]. }
    rewrite Hsel in Hin. by apply elem_of_nil in Hin.
  - assert (∀ g, g ∈ f :: rest ↔ in_scope v g = true ∧ g ∈ fs) as Hmem.
    { intros g. rewrite <- Hsel, list_elem_of_filter. reflexivity. }
    assert (Forall (wf_factor net) (f :: rest)) as Hwsel.
    { apply Forall_forall. intros g Hg. apply Hmem in Hg as [_ Hg].
      by apply (proj1 (Forall_forall _ _) Hall). }
    apply Forall_cons in Hwsel as [Hf Hrest].
    destruct (product_all_wf rest f Hf Hrest) as [Hprod Hpn].
    assert (v ∈ name <$> scope (product_all f rest)) as Hv.
    { apply Hpn. left. apply in_scope_iff, Hmem. by left. }
    destruct (marginalize_ok net _ v Hprod Hv) as (g & -> & Hg & Hgn).
    eexists. split; [reflexivity|]. split.
    + apply Forall_app. split; [|by apply Forall_cons].
      apply Forall_forall. intros h Hh.
      apply list_elem_of_filter in Hh as [_ Hh].
      by apply (proj1 (Forall_forall _ _) Hall).
    + intros x. rewrite mentions_app, mentions_cons, Hgn, Hpn.
      rewrite <- mentions_cons. split.
      * intros [(h & Hh & Hx) | [[(h & Hh & Hx) ?] | H]];
          [| | by apply mentions_nil in H].
        -- apply list_elem_of_filter in Hh as [Hno Hh].
           split; [by exists h|]. intros ->.
           apply in_scope_false in Hno. done.
        -- apply Hmem in Hh as [_ Hh]. split; [by exists h | done].
      * intros [(h & Hh & Hx) Hne].
        destruct (in_scope v h) eqn:Hvh.
        -- right. left. split; [|done]. exists h. split; [|done].
           apply Hmem. done.
        -- left. exists h. split; [|done]. by apply list_elem_of_filter.
Qed.

Lemma eliminate_order_ok (order : list string) : ∀ fs,
  Forall (wf_factor net) fs →
  ∃ fs', foldR eliminate order fs = Ok fs' ∧ Forall (wf_factor net) fs'
         ∧ ∀ x, mentions fs' x ↔ mentions fs x ∧ x ∉ order.
Proof.
  induction order as [|v order IH]; intros fs Hall.
  - exists fs. split; [done|]. split; [done|]. intros x.
    split; [intros ?; split; [done | apply not_elem_of_nil] | tauto].
  - destruct (eliminate_ok fs v Hall) as (fs1 & Hel & Hwf1 & Hm1).
    destruct (IH fs1 Hwf1) as (fs' & Hfold & Hwf & Hm).
    exists fs'. simpl. rewrite Hel. split; [done|]. split; [done|].
    intros x. rewrite Hm, Hm1, not_elem_of_cons. tauto.
Qed.
End Elimination.

(* ================================================================= *)
(** ** Queries: normalization and success *)

Lemma fold_sum_div l t :
  ¬ t == 0 →
  fold_right Qplus 0 ((λ x, Qred (x / t)) <$> l) == fold_right Qplus 0 l / t.
Proof.
  intros Ht. induction l as [|x l IH]; simpl.
  - field. exact Ht.
  - rewrite Qred_correct, IH. field. exact Ht.
Qed.

Lemma normalize_sum f g : normalize f = Ok g → qsum (table g) == 1.
Proof.
  unfold normalize. destruct (Qle_bool (qsum (table f)) 0) eqn:Hle; [discriminate|].
  intros [= <-]. simpl.
  assert (¬ qsum (table f) == 0) as Hne.
  { intros H0. apply not_true_iff_false in Hle. apply Hle.
    apply Qle_bool_iff. rewrite H0. apply Qle_refl. }
  rewrite qsum_eq, fold_sum_div by exact Hne.
  rewrite <- qsum_eq. field. exact Hne.
Qed.

(** Whatever a query returns is a normalized distribution. *)
Lemma query_sum_one engine variables evid p :
  query engine variables evid = Ok p → qsum p == 1.
Proof.
  unfold query.
  destruct (existsb _ variables); [discriminate|].
  destruct (negb _); [discriminate|].
  destruct (existsb _ (map_to_list evid)); [discriminate|].
  destruct (foldR reduce_all _ _) as [reduced|]; [|discriminate].
  destruct (foldR eliminate _ _) as [[|f rest]|]; [discriminate | | discriminate].
  destruct (normalize _) as [g|] eqn:Hnorm; [|discriminate].
  intros [= <-]. by eapply normalize_sum.
Qed.

Lemma wf_factorb_sound net f :
  wf_factorb net f = true →
  wf_factor net f ∧ ∀ x, x ∈ name <$> scope f → x ∈ nodes net.
Proof.
  unfold wf_factorb. rewrite !andb_true_iff.
  intros [[[Hsc Hnd] Hlen] Hpos].
  rewrite forallb_forall in Hsc.
  assert (∀ v, v ∈ scope f →
            card_of net (name v) = Some (cardinality v)
            ∧ (0 < cardinality v)%nat ∧ name v ∈ nodes net) as Hv.
  { intros v Hin. apply list_elem_of_In, Hsc in Hin.
    rewrite !andb_true_iff in Hin. destruct Hin as [[H1 H2] H3].
    apply bool_decide_eq_true in H1, H3. apply Nat.ltb_lt in H2. done. }
  split; [split|].
  - intros v Hin. destruct (Hv v Hin) as (? & ? & _). done.
  - by apply bool_decide_eq_true in Hnd.
  - by apply Nat.eqb_eq in Hlen.
  - apply Forall_forall. intros x Hx.
    rewrite forallb_forall in Hpos. apply Qltb_lt, Hpos, list_elem_of_In, Hx.
  - intros x Hx. apply list_elem_of_fmap in Hx as (v & -> & Hin).
    by destruct (Hv v Hin) as (_ & _ & ?).
Qed.

Lemma keys_of_evidence (evid : gmap string Z) k :
  k ∈ (map_to_list evid).*1 ↔ is_Some (evid !! k).
Proof.
  rewrite list_elem_of_fmap. split.
  - intros ([k' s] & -> & Hin). apply elem_of_map_to_list in Hin. by exists s.
  - intros [s Hs]. exists (k, s). split; [done|]. by apply elem_of_map_to_list.
Qed.

Lemma singleton_names (l : list string) t :
  NoDup l → t ∈ l → (∀ x, x ∈ l → x = t) → l = [t].
Proof.
  intros Hnd Ht Hall. destruct l as [|a l]; [by apply elem_of_nil in Ht|].
  rewrite (Hall a) by (by left). f_equal.
  destruct l as [|b l]; [done|]. exfalso.
  apply NoDup_cons in Hnd as [Hnd _]. apply Hnd.
  rewrite (Hall a), (Hall b); [by left | by right; left | by left].
Qed.

(** On a network whose CPDs are well-formed positive tables, a query for
    one variable under valid evidence that does not mention it returns
    one probability per state of the variable. *)
Lemma query_ok net t (evid : gmap string Z) c :
  network_ok net = true →
  valid_evidence net evid →
  t ∈ nodes net → card_of net t = Some c → evid !! t = None →
  ∃ p, query {| ve_model := net |} [t] evid = Ok p ∧ length p = c.
Proof.
  intros Hnet Hvalid Ht Hc Hnone. unfold query. simpl ve_model.
  (* the request passes the three checks *)
  assert (existsb (out_of_range net) (map_to_list evid) = false) as ->.
  { apply not_true_iff_false. intros Hex.
    apply existsb_exists in Hex as ([k s] & Hin & Hout).
    apply list_elem_of_In, elem_of_map_to_list in Hin.
    destruct (Hvalid k s Hin) as (_ & c' & Hc' & Hs).
    unfold out_of_range in Hout. simpl in Hout. rewrite Hc' in Hout.
    apply negb_true_iff, bool_decide_eq_false in Hout. done. }
  assert (forallb (known net) ([t] ++ (map_to_list evid).*1) = true) as ->.
  { apply forallb_forall. intros x Hx. apply list_elem_of_In in Hx.
    unfold known. apply andb_true_iff.
    apply elem_of_app in Hx as [Hx | Hx].
    - apply list_elem_of_singleton in Hx as ->.
      split; apply bool_decide_eq_true; [done | by rewrite Hc].
    - apply keys_of_evidence in Hx as [s Hs].
      destruct (Hvalid x s Hs) as (? & c' & Hc' & _).
      split; apply bool_decide_eq_true; [done | by rewrite Hc']. }
  assert (existsb (λ t, bool_decide (is_Some (evid !! t))) [t] = false) as ->.
  { simpl. rewrite Hnone. rewrite bool_decide_eq_false_2; [done|].
    by intros [? ?]. }
  simpl negb. cbv iota.
  (* the factors stay well-formed *)
  unfold network_ok in Hnet. rewrite forallb_forall in Hnet.
  assert (Forall (wf_factor net) (cpd_factor <$> cpds net)) as Hwf0.
  { apply Forall_forall. intros f Hf.
    by apply wf_factorb_sound, Hnet, list_elem_of_In. }
  assert (∀ x, mentions (cpd_factor <$> cpds net) x → x ∈ nodes net) as Hnodes.
  { intros x (f & Hf & Hx).
    by apply (wf_factorb_sound net f); [apply Hnet, list_elem_of_In|]. }
  assert (mentions (cpd_factor <$> cpds net) t) as Hmt.
  { unfold card_of, get_cpds in Hc.
    destruct (find _ (cpds net)) as [cpd|] eqn:Hfind; [|discriminate].
    apply find_some in Hfind as [Hin Hvar].
    apply bool_decide_eq_true in Hvar.
    exists (cpd_factor cpd). split.
    - apply list_elem_of_fmap_2, list_elem_of_In, Hin.
    - simpl. rewrite Hvar. by left. }
  destruct (reduce_evidence_ok net (map_to_list evid) _ Hwf0)
    as (fs1 & -> & Hwf1 & Hm1).
  { intros k s Hin. apply elem_of_map_to_list in Hin.
    destruct (Hvalid k s Hin) as (_ & c' & ? & ?). eauto. }
  set (order := filter _ (nodes net)).
  destruct (eliminate_order_ok net order fs1 Hwf1) as (fs2 & -> & Hwf2 & Hm2).
  assert (∀ x, mentions fs2 x ↔ x = t) as Honly.
  { intros x. rewrite Hm2, Hm1, keys_of_evidence. split.
    - intros [[Hx Hev] Hord].
      destruct (decide (x = t)) as [|Hne]; [done|]. exfalso. apply Hord.
      apply list_elem_of_filter. split; [|by apply Hnodes].
      split; [by rewrite list_elem_of_singleton|].
      by apply eq_None_not_Some.
    - intros ->. split; [split; [done|]|].
      + rewrite Hnone. by intros [? ?].
      + intros Hin. apply list_elem_of_filter in Hin as [[Hin _] _].
        apply Hin. by left. }
  destruct fs2 as [|f rest].
  { exfalso. apply (mentions_nil t). by apply Honly. }
  apply Forall_cons in Hwf2 as [Hf Hrest].
  destruct (product_all_wf net rest f Hf Hrest) as [Hprod Hpn].
  destruct (normalize_ok net _ Hprod) as (g & -> & Hlen).
  exists (table g). split; [done|]. rewrite Hlen.
  (* what remains is a table over the target alone *)
  assert (name <$> scope (product_all f rest) = [t]) as Hscope.
  { apply singleton_names; [apply (wf_nodup _ _ Hprod) | |].
    - apply Hpn, mentions_cons, Honly. done.
    - intros x Hx. apply Honly, mentions_cons, Hpn, Hx. }
  destruct (scope (product_all f rest)) as [|v [|w sc]] eqn:Hsc;
    [discriminate | | discriminate].
  injection Hscope as Hname.
  destruct (wf_consistent _ _ Hprod v) as [Hcard _]; [rewrite Hsc; by left|].
  rewrite Hname, Hc in Hcard. injection Hcard as ->. simpl. lia.
Qed.

(* ================================================================= *)
(** ** The declared network is well-formed *)

Lemma network_ok_the_network : network_ok the_network = true.
Proof. vm_compute. reflexivity. Qed.

(** The state lists of [get_variable_info] agree with the cardinalities
    the CPDs declare. *)
Lemma node_card_info v :
  v ∈ nodes the_network →
  ∃ info, get_variable_info !! v = Some info
          ∧ card_of the_network v = Some (length (states info))
          ∧ (2 ≤ length (states info))%nat.
Proof.
  rewrite nodes_of_network. intros Hv.
  repeat (apply elem_of_cons in Hv as [-> | Hv];
          [eexists; split; [vm_compute; reflexivity|];
           split; [vm_compute; reflexivity | simpl; lia]|]).
  by apply elem_of_nil in Hv.
Qed.

Lemma query_ok_singleton t (evid : gmap string Z) :
  valid_evidence the_network evid → t ∈ nodes the_network → evid !! t = None →
  ∃ p c, query the_engine [t] evid = Ok p
         ∧ card_of the_network t = Some c ∧ length p = c ∧ (2 ≤ c)%nat.
Proof.
  intros Hvalid Ht Hnone.
  destruct (node_card_info t Ht) as (info & _ & Hc & Htwo).
  destruct (query_ok the_network t evid _ network_ok_the_network
              Hvalid Ht Hc Hnone) as (p & Hq & Hlen).
  exists p, (length (states info)).
  split; [exact Hq|]. split; [exact Hc|]. split; [exact Hlen | exact Htwo].
Qed.

(* ================================================================= *)
(** ** Contamination risk *)

(** Claim C1.  For every evidence mapping whose keys name variables of
    the network other than Contamination and whose values are in-range
    state indices, [predict_contamination_risk] returns a result, leaves
    the object as it was, and the [safe_probability] and
    [contamination_probability] of the result sum to 1 (exactly in this
    model, hence within 1e-9): the query result is normalized. *)
Theorem predict_contamination_risk_normalized (evid : gmap string Z) :
  (∀ k s, evid !! k = Some s →
     k ∈ nodes the_network ∧ k ≠ "Contamination"%string
     ∧ ∃ c, card_of the_network k = Some c ∧ (0 ≤ s < Z.of_nat c)%Z) →
  ∃ r, predict_contamination_risk evid bayesian_model = (Ok r, bayesian_model)
       ∧ safe_probability r + contamination_probability r == 1
       ∧ Qabs (safe_probability r + contamination_probability r - 1) <= 1e-9.
Proof.
  intros Hev.
  assert (valid_evidence the_network evid) as Hvalid.
  { intros k s Hk. destruct (Hev k s Hk) as (? & _ & ?). done. }
  assert (evid !! "Contamination"%string = None) as Hnone.
  { destruct (evid !! "Contamination"%string) as [s|] eqn:Hs; [|done].
    destruct (Hev _ s Hs) as (_ & Hne & _). done. }
  destruct (query_ok_singleton "Contamination" evid Hvalid) as (p & c & Hq & Hc & Hlen & _);
    [in_nodes | done |].
  assert (c = 2%nat) as -> by (vm_compute in Hc; congruence).
  destruct p as [|p0 [|p1 [|p2 p]]]; try discriminate Hlen.
  pose proof (query_sum_one _ _ _ _ Hq) as Hsum.
  rewrite qsum_eq in Hsum. simpl in Hsum. rewrite Qplus_0_r in Hsum.
  eexists. split.
  - unfold predict_contamination_risk, mbind, M_bind.
    rewrite engine_query_singleton, Hq. reflexivity.
  - cbn [safe_probability contamination_probability].
    split; [exact Hsum|]. by apply within_tolerance.
Qed.

Lemma predict_contamination_risk_normalized_witness :
  ∃ r, predict_contamination_risk
         (<["Rainfall"%string := 2%Z]> {[ "Turbidity"%string := 1%Z ]})
         bayesian_model = (Ok r, bayesian_model)
       ∧ safe_probability r + contamination_probability r == 1
       ∧ Qabs (safe_probability r + contamination_probability r - 1) <= 1e-9.
Proof.
  apply predict_contamination_risk_normalized.
  intros k s Hk.
  apply lookup_insert_Some in Hk as [[<- <-] | [_ Hk]].
  - split; [in_nodes|].
    split; [discriminate|]. exists 3%nat. split; [vm_compute; reflexivity | lia].
  - apply lookup_singleton_Some in Hk as [<- <-].
    split; [in_nodes|].
    split; [discriminate|]. exists 3%nat. split; [vm_compute; reflexivity | lia].
Defined.

(** An observation that passes the checks of [ObservationInput] gives
    valid evidence that does not mention the target: the request layer
    never hands an out-of-range state to the model. *)
Lemma set_if_present_lookup key v (evid : gmap string Z) k s :
  set_if_present key v evid !! k = Some s →
  (k = key ∧ v = Some s) ∨ evid !! k = Some s.
Proof.
  unfold set_if_present. destruct v as [x|]; [|by right].
  intros H. apply lookup_insert_Some in H as [[<- <-] | [_ H]]; [by left | by right].
Qed.

Lemma field_ok_range lo hi x : field_ok lo hi (Some x) = true → (lo ≤ x ≤ hi)%Z.
Proof. apply bool_decide_eq_true. Qed.

Lemma observation_evidence_valid o :
  observation_ok o = true →
  valid_evidence the_network (observation_evidence o)
  ∧ observation_evidence o !! "Contamination"%string = None.
Proof.
  unfold observation_ok. rewrite !andb_true_iff.
  intros [[[[Hr Ht] Hs] Hl] _].
  assert (∀ k s, observation_evidence o !! k = Some s →
            (k = "Latrine_Dist"%string ∧ latrine_distance o = Some s)
            ∨ (k = "Surface_Runoff"%string ∧ surface_runoff o = Some s)
            ∨ (k = "Turbidity"%string ∧ turbidity o = Some s)
            ∨ (k = "Rainfall"%string ∧ rainfall o = Some s)) as Hcases.
  { intros k s Hk. unfold observation_evidence in Hk.
    apply set_if_present_lookup in Hk as [? | Hk]; [tauto|].
    apply set_if_present_lookup in Hk as [? | Hk]; [tauto|].
    apply set_if_present_lookup in Hk as [? | Hk]; [tauto|].
    apply set_if_present_lookup in Hk as [? | Hk]; [tauto|].
    by rewrite lookup_empty in Hk. }
  split.
  - intros k s Hk.
    destruct (Hcases k s Hk) as [[-> Hv] | [[-> Hv] | [[-> Hv] | [-> Hv]]]].
    + rewrite Hv in Hl. apply field_ok_range in Hl.
      split; [in_nodes|]. exists 2%nat. split; [reflexivity | lia].
    + rewrite Hv in Hs. apply field_ok_range in Hs.
      split; [in_nodes|]. exists 2%nat. split; [reflexivity | lia].
    + rewrite Hv in Ht. apply field_ok_range in Ht.
      split; [in_nodes|]. exists 3%nat. split; [reflexivity | lia].
    + rewrite Hv in Hr. apply field_ok_range in Hr.
      split; [in_nodes|]. exists 3%nat. split; [reflexivity | lia].
  - destruct (observation_evidence o !! "Contamination"%string) as [s|] eqn:Hk;
      [|reflexivity].
    destruct (Hcases _ s Hk) as [[? _] | [[? _] | [[? _] | [? _]]]]; discriminate.
Qed.

(* ================================================================= *)
(** ** The first maximum *)



(* ================================================================= *)
(** ** Most likely scenario *)

(** The loop of [get_most_likely_scenario], for any query of the engine
    that answers the listed variables and leaves the object as it is. *)
Lemma scenario_loop_with (q : list string → gmap string Z → M (list Q))
    (evid : gmap string Z) self (l : list string) :
  ∀ acc : gmap string nat,
  (∀ v, v ∈ l → ∃ p i, q [v] evid self = (Ok p, self) ∧ argmax p = Ok i) →
  ∃ m,
    foldM (λ results var,
             query_result ← q [var] evid;
             most_probable_state ← lift (argmax query_result);
             mret (<[var := most_probable_state]> results))
          l acc self = (Ok m, self)
    ∧ (∀ v, v ∈ l → ∃ p i, q [v] evid self = (Ok p, self)
                           ∧ argmax p = Ok i ∧ m !! v = Some i)
    ∧ (∀ v, v ∉ l → m !! v = acc !! v).
Proof.
  induction l as [|v l IH]; intros acc Hq.
  - exists acc. split; [reflexivity|]. split; [|reflexivity].
    intros v Hv. by apply elem_of_nil in Hv.
  - destruct (Hq v) as (p & i & Hp & Hi); [by left|].
    destruct (IH (<[v := i]> acc)) as (m & Hrun & Hin & Hout).
    { intros w Hw. apply Hq. by right. }
    exists m. split; [|split].
    + cbn [foldM]. unfold mbind at 1, M_bind at 1.
      unfold mbind at 1, M_bind at 1. rewrite Hp.
      unfold mbind at 1, M_bind at 1. unfold lift at 1. rewrite Hi.
      unfold mret at 1, M_ret at 1. exact Hrun.
    + intros w Hw. destruct (decide (w ∈ l)) as [Hl | Hl]; [by apply Hin|].
      apply elem_of_cons in Hw as [-> | Hw]; [|by destruct Hl].
      exists p, i. split; [exact Hp|]. split; [exact Hi|].
      rewrite Hout by exact Hl. apply lookup_insert_eq.
    + intros w Hw. apply not_elem_of_cons in Hw as [Hne Hw].
      rewrite Hout by exact Hw. by apply lookup_insert_ne.
Qed.

Lemma scenario_loop (evid : gmap string Z) (l : list string) :
  ∀ acc : gmap string nat,
  (∀ v, v ∈ l → ∃ p i, query the_engine [v] evid = Ok p ∧ argmax p = Ok i) →
  ∃ m,
    foldM (λ results var,
             query_result ← engine_query [var] evid;
             most_probable_state ← lift (argmax query_result);
             mret (<[var := most_probable_state]> results))
          l acc bayesian_model = (Ok m, bayesian_model)
    ∧ (∀ v, v ∈ l → ∃ p i, query the_engine [v] evid = Ok p
                           ∧ argmax p = Ok i ∧ m !! v = Some i)
    ∧ (∀ v, v ∉ l → m !! v = acc !! v).
Proof.
  intros acc Hq.
  destruct (scenario_loop_with engine_query evid bayesian_model l acc)
    as (m & Hrun & Hin & Hout).
  { intros v Hv. destruct (Hq v Hv) as (p & i & Hp & Hi). exists p, i.
    split; [|exact Hi]. rewrite engine_query_singleton. by rewrite Hp. }
  exists m. split; [exact Hrun|]. split; [|exact Hout].
  intros v Hv. destruct (Hin v Hv) as (p & i & Hp & Hi & Hm).
  rewrite engine_query_singleton in Hp. exists p, i.
  split; [congruence|]. split; [exact Hi | exact Hm].
Qed.




(* ================================================================= *)
(** ** Running methods *)

Lemma bind_run {A B} (m : M A) (k : A → M B) self a self1 :
  m self = (Ok a, self1) → (m ≫= k) self = k a self1.
Proof. intros H. unfold mbind, M_bind. by rewrite H. Qed.

Lemma bind_inv {A B} (m : M A) (k : A → M B) self b self' :
  (m ≫= k) self = (Ok b, self') →
  ∃ a self1, m self = (Ok a, self1) ∧ k a self1 = (Ok b, self').
Proof.
  unfold mbind, M_bind. destruct (m self) as [[a | e] self1]; [|discriminate].
  intros H. by exists a, self1.
Qed.

Lemma ret_inv {A} (a b : A) self self' :
  (mret a : M A) self = (Ok b, self') → b = a ∧ self' = self.
Proof. unfold mret, M_ret. by intros [= -> ->]. Qed.

Lemma lift_inv {A} (r : result A) self a self' :
  lift r self = (Ok a, self') → r = Ok a ∧ self' = self.
Proof. unfold lift. by intros [= -> ->]. Qed.

(* ================================================================= *)
(** ** Python's [max] *)

Lemma py_max_cons x y xs :
  py_max x (y :: xs) = py_max (if Qltb x y then y else x) xs.
Proof. reflexivity. Qed.

Lemma py_max_in xs : ∀ x, py_max x xs ∈ x :: xs.
Proof.
  induction xs as [|y xs IH]; intros x; [by left|].
  rewrite py_max_cons. specialize (IH (if Qltb x y then y else x)).
  apply elem_of_cons in IH as [-> | IH].
  - destruct (Qltb x y); [right; by left | by left].
  - right. by right.
Qed.

Lemma py_max_ge_first xs : ∀ x, x <= py_max x xs.
Proof.
  induction xs as [|y xs IH]; intros x; [apply Qle_refl|].
  rewrite py_max_cons. destruct (Qltb x y) eqn:Hlt; [|apply IH].
  apply Qltb_lt in Hlt. eapply Qle_trans; [by apply Qlt_le_weak | apply IH].
Qed.

Lemma py_max_ge xs : ∀ x y, y ∈ x :: xs → y <= py_max x xs.
Proof.
  induction xs as [|z xs IH]; intros x y Hy.
  - apply list_elem_of_singleton in Hy as ->. apply Qle_refl.
  - rewrite py_max_cons. apply elem_of_cons in Hy as [-> | Hy].
    + destruct (Qltb x z) eqn:Hlt; [|apply py_max_ge_first].
      apply Qltb_lt in Hlt.
      eapply Qle_trans; [by apply Qlt_le_weak | apply py_max_ge_first].
    + apply elem_of_cons in Hy as [-> | Hy].
      * destruct (Qltb x z) eqn:Hlt; [apply py_max_ge_first|].
        apply Qltb_ge in Hlt. eapply Qle_trans; [exact Hlt | apply py_max_ge_first].
      * apply IH. by right.
Qed.

Lemma score_of_impacts_nonneg impacts :
  Forall (λ x, 0 <= x) impacts → 0 <= score_of_impacts impacts.
Proof.
  intros Hall. destruct impacts as [|x xs]; [apply Qle_refl|]. simpl.
  by apply (proj1 (Forall_forall _ _) Hall), py_max_in.
Qed.

(* ================================================================= *)
(** ** Scores are never negative *)

Lemma flip_loop_nonneg target var s0 base l : ∀ acc self r self',
  foldM (flip_state target var s0 base) l acc self = (Ok r, self') →
  Forall (λ x, 0 <= x) acc.2 → Forall (λ x, 0 <= x) r.2.
Proof.
  induction l as [|s l IH]; intros acc self r self' Hrun Hacc.
  - injection Hrun as <- _. exact Hacc.
  - cbn [foldM] in Hrun. apply bind_inv in Hrun as (acc1 & self1 & Hstep & Hrun).
    apply (IH _ _ _ _ Hrun). unfold flip_state in Hstep.
    case_bool_decide.
    + apply bind_inv in Hstep as (res & self2 & _ & Hstep).
      apply bind_inv in Hstep as (p & self3 & _ & Hstep).
      apply ret_inv in Hstep as [-> _]. cbn [snd].
      apply Forall_app. split; [exact Hacc|].
      constructor; [apply Qabs_nonneg | constructor].
    + apply ret_inv in Hstep as [-> _]. exact Hacc.
Qed.

Lemma score_loop_nonneg target (evid : gmap string Z) base l :
  ∀ (acc : gmap string Q) self m self',
  foldM (score_variable target evid base) l acc self = (Ok m, self') →
  map_Forall (λ _ x, 0 <= x) acc → map_Forall (λ _ x, 0 <= x) m.
Proof.
  induction l as [|v l IH]; intros acc self m self' Hrun Hacc.
  - injection Hrun as <- _. exact Hacc.
  - cbn [foldM] in Hrun. apply bind_inv in Hrun as (acc1 & self1 & Hstep & Hrun).
    apply (IH _ _ _ _ Hrun). unfold score_variable in Hstep.
    apply bind_inv in Hstep as (s0 & self2 & _ & Hstep).
    apply bind_inv in Hstep as (info & self3 & _ & Hstep).
    apply bind_inv in Hstep as (r & self4 & Hflip & Hstep).
    apply ret_inv in Hstep as [-> _].
    apply map_Forall_insert_2; [|exact Hacc].
    apply (score_of_impacts_nonneg r.2).
    apply (flip_loop_nonneg _ _ _ _ _ _ _ _ _ Hflip). constructor.
Qed.

Lemma sensitivity_analysis_nonneg target (evid : gmap string Z) self m self' :
  sensitivity_analysis target evid self = (Ok m, self') →
  ∀ v score, m !! v = Some score → 0 <= score.
Proof.
  unfold sensitivity_analysis. intros Hrun.
  apply bind_inv in Hrun as (res & self1 & _ & Hrun).
  apply bind_inv in Hrun as (base & self2 & _ & Hrun).
  apply score_loop_nonneg in Hrun; [|apply map_Forall_empty].
  intros v score Hv. by apply (Hrun v).
Qed.

(* ================================================================= *)
(** ** Sensitivity analysis *)

Lemma valid_evidence_insert net (evid : gmap string Z) k (s : Z) c :
  valid_evidence net evid → k ∈ nodes net → card_of net k = Some c →
  (0 ≤ s < Z.of_nat c)%Z → valid_evidence net (<[k := s]> evid).
Proof.
  intros Hvalid Hk Hc Hs k' s' Hlook.
  apply lookup_insert_Some in Hlook as [[<- <-] | [_ Hlook]].
  - split; [exact Hk|]. exists c. by split.
  - by apply Hvalid.
Qed.

Lemma state1_probability_ok target (evid : gmap string Z) :
  valid_evidence the_network evid → target ∈ nodes the_network →
  evid !! target = None →
  ∃ res p, query the_engine [target] evid = Ok res ∧ getitem res 1 = Ok p
           ∧ state1_probability the_engine target evid = Ok p.
Proof.
  intros Hvalid Ht Hnone.
  destruct (query_ok_singleton target evid Hvalid Ht Hnone)
    as (res & c & Hq & _ & Hlen & Htwo).
  destruct res as [|p0 [|p1 res]]; [simpl in Hlen; lia | simpl in Hlen; lia |].
  exists (p0 :: p1 :: res), p1. unfold state1_probability. rewrite Hq.
  split; [reflexivity|]. split; reflexivity.
Qed.

Lemma state1_or_zero_ok engine target (evid : gmap string Z) p :
  state1_probability engine target evid = Ok p →
  state1_or_zero engine target evid = p.
Proof. unfold state1_or_zero. by intros ->. Qed.

Lemma state1_probability_inv engine target (evid : gmap string Z) p :
  state1_probability engine target evid = Ok p →
  ∃ res, query engine [target] evid = Ok res ∧ getitem res 1 = Ok p.
Proof.
  unfold state1_probability.
  destruct (query engine [target] evid) as [res|]; [|discriminate].
  intros H. by exists res.
Qed.

Lemma flip_state_skip target var (s0 : Z) base acc (s : nat) self :
  ¬ Z.of_nat s ≠ s0 →
  flip_state target var s0 base acc s self = (Ok acc, self).
Proof.
  intros Hs. unfold flip_state. by rewrite bool_decide_eq_false_2 by exact Hs.
Qed.

Lemma flip_state_run target var (s0 : Z) base acc (s : nat) p :
  Z.of_nat s ≠ s0 →
  state1_probability the_engine target (<[var := Z.of_nat s]> acc.1) = Ok p →
  flip_state target var s0 base acc s bayesian_model
  = (Ok (<[var := Z.of_nat s]> acc.1, acc.2 ++ [Qabs (p - base)]), bayesian_model).
Proof.
  intros Hs Hp. unfold flip_state. rewrite bool_decide_eq_true_2 by exact Hs.
  apply state1_probability_inv in Hp as (res & Hres & Hget).
  rewrite (bind_run _ _ _ res bayesian_model);
    [|rewrite engine_query_singleton; by rewrite Hres].
  rewrite (bind_run _ _ _ p bayesian_model);
    [reflexivity | unfold lift; by rewrite Hget].
Qed.

(** The inner loop collects one impact per alternative state, in order;
    the working copy only ever differs from the evidence at [var]. *)
Lemma flip_loop target var (s0 : Z) base (evid : gmap string Z) l :
  ∀ temp impacts,
  (∀ z : Z, <[var := z]> temp = <[var := z]> evid) →
  (∀ s : nat, s ∈ l → Z.of_nat s ≠ s0 →
     ∃ p, state1_probability the_engine target (<[var := Z.of_nat s]> evid) = Ok p) →
  ∃ temp',
    foldM (flip_state target var s0 base) l (temp, impacts) bayesian_model
    = (Ok (temp',
           impacts
           ++ ((λ s, Qabs (state1_or_zero the_engine target
                             (<[var := Z.of_nat s]> evid) - base))
                 <$> filter (λ s, Z.of_nat s ≠ s0) l)),
       bayesian_model).
Proof.
  induction l as [|s l IH]; intros temp impacts Htemp Hq.
  - exists temp. simpl. by rewrite app_nil_r.
  - cbn [foldM]. destruct (decide (Z.of_nat s ≠ s0)) as [Hs | Hs].
    + rewrite filter_cons_True by exact Hs.
      destruct (Hq s) as (p & Hp); [by left | exact Hs |].
      pose proof (state1_or_zero_ok _ _ _ _ Hp) as Hz.
      destruct (IH (<[var := Z.of_nat s]> evid)
                   (impacts ++ [Qabs (p - base)])) as (temp' & Hrun).
      { intros z. apply insert_insert_eq. }
      { intros s' Hs' Hne. apply Hq; [by right | exact Hne]. }
      exists temp'.
      rewrite (bind_run _ _ _ (<[var := Z.of_nat s]> evid, impacts ++ [Qabs (p - base)])
                 bayesian_model).
      * rewrite Hrun. rewrite fmap_cons, Hz, <- app_assoc. reflexivity.
      * rewrite (flip_state_run target var s0 base (temp, impacts) s p Hs).
        -- cbn [fst snd]. by rewrite Htemp.
        -- cbn [fst]. by rewrite Htemp.
    + rewrite filter_cons_False by exact Hs.
      destruct (IH temp impacts Htemp) as (temp' & Hrun).
      { intros s' Hs' Hne. apply Hq; [by right | exact Hne]. }
      exists temp'. rewrite (bind_run _ _ _ (temp, impacts) bayesian_model);
        [exact Hrun | by apply flip_state_skip].
Qed.

Lemma score_variable_run target (evid : gmap string Z) base acc var s0 info :
  evid !! var = Some s0 →
  get_variable_info !! var = Some info →
  (∀ s : nat, (s < length (states info))%nat → Z.of_nat s ≠ s0 →
     ∃ p, state1_probability the_engine target (<[var := Z.of_nat s]> evid) = Ok p) →
  score_variable target evid base acc var bayesian_model
  = (Ok (<[var := score_of_impacts
                    (impacts_of the_engine target evid var s0 base
                       (length (states info)))]> acc),
     bayesian_model).
Proof.
  intros Hs0 Hinfo Hq. unfold score_variable.
  rewrite (bind_run _ _ _ s0 bayesian_model); [|unfold lift; by rewrite Hs0].
  rewrite (bind_run _ _ _ info bayesian_model); [|unfold lift; by rewrite Hinfo].
  destruct (flip_loop target var s0 base evid (seq 0 (length (states info)))
              evid []) as (temp' & Hrun).
  { done. }
  { intros s Hs Hne. apply Hq; [|done]. apply elem_of_seq in Hs. lia. }
  rewrite (bind_run _ _ _ _ bayesian_model Hrun). reflexivity.
Qed.

Lemma score_loop target (evid : gmap string Z) base (l : list string) :
  ∀ acc : gmap string Q,
  (∀ v, v ∈ l →
     ∃ s0 info, evid !! v = Some s0 ∧ get_variable_info !! v = Some info
       ∧ ∀ s : nat, (s < length (states info))%nat → Z.of_nat s ≠ s0 →
           ∃ p, state1_probability the_engine target (<[v := Z.of_nat s]> evid) = Ok p) →
  ∃ m,
    foldM (score_variable target evid base) l acc bayesian_model
    = (Ok m, bayesian_model)
    ∧ (∀ v, v ∈ l →
         ∃ s0 info, evid !! v = Some s0 ∧ get_variable_info !! v = Some info
           ∧ m !! v = Some (score_of_impacts
                              (impacts_of the_engine target evid v s0 base
                                 (length (states info)))))
    ∧ (∀ v, v ∉ l → m !! v = acc !! v).
Proof.
  induction l as [|v l IH]; intros acc Hq.
  - exists acc. split; [reflexivity|]. split; [|reflexivity].
    intros v Hv. by apply elem_of_nil in Hv.
  - destruct (Hq v) as (s0 & info & Hs0 & Hinfo & Halt); [by left|].
    pose proof (score_variable_run target evid base acc v s0 info Hs0 Hinfo Halt)
      as Hstep.
    destruct (IH (<[v := score_of_impacts
                           (impacts_of the_engine target evid v s0 base
                              (length (states info)))]> acc))
      as (m & Hrun & Hin & Hout).
    { intros w Hw. apply Hq. by right. }
    exists m. split; [|split].
    + cbn [foldM]. rewrite (bind_run _ _ _ _ _ Hstep). exact Hrun.
    + intros w Hw. destruct (decide (w ∈ l)) as [Hl | Hl]; [by apply Hin|].
      apply elem_of_cons in Hw as [-> | Hw]; [|contradiction].
      exists s0, info. split; [exact Hs0|]. split; [exact Hinfo|].
      rewrite Hout by exact Hl. apply lookup_insert_eq.
    + intros w Hw. apply not_elem_of_cons in Hw as [Hne Hw].
      rewrite Hout by exact Hw. by apply lookup_insert_ne.
Qed.

(** What [sensitivity_analysis] returns on valid evidence. *)
Lemma sensitivity_analysis_run target (evid : gmap string Z) :
  valid_evidence the_network evid → target ∈ nodes the_network →
  evid !! target = None →
  ∃ base m,
    state1_probability the_engine target evid = Ok base
    ∧ sensitivity_analysis target evid bayesian_model = (Ok m, bayesian_model)
    ∧ (∀ v, m !! v = None ↔ evid !! v = None)
    ∧ ∀ v s0, evid !! v = Some s0 →
        ∃ n, card_of the_network v = Some n ∧ (2 ≤ n)%nat
          ∧ m !! v = Some (score_of_impacts
                             (impacts_of the_engine target evid v s0 base n))
          ∧ ∀ s : nat, (s < n)%nat →
              ∃ p, state1_probability the_engine target
                     (<[v := Z.of_nat s]> evid) = Ok p.
Proof.
  intros Hvalid Ht Hnone.
  destruct (state1_probability_ok target evid Hvalid Ht Hnone)
    as (res & base & Hres & Hget & Hbase).
  assert (∀ v s0, evid !! v = Some s0 →
            ∃ info, get_variable_info !! v = Some info
              ∧ card_of the_network v = Some (length (states info))
              ∧ (2 ≤ length (states info))%nat
              ∧ ∀ s : nat, (s < length (states info))%nat →
                  ∃ p, state1_probability the_engine target
                         (<[v := Z.of_nat s]> evid) = Ok p) as Halt.
  { intros v s0 Hv. destruct (Hvalid v s0 Hv) as (Hnode & _).
    destruct (node_card_info v Hnode) as (info & Hinfo & Hcard & Htwo).
    exists info. split; [exact Hinfo|]. split; [exact Hcard|].
    split; [exact Htwo|]. intros s Hs.
    destruct (state1_probability_ok target (<[v := Z.of_nat s]> evid))
      as (_ & p & _ & _ & Hp).
    - apply (valid_evidence_insert _ _ _ _ (length (states info)));
        [exact Hvalid | exact Hnode | exact Hcard | lia].
    - exact Ht.
    - rewrite lookup_insert_ne; [exact Hnone|]. intros ->. congruence.
    - by exists p. }
  destruct (score_loop target evid base ((map_to_list evid).*1) ∅)
    as (m & Hrun & Hin & Hout).
  { intros v Hv. apply keys_of_evidence in Hv as [s0 Hs0].
    destruct (Halt v s0 Hs0) as (info & Hinfo & _ & _ & Hp).
    exists s0, info. split; [exact Hs0|]. split; [exact Hinfo|].
    intros s Hs _. by apply Hp. }
  exists base, m. split; [exact Hbase|]. split; [|split].
  - unfold sensitivity_analysis.
    rewrite (bind_run _ _ _ res bayesian_model);
      [|rewrite engine_query_singleton; by rewrite Hres].
    rewrite (bind_run _ _ _ base bayesian_model);
      [exact Hrun | unfold lift; by rewrite Hget].
  - intros v. destruct (evid !! v) as [s0|] eqn:Hv.
    + destruct (Hin v) as (s0' & info & _ & _ & Hm).
      { apply keys_of_evidence. by exists s0. }
      rewrite Hm. split; discriminate.
    + rewrite Hout, lookup_empty; [tauto|].
      intros Hk. apply keys_of_evidence in Hk as [? Hk]. congruence.
  - intros v s0 Hv.
    destruct (Halt v s0 Hv) as (info & Hinfo & Hcard & Htwo & Hp).
    exists (length (states info)). split; [exact Hcard|]. split; [exact Htwo|].
    split; [|exact Hp].
    destruct (Hin v) as (s0' & info' & Hs0' & Hinfo' & Hm).
    { apply keys_of_evidence. by exists s0. }
    rewrite Hv in Hs0'. injection Hs0' as <-.
    rewrite Hinfo in Hinfo'. injection Hinfo' as <-. exact Hm.
Qed.

(** The score computed from the collected impacts is their maximum. *)
Lemma score_is_max target (evid : gmap string Z) var (s0 : Z) n base :
  (2 ≤ n)%nat →
  (∀ s : nat, (s < n)%nat →
     ∃ p, state1_probability the_engine target (<[var := Z.of_nat s]> evid) = Ok p) →
  is_max_impact the_engine target evid var s0 n base
    (score_of_impacts (impacts_of the_engine target evid var s0 base n)).
Proof.
  intros Htwo Hq. unfold impacts_of.
  set (F := λ s : nat, Qabs (state1_or_zero the_engine target
                               (<[var := Z.of_nat s]> evid) - base)).
  set (alts := filter (λ s : nat, Z.of_nat s ≠ s0) (seq 0 n)).
  assert (∀ s, s ∈ alts ↔ (s < n)%nat ∧ Z.of_nat s ≠ s0) as Halts.
  { intros s. unfold alts. rewrite list_elem_of_filter, elem_of_seq. split.
    - intros [? ?]. split; [lia | done].
    - intros [? ?]. split; [done | lia]. }
  assert (∀ s p, state1_probability the_engine target
                   (<[var := Z.of_nat s]> evid) = Ok p → F s = Qabs (p - base))
    as HF.
  { intros s p Hp. unfold F. by rewrite (state1_or_zero_ok _ _ _ _ Hp). }
  assert (∃ s, s ∈ alts) as [a Ha].
  { destruct (decide (Z.of_nat 0 = s0)) as [H0 | H0].
    - exists 1%nat. apply Halts. split; [lia|]. rewrite <- H0. lia.
    - exists 0%nat. apply Halts. split; [lia | done]. }
  destruct (F <$> alts) as [|x xs] eqn:Himp.
  { apply fmap_nil_inv in Himp. rewrite Himp in Ha. by apply elem_of_nil in Ha. }
  cbn [score_of_impacts]. split.
  - intros s Hs Hne. destruct (Hq s Hs) as (p & Hp). exists p.
    split; [exact Hp|]. rewrite <- (HF s p Hp).
    apply py_max_ge. rewrite <- Himp. apply list_elem_of_fmap_2, Halts. done.
  - pose proof (py_max_in xs x) as Hin. rewrite <- Himp in Hin.
    apply list_elem_of_fmap in Hin as (s & Hscore & Hs).
    apply Halts in Hs as [Hs Hne]. destruct (Hq s Hs) as (p & Hp).
    exists s, p. split; [exact Hs|]. split; [exact Hne|]. split; [exact Hp|].
    rewrite Hscore, (HF s p Hp). reflexivity.
Qed.

(** Claim C2.  For every valid evidence mapping and every target variable
    of the network that the evidence does not fix, [sensitivity_analysis]
    returns a mapping whose keys are exactly the variables of the
    evidence.  The score of such a variable [v] is the maximum, over the
    states [s] of [v] other than [evidence[v]], of the absolute difference
    between the state-1 probability of the target under the evidence with
    [v] set to [s] and that probability under the original evidence: it
    bounds every such difference and is one of them.  It is 0 when no
    alternative state changes the probability. *)
Theorem sensitivity_analysis_max_impact target (evid : gmap string Z) :
  valid_evidence the_network evid → target ∈ nodes the_network →
  evid !! target = None →
  ∃ base m,
    sensitivity_analysis target evid bayesian_model = (Ok m, bayesian_model)
    ∧ state1_probability the_engine target evid = Ok base
    ∧ dom m = dom evid
    ∧ ∀ v s0, evid !! v = Some s0 →
        ∃ n score,
          card_of the_network v = Some n
          ∧ m !! v = Some score
          ∧ is_max_impact the_engine target evid v s0 n base score
          ∧ ((∀ (s : nat) p, (s < n)%nat → Z.of_nat s ≠ s0 →
                state1_probability the_engine target (<[v := Z.of_nat s]> evid) = Ok p →
                p == base) → score == 0).
Proof.
  intros Hvalid Ht Hnone.
  destruct (sensitivity_analysis_run target evid Hvalid Ht Hnone)
    as (base & m & Hbase & Hrun & Hdom & Hscore).
  exists base, m. split; [exact Hrun|]. split; [exact Hbase|]. split.
  - apply set_eq. intros v. rewrite !elem_of_dom, <- !not_eq_None_Some, Hdom.
    reflexivity.
  - intros v s0 Hv. destruct (Hscore v s0 Hv) as (n & Hcard & Htwo & Hm & Hq).
    pose proof (score_is_max target evid v s0 n base Htwo Hq) as Hmax.
    eexists n, _. split; [exact Hcard|]. split; [exact Hm|].
    split; [exact Hmax|]. intros Hsame.
    destruct Hmax as [_ (s & p & Hs & Hne & Hp & ->)].
    assert (p - base == 0) as H0 by (rewrite (Hsame s p Hs Hne Hp); ring).
    rewrite (Qabs_wd _ _ H0). reflexivity.
Qed.

Lemma sensitivity_analysis_max_impact_witness :
  ∃ base m,
    sensitivity_analysis "Contamination" {[ "Turbidity"%string := 2%Z ]} bayesian_model
    = (Ok m, bayesian_model)
    ∧ state1_probability the_engine "Contamination" {[ "Turbidity"%string := 2%Z ]}
      = Ok base
    ∧ dom m = dom ({[ "Turbidity"%string := 2%Z ]} : gmap string Z)
    ∧ ∀ v s0, ({[ "Turbidity"%string := 2%Z ]} : gmap string Z) !! v = Some s0 →
        ∃ n score,
          card_of the_network v = Some n
          ∧ m !! v = Some score
          ∧ is_max_impact the_engine "Contamination"
              {[ "Turbidity"%string := 2%Z ]} v s0 n base score
          ∧ ((∀ (s : nat) p, (s < n)%nat → Z.of_nat s ≠ s0 →
                state1_probability the_engine "Contamination"
                  (<[v := Z.of_nat s]> {[ "Turbidity"%string := 2%Z ]}) = Ok p →
                p == base) → score == 0).
Proof.
  apply sensitivity_analysis_max_impact.
  - intros k s Hk. apply lookup_singleton_Some in Hk as [<- <-].
    split; [in_nodes|]. exists 3%nat. split; [reflexivity | lia].
  - in_nodes.
  - reflexivity.
Defined.

(* ================================================================= *)
(** ** The pump variables do not influence contamination *)

(** Every mapping from some listed variables to their states is in the
    enumeration. *)
Lemma enum_evidence_complete vs : ∀ evid : gmap string Z,
  NoDup vs.*1 →
  (∀ k s, evid !! k = Some s →
     ∃ c, (k, c) ∈ vs ∧ (0 ≤ s < Z.of_nat c)%Z) →
  evid ∈ enum_evidence vs.
Proof.
  induction vs as [|[k0 c0] vs IH]; intros evid Hnd Hev.
  - assert (evid = ∅) as ->; [|by left].
    apply map_empty. intros k. destruct (evid !! k) as [s|] eqn:Hk; [|done].
    destruct (Hev k s Hk) as (c & Hin & _). by apply elem_of_nil in Hin.
  - simpl in Hnd. apply NoDup_cons in Hnd as [Hk0 Hnd].
    cbn [enum_evidence]. apply list_elem_of_bind. exists (delete k0 evid). split.
    + destruct (evid !! k0) as [s|] eqn:Hs.
      * apply elem_of_cons. right. destruct (Hev k0 s Hs) as (c & Hin & Hrange).
        apply elem_of_cons in Hin as [[= <-] | Hin].
        -- apply list_elem_of_fmap. exists (Z.to_nat s). split.
           ++ rewrite Z2Nat.id by lia. rewrite insert_delete_eq.
              symmetry. by apply insert_id.
           ++ apply elem_of_seq. lia.
        -- exfalso. apply Hk0. apply list_elem_of_fmap. by exists (k0, c).
      * apply elem_of_cons. left. symmetry. by apply delete_id.
    + apply IH; [exact Hnd|]. intros k s Hk.
      apply lookup_delete_Some in Hk as [Hne Hk].
      destruct (Hev k s Hk) as (c & Hin & Hrange). exists c. split; [|exact Hrange].
      apply elem_of_cons in Hin as [[= -> _] | Hin]; [done | exact Hin].
Qed.

Lemma pump_irrelevant_everywhere :
  forallb (pump_irrelevant the_engine) (enum_evidence evidence_cards) = true.
Proof. vm_cast_no_check (eq_refl true). Qed.

Lemma evidence_cards_complete (evid : gmap string Z) :
  valid_evidence the_network evid → evid !! "Contamination"%string = None →
  evid ∈ enum_evidence evidence_cards.
Proof.
  intros Hvalid Hnone. apply enum_evidence_complete.
  - apply (bool_decide_unpack _). vm_compute. exact I.
  - intros k s Hk. destruct (Hvalid k s Hk) as (Hnode & c & Hc & Hrange).
    exists c. split; [|exact Hrange].
    rewrite nodes_of_network in Hnode.
    repeat (apply elem_of_cons in Hnode as [-> | Hnode];
            [first [congruence
                   | vm_compute in Hc; injection Hc as <-; vm_compute; in_list]|]).
    by apply elem_of_nil in Hnode.
Qed.

Lemma pump_independent (evid : gmap string Z) :
  valid_evidence the_network evid → evid !! "Contamination"%string = None →
  ∃ p q, state1_probability the_engine "Contamination" evid = Ok p
         ∧ state1_probability the_engine "Contamination" (without_pump evid) = Ok q
         ∧ p == q.
Proof.
  intros Hvalid Hnone.
  pose proof pump_irrelevant_everywhere as Hall.
  rewrite forallb_forall in Hall.
  specialize (Hall evid (proj1 (list_elem_of_In _ _)
                           (evidence_cards_complete evid Hvalid Hnone))).
  unfold pump_irrelevant in Hall.
  destruct (state1_probability the_engine "Contamination" evid) as [p|];
    [|discriminate].
  destruct (state1_probability the_engine "Contamination" (without_pump evid))
    as [q|]; [|discriminate].
  exists p, q. split; [reflexivity|]. split; [reflexivity|].
  by apply Qeq_bool_iff.
Qed.

Lemma without_pump_insert (evid : gmap string Z) v (s : Z) :
  v = "Pump_Age"%string ∨ v = "Pump_Failure"%string →
  without_pump (<[v := s]> evid) = without_pump evid.
Proof.
  unfold without_pump. intros [-> | ->].
  - rewrite (delete_insert_ne evid) by discriminate.
    by rewrite delete_insert_eq.
  - by rewrite delete_insert_eq.
Qed.

(** Directed paths of the declared edges. *)
Lemma edge_cases u v :
  edge network_edges u v →
  (u, v) ∈ [ ("Rainfall", "Turbidity"); ("Rainfall", "Surface_Runoff");
             ("Turbidity", "Contamination"); ("Surface_Runoff", "Contamination");
             ("Latrine_Dist", "Contamination"); ("Pump_Age", "Pump_Failure") ]%string.
Proof. intros H. exact H. Qed.

Lemma no_edge_from_pump_failure v : ¬ edge network_edges "Pump_Failure" v.
Proof.
  intros H. apply edge_cases in H.
  repeat (apply elem_of_cons in H as [[=] | H]). by apply elem_of_nil in H.
Qed.

Lemma edge_from_pump_age v : edge network_edges "Pump_Age" v → v = "Pump_Failure"%string.
Proof.
  intros H. apply edge_cases in H.
  repeat (apply elem_of_cons in H as [[=] | H]); try done.
  by apply elem_of_nil in H.
Qed.

Lemma path_first es u v : path es u v → ∃ w, edge es u w.
Proof. unfold path. destruct 1 as [x y H | x y z H _]; by exists y. Qed.

Lemma no_path_from_pump u :
  u = "Pump_Age"%string ∨ u = "Pump_Failure"%string →
  ¬ path network_edges u "Contamination".
Proof.
  intros Hu Hpath. unfold path in Hpath.
  destruct Hu as [-> | ->].
  - inversion Hpath as [x y H | x y z H Hrest]; subst.
    + apply edge_from_pump_age in H. discriminate.
    + apply edge_from_pump_age in H. subst y.
      destruct (path_first _ _ _ Hrest) as (w & Hw).
      by apply no_edge_from_pump_failure in Hw.
  - destruct (path_first _ _ _ Hpath) as (w & Hw).
    by apply no_edge_from_pump_failure in Hw.
Qed.

(** The variables without a directed path to Contamination are the two
    pump variables. *)
Lemma no_path_is_pump v :
  v ∈ nodes the_network → v ≠ "Contamination"%string →
  ¬ path network_edges v "Contamination" →
  v = "Pump_Age"%string ∨ v = "Pump_Failure"%string.
Proof.
  rewrite nodes_of_network. intros Hv Hne Hno.
  repeat (apply elem_of_cons in Hv as [-> | Hv]); try (by auto); try done.
  - exfalso. apply Hno. unfold path.
    eapply tc_l; [|apply tc_once]; unfold edge, network_edges; in_list.
  - exfalso. apply Hno. apply tc_once. unfold edge, network_edges. in_list.
  - exfalso. apply Hno. apply tc_once. unfold edge, network_edges. in_list.
  - exfalso. apply Hno. apply tc_once. unfold edge, network_edges. in_list.
  - by apply elem_of_nil in Hv.
Qed.

Lemma pump_score_zero (evid : gmap string Z) :
  valid_evidence the_network evid → evid !! "Contamination"%string = None →
  ∃ m,
    sensitivity_analysis "Contamination" evid bayesian_model
    = (Ok m, bayesian_model)
    ∧ ∀ v s0, evid !! v = Some s0 →
        v = "Pump_Age"%string ∨ v = "Pump_Failure"%string →
        ∃ score, m !! v = Some score ∧ score == 0.
Proof.
  intros Hvalid Hnone.
  assert ("Contamination"%string ∈ nodes the_network) as Ht by in_nodes.
  destruct (sensitivity_analysis_run "Contamination" evid Hvalid Ht Hnone)
    as (base & m & Hbase & Hrun & _ & Hscore).
  exists m. split; [exact Hrun|]. intros v s0 Hv Hpump.
  destruct (Hscore v s0 Hv) as (n & Hcard & Htwo & Hm & Hq).
  eexists. split; [exact Hm|].
  destruct (score_is_max "Contamination" evid v s0 n base Htwo Hq)
    as [_ (s & p & Hs & Hne & Hp & ->)].
  destruct (pump_independent evid Hvalid Hnone) as (b & q & Hb & Hq0 & Hbq).
  rewrite Hbase in Hb. injection Hb as <-.
  destruct (Hvalid v s0 Hv) as (Hnode & _).
  destruct (pump_independent (<[v := Z.of_nat s]> evid)) as (p' & q' & Hp' & Hq' & Hpq).
  { apply (valid_evidence_insert _ _ _ _ n);
      [exact Hvalid | exact Hnode | exact Hcard | lia]. }
  { rewrite lookup_insert_ne; [exact Hnone|]. intros ->. congruence. }
  rewrite Hp in Hp'. injection Hp' as <-.
  rewrite (without_pump_insert evid v _ Hpump), Hq0 in Hq'. injection Hq' as <-.
  assert (p - base == 0) as H0 by (rewrite Hpq, Hbq; ring).
  rewrite (Qabs_wd _ _ H0). reflexivity.
Qed.

(** Claim C8.  Every score that [sensitivity_analysis] returns is
    non-negative.  For target Contamination and valid evidence, the score
    of every evidence variable without a directed path to Contamination is
    0; Pump_Age has no such path, so its score is 0 whenever the evidence
    contains it. *)
Theorem sensitivity_scores_nonneg_zero_without_path :
  (∀ target (evid : gmap string Z) self m self',
     sensitivity_analysis target evid self = (Ok m, self') →
     ∀ v score, m !! v = Some score → 0 <= score)
  ∧ (∀ evid : gmap string Z,
       valid_evidence the_network evid → evid !! "Contamination"%string = None →
       ∃ m,
         sensitivity_analysis "Contamination" evid bayesian_model
         = (Ok m, bayesian_model)
         ∧ (∀ v, is_Some (evid !! v) →
              ¬ path network_edges v "Contamination" →
              ∃ score, m !! v = Some score ∧ score == 0)
         ∧ (is_Some (evid !! "Pump_Age"%string) →
              ∃ score, m !! "Pump_Age"%string = Some score ∧ score == 0))
  ∧ ¬ path network_edges "Pump_Age" "Contamination".
Proof.
  split; [apply sensitivity_analysis_nonneg|].
  split; [|apply no_path_from_pump; by left].
  intros evid Hvalid Hnone.
  destruct (pump_score_zero evid Hvalid Hnone) as (m & Hrun & Hzero).
  exists m. split; [exact Hrun|]. split.
  - intros v [s0 Hv] Hno. apply (Hzero v s0 Hv).
    destruct (Hvalid v s0 Hv) as (Hnode & _).
    apply no_path_is_pump; [exact Hnode | | exact Hno].
    intros ->. congruence.
  - intros [s0 Hv]. apply (Hzero _ s0 Hv). by left.
Qed.

(* ================================================================= *)
(** ** Instances of the general statements, and the source's own tests *)

Lemma query_parentless_prior_witness :
  ∃ p, engine_query [variable cpd_rainfall] ∅ bayesian_model
       = (Ok p, bayesian_model)
       ∧ Forall2 Qeq p (concat (values cpd_rainfall)).
Proof.
  apply (proj1 query_parentless_prior cpd_rainfall).
  - rewrite cpds_of_network. unfold network_cpds. in_list.
  - reflexivity.
Defined.

Lemma cpd_columns_normalized_witness :
  ∃ c, get_cpds the_network "Contamination" = Some c
       ∧ ∀ j, (j < n_columns c)%nat →
              column_sum c j == 1 ∧ Qabs (column_sum c j - 1) <= 1e-6.
Proof.
  apply (proj1 (proj2 cpd_columns_normalized) "Contamination"%string).
  in_nodes.
Defined.

(** The declared edges with one more, from Contamination back to Rainfall:
    every CPD attaches, and it is the validation that refuses the cycle
    Rainfall, Turbidity, Contamination, Rainfall. *)
Lemma network_is_dag_witness :
  ∃ e self',
    build_network (network_edges ++ [("Contamination", "Rainfall")]%string)
      network_cpds {| model := None; inference_engine := None |} = (Err e, self')
    ∧ inference_engine self' = None
    ∧ e = StructuralError
    ∧ ∃ net,
        add_cpds (new_network (network_edges ++ [("Contamination", "Rainfall")]%string))
          network_cpds = Ok net
        ∧ check_model net = Err StructuralError.
Proof.
  destruct (proj2 (proj2 (proj2 (proj2 (proj2 (proj2 network_is_dag)))))
              (network_edges ++ [("Contamination", "Rainfall")]%string) network_cpds
              {| model := None; inference_engine := None |})
    as (e & self' & Hrun & Hengine & Herror).
  { exists "Rainfall"%string. unfold path.
    eapply tc_l; [|eapply tc_l; [|apply tc_once]];
      unfold edge, network_edges; cbn [app]; in_list. }
  exists e, self'. split; [exact Hrun|]. split; [exact Hengine|]. split.
  - destruct Herror as [-> | Hadd]; [reflexivity|].
    vm_compute in Hadd. discriminate Hadd.
  - eexists. split; vm_compute; reflexivity.
Defined.

Lemma sensitivity_scores_nonneg_zero_without_path_witness :
  ∃ m,
    sensitivity_analysis "Contamination"
      (<["Pump_Age"%string := 0%Z]> {[ "Turbidity"%string := 2%Z ]})
      bayesian_model = (Ok m, bayesian_model)
    ∧ (∀ v, is_Some ((<["Pump_Age"%string := 0%Z]>
                        ({[ "Turbidity"%string := 2%Z ]} : gmap string Z)) !! v) →
         ¬ path network_edges v "Contamination" →
         ∃ score, m !! v = Some score ∧ score == 0)
    ∧ (is_Some ((<["Pump_Age"%string := 0%Z]>
                   ({[ "Turbidity"%string := 2%Z ]} : gmap string Z))
                 !! "Pump_Age"%string) →
         ∃ score, m !! "Pump_Age"%string = Some score ∧ score == 0).
Proof.
  apply (proj1 (proj2 sensitivity_scores_nonneg_zero_without_path)).
  - intros k s Hk.
    apply lookup_insert_Some in Hk as [[<- <-] | [_ Hk]].
    + split; [in_nodes|]. exists 3%nat. split; [reflexivity | lia].
    + apply lookup_singleton_Some in Hk as [<- <-].
      split; [in_nodes|]. exists 3%nat. split; [reflexivity | lia].
  - reflexivity.
Defined.

(** An unknown name in the evidence is reported before an out-of-range
    state. *)
Example unknown_name_before_state_range :
  predict_contamination_risk
    (<["Foo"%string := 0%Z]> {[ "Latrine_Dist"%string := 5%Z ]}) bayesian_model
  = (Err UnknownVariableError, bayesian_model).
Proof. vm_compute. reflexivity. Qed.

(** An exact tie: given runoff, the posterior of Rainfall is the same for
    states 1 and 2 (0.3 * 0.6 = 0.2 * 0.9), and the first of them is the
    argmax of the exact values.  An engine that computes in binary64
    rounds the two products differently and returns values of which the
    second is larger; [most_likely_scenario_argmax] speaks of the values
    the engine returns, whichever they are. *)
Example rainfall_tie_given_runoff :
  query the_engine ["Rainfall"%string] {[ "Surface_Runoff"%string := 1%Z ]}
  = Ok [5 # 77; 36 # 77; 36 # 77]
  ∧ argmax [5 # 77; 36 # 77; 36 # 77] = Ok 1%nat.
Proof. split; vm_compute; reflexivity. Qed.

(** The four test cases at the end of [bayesian_model.py]. *)
Example test_case_1_ideal_conditions :
  predict_contamination_risk
    (<["Rainfall"%string := 0%Z]>
       (<["Turbidity"%string := 0%Z]> {[ "Latrine_Dist"%string := 0%Z ]}))
    bayesian_model
  = (Ok {| safe_probability := 983 # 1000;
           contamination_probability := 17 # 1000;
           risk_level := "LOW";
           evidence_used :=
             <["Rainfall"%string := 0%Z]>
               (<["Turbidity"%string := 0%Z]> {[ "Latrine_Dist"%string := 0%Z ]}) |},
     bayesian_model).
Proof. vm_compute. reflexivity. Qed.

Example test_case_2_high_risk :
  predict_contamination_risk
    (<["Rainfall"%string := 2%Z]>
       (<["Turbidity"%string := 2%Z]> {[ "Latrine_Dist"%string := 1%Z ]}))
    bayesian_model
  = (Ok {| safe_probability := 13 # 200;
           contamination_probability := 187 # 200;
           risk_level := "CRITICAL";
           evidence_used :=
             <["Rainfall"%string := 2%Z]>
               (<["Turbidity"%string := 2%Z]> {[ "Latrine_Dist"%string := 1%Z ]}) |},
     bayesian_model).
Proof. vm_compute. reflexivity. Qed.

Example test_case_3_old_pump :
  (predict_pump_status 2 bayesian_model).1
  = Ok {| working_probability := 7 # 10; failure_probability := 3 # 10;
          maintenance_needed := true |}.
Proof. vm_compute. reflexivity. Qed.

Example test_case_4_after_heavy_rain :
  predict_contamination_risk
    (<["Rainfall"%string := 2%Z]> {[ "Turbidity"%string := 1%Z ]})
    bayesian_model
  = (Ok {| safe_probability := 47 # 100;
           contamination_probability := 53 # 100;
           risk_level := "HIGH";
           evidence_used :=
             <["Rainfall"%string := 2%Z]> {[ "Turbidity"%string := 1%Z ]} |},
     bayesian_model).
Proof. vm_compute. reflexivity. Qed.

(** With all three parents observed the posterior is the CPD entry:
    turbidity 2, no runoff, risky latrine is column 2*4 + 0*2 + 1 = 9. *)
Example contamination_given_parents :
  query the_engine ["Contamination"%string]
    (<["Turbidity"%string := 2%Z]>
       (<["Surface_Runoff"%string := 0%Z]> {[ "Latrine_Dist"%string := 1%Z ]}))
  = Ok [1 # 5; 4 # 5].
Proof. vm_compute. reflexivity. Qed.

(* ================================================================= *)
(** ** Posteriors are strictly between 0 and 1 *)

Lemma normalize_positive net f g :
  wf_factor net f → normalize f = Ok g → Forall (λ x, 0 < x) (table g).
Proof.
  intros Hw. unfold normalize.
  destruct (Qle_bool (qsum (table f)) 0) eqn:Hle; [discriminate|].
  intros [= <-]. simpl.
  assert (0 < qsum (table f)) as Htotal.
  { apply Qnot_le_lt. intros H. apply Qle_bool_iff in H. congruence. }
  apply Forall_fmap. eapply Forall_impl; [apply (wf_positive _ _ Hw)|].
  intros x Hx. simpl. apply Qred_pos.
  apply Qlt_shift_div_l; [exact Htotal|]. by rewrite Qmult_0_l.
Qed.

(** Whatever a query under valid evidence returns on a well-formed
    network has only positive entries. *)
Lemma query_positive net variables (evid : gmap string Z) p :
  network_ok net = true → valid_evidence net evid →
  query {| ve_model := net |} variables evid = Ok p →
  Forall (λ x, 0 < x) p.
Proof.
  intros Hnet Hvalid. unfold query. simpl ve_model.
  destruct (existsb _ variables); [discriminate|].
  destruct (negb _); [discriminate|].
  destruct (existsb _ (map_to_list evid)); [discriminate|].
  unfold network_ok in Hnet. rewrite forallb_forall in Hnet.
  assert (Forall (wf_factor net) (cpd_factor <$> cpds net)) as Hwf0.
  { apply Forall_forall. intros f Hf.
    by apply wf_factorb_sound, Hnet, list_elem_of_In. }
  destruct (reduce_evidence_ok net (map_to_list evid) _ Hwf0)
    as (fs1 & -> & Hwf1 & _).
  { intros k s Hin. apply elem_of_map_to_list in Hin.
    destruct (Hvalid k s Hin) as (_ & c' & ? & ?). eauto. }
  set (order := filter _ (nodes net)).
  destruct (eliminate_order_ok net order fs1 Hwf1) as (fs2 & -> & Hwf2 & _).
  destruct fs2 as [|f rest]; [discriminate|].
  apply Forall_cons in Hwf2 as [Hf Hrest].
  destruct (product_all_wf net rest f Hf Hrest) as [Hprod _].
  destruct (normalize _) as [g|] eqn:Hnorm; [|discriminate].
  intros [= <-]. by eapply normalize_positive.
Qed.

Lemma fold_sum_member_le (l : list Q) i x :
  Forall (λ y, 0 < y) l → l !! i = Some x → x <= fold_right Qplus 0 l.
Proof.
  intros Hpos. revert i. induction Hpos as [|z l Hz Hl IH]; intros i Hi.
  - by rewrite lookup_nil in Hi.
  - simpl. destruct i as [|i]; simpl in Hi.
    + injection Hi as ->. apply fold_sum_nonneg in Hl.
      rewrite <- (Qplus_0_r x) at 1. by apply Qplus_le_r.
    + apply Qle_trans with (fold_right Qplus 0 l); [by eapply IH|].
      rewrite <- (Qplus_0_l (fold_right Qplus 0 l)) at 1.
      apply Qplus_le_l. by apply Qlt_le_weak.
Qed.

Lemma fold_sum_member_lt (l : list Q) i x :
  Forall (λ y, 0 < y) l → l !! i = Some x → (2 ≤ length l)%nat →
  x < fold_right Qplus 0 l.
Proof.
  intros Hpos Hi Hlen. destruct l as [|y l]; [simpl in Hlen; lia|].
  apply Forall_cons in Hpos as [Hy Hpos]. simpl.
  destruct i as [|i]; simpl in Hi.
  - injection Hi as ->.
    destruct l as [|z l]; [simpl in Hlen; lia|].
    apply Forall_cons in Hpos as [Hz Hpos].
    apply fold_sum_nonneg in Hpos. simpl.
    rewrite <- (Qplus_0_r x) at 1. apply Qplus_lt_r.
    apply Qlt_le_trans with (z + 0); [by rewrite Qplus_0_r|].
    apply Qplus_le_r. exact Hpos.
  - rewrite <- (Qplus_0_l x). apply Qplus_lt_le_compat; [exact Hy|].
    by eapply fold_sum_member_le.
Qed.

(** The state-1 probability of a network variable under valid evidence
    lies strictly between 0 and 1. *)
Lemma state1_probability_bounds target (evid : gmap string Z) :
  valid_evidence the_network evid → target ∈ nodes the_network →
  evid !! target = None →
  ∃ p, state1_probability the_engine target evid = Ok p ∧ 0 < p ∧ p < 1.
Proof.
  intros Hvalid Ht Hnone.
  destruct (query_ok_singleton target evid Hvalid Ht Hnone)
    as (res & c & Hq & _ & Hlen & Htwo).
  pose proof (query_positive the_network [target] evid res
                network_ok_the_network Hvalid Hq) as Hpos.
  pose proof (query_sum_one _ _ _ _ Hq) as Hsum. rewrite qsum_eq in Hsum.
  destruct (res !! 1%nat) as [p|] eqn:Hp.
  - exists p. unfold state1_probability, getitem. rewrite Hq. simpl. rewrite Hp.
    split; [reflexivity|]. split.
    + by apply (proj1 (Forall_lookup _ _) Hpos 1%nat).
    + rewrite <- Hsum. apply (fold_sum_member_lt res 1%nat); [done | done | lia].
  - apply lookup_ge_None in Hp. lia.
Qed.

(* ================================================================= *)
(** ** Further properties of the model's methods *)

(** What [predict_contamination_risk] returns on valid evidence. *)
Lemma predict_contamination_risk_run (evid : gmap string Z) :
  valid_evidence the_network evid → evid !! "Contamination"%string = None →
  ∃ p0 p1,
    predict_contamination_risk evid bayesian_model
    = (Ok {| safe_probability := p0; contamination_probability := p1;
             risk_level := _categorize_risk p1; evidence_used := evid |},
       bayesian_model)
    ∧ state1_probability the_engine "Contamination" evid = Ok p1
    ∧ 0 < p0 ∧ 0 < p1 ∧ p0 + p1 == 1.
Proof.
  intros Hvalid Hnone.
  destruct (query_ok_singleton "Contamination" evid Hvalid)
    as (p & c & Hq & Hc & Hlen & _); [in_nodes | exact Hnone |].
  assert (c = 2%nat) as -> by (vm_compute in Hc; congruence).
  destruct p as [|p0 [|p1 [|p2 p]]]; try discriminate Hlen.
  pose proof (query_sum_one _ _ _ _ Hq) as Hsum.
  rewrite qsum_eq in Hsum. simpl in Hsum. rewrite Qplus_0_r in Hsum.
  pose proof (query_positive the_network _ evid _ network_ok_the_network
                Hvalid Hq) as Hpos.
  apply Forall_cons in Hpos as [H0 Hpos]. apply Forall_cons in Hpos as [H1 _].
  exists p0, p1. split; [|split; [|done]].
  - unfold predict_contamination_risk, mbind, M_bind.
    rewrite engine_query_singleton, Hq. reflexivity.
  - unfold state1_probability. rewrite Hq. reflexivity.
Qed.

Lemma sum_one_lt_one p q : 0 < q → p + q == 1 → p < 1.
Proof.
  intros Hq Hsum. rewrite <- Hsum. rewrite <- (Qplus_0_r p) at 1.
  by apply Qplus_lt_r.
Qed.

(** Property X1.  For every valid evidence mapping that does not fix
    Contamination, predict_contamination_risk returns, leaves the object
    unchanged, and both safe_probability and contamination_probability lie
    strictly between 0 and 1 (the model never reports certainty);
    evidence_used is the evidence passed in. *)
Theorem predict_contamination_risk_bounds (evid : gmap string Z) :
  valid_evidence the_network evid → evid !! "Contamination"%string = None →
  ∃ r, predict_contamination_risk evid bayesian_model = (Ok r, bayesian_model)
       ∧ 0 < safe_probability r ∧ safe_probability r < 1
       ∧ 0 < contamination_probability r ∧ contamination_probability r < 1
       ∧ evidence_used r = evid.
Proof.
  intros Hvalid Hnone.
  destruct (predict_contamination_risk_run evid Hvalid Hnone)
    as (p0 & p1 & Hrun & _ & H0 & H1 & Hsum).
  eexists. split; [exact Hrun|]. cbn [safe_probability contamination_probability
                                      evidence_used].
  split; [exact H0|]. split; [by apply (sum_one_lt_one p0 p1)|].
  split; [exact H1|]. split; [|reflexivity].
  apply (sum_one_lt_one p1 p0); [exact H0|]. by rewrite Qplus_comm.
Qed.

Lemma valid_turbidity_two :
  valid_evidence the_network {[ "Turbidity"%string := 2%Z ]}.
Proof.
  intros k s Hk. apply lookup_singleton_Some in Hk as [<- <-].
  split; [in_nodes|]. exists 3%nat. split; [reflexivity | lia].
Qed.

Lemma predict_contamination_risk_bounds_witness :
  ∃ r, predict_contamination_risk {[ "Turbidity"%string := 2%Z ]} bayesian_model
       = (Ok r, bayesian_model)
       ∧ 0 < safe_probability r ∧ safe_probability r < 1
       ∧ 0 < contamination_probability r ∧ contamination_probability r < 1
       ∧ evidence_used r = {[ "Turbidity"%string := 2%Z ]}.
Proof.
  apply predict_contamination_risk_bounds; [apply valid_turbidity_two | reflexivity].
Defined.

Lemma Qabs_diff_lt_one p b : 0 < p → p < 1 → 0 < b → b < 1 → Qabs (p - b) < 1.
Proof.
  intros Hp0 Hp1 Hb0 Hb1. apply Qabs_Qlt_condition. split.
  - apply Qlt_trans with (0 - b).
    + unfold Qminus. rewrite Qplus_0_l. by apply Qopp_lt_compat.
    + unfold Qminus. by apply Qplus_lt_l.
  - apply Qlt_trans with (p - 0).
    + unfold Qminus. apply Qplus_lt_r. by apply Qopp_lt_compat.
    + unfold Qminus. rewrite Qplus_0_r. exact Hp1.
Qed.

(** Property X2.  For valid evidence and a target variable of the network
    outside the evidence, sensitivity_analysis returns, leaves the object
    unchanged, and every score lies in [0, 1): no observation can move the
    state-1 probability of the target by a full 1. *)
Theorem sensitivity_analysis_scores_below_one target (evid : gmap string Z) :
  valid_evidence the_network evid → target ∈ nodes the_network →
  evid !! target = None →
  ∃ m, sensitivity_analysis target evid bayesian_model = (Ok m, bayesian_model)
       ∧ ∀ v score, m !! v = Some score → 0 <= score ∧ score < 1.
Proof.
  intros Hvalid Ht Hnone.
  destruct (sensitivity_analysis_run target evid Hvalid Ht Hnone)
    as (base & m & Hbase & Hrun & Hdom & Hscore).
  exists m. split; [exact Hrun|]. intros v score Hm.
  split; [by eapply sensitivity_analysis_nonneg|].
  destruct (evid !! v) as [s0|] eqn:Hv.
  - destruct (Hscore v s0 Hv) as (n & Hcard & Htwo & Hm' & Hq).
    rewrite Hm in Hm'. injection Hm' as ->.
    destruct (score_is_max target evid v s0 n base Htwo Hq)
      as [_ (s & p & Hs & Hne & Hp & ->)].
    destruct (state1_probability_bounds target evid Hvalid Ht Hnone)
      as (b & Hb & Hb0 & Hb1).
    rewrite Hbase in Hb. injection Hb as <-.
    destruct (Hvalid v s0 Hv) as (Hnode & _).
    destruct (state1_probability_bounds target (<[v := Z.of_nat s]> evid))
      as (p' & Hp' & Hp0 & Hp1).
    + apply (valid_evidence_insert _ _ _ _ n);
        [exact Hvalid | exact Hnode | exact Hcard | lia].
    + exact Ht.
    + rewrite lookup_insert_ne; [exact Hnone|]. intros ->. congruence.
    + rewrite Hp in Hp'. injection Hp' as <-.
      by apply Qabs_diff_lt_one.
  - apply Hdom in Hv. congruence.
Qed.

Lemma sensitivity_analysis_scores_below_one_witness :
  ∃ m, sensitivity_analysis "Contamination" {[ "Turbidity"%string := 2%Z ]}
         bayesian_model = (Ok m, bayesian_model)
       ∧ ∀ v score, m !! v = Some score → 0 <= score ∧ score < 1.
Proof.
  apply sensitivity_analysis_scores_below_one;
    [apply valid_turbidity_two | in_nodes | reflexivity].
Defined.

(* ================================================================= *)
(** ** The contamination probability grows with every observation *)

Lemma monotone_everywhere :
  forallb (monotone_check the_engine) (enum_evidence observation_cards) = true.
Proof. vm_cast_no_check (eq_refl true). Qed.

Lemma observation_cards_of v n :
  v ∈ app.evidence_keys → card_of the_network v = Some n →
  (v, n) ∈ observation_cards.
Proof.
  unfold app.evidence_keys. intros Hv Hc.
  repeat (apply elem_of_cons in Hv as [-> | Hv];
          [vm_compute in Hc; injection Hc as <-; vm_compute; in_list|]).
  by apply elem_of_nil in Hv.
Qed.

Lemma evidence_key_not_pump v :
  v ∈ app.evidence_keys →
  v ≠ "Pump_Age"%string ∧ v ≠ "Pump_Failure"%string ∧ v ≠ "Contamination"%string.
Proof.
  unfold app.evidence_keys. intros Hv.
  repeat (apply elem_of_cons in Hv as [-> | Hv]; [by repeat split|]).
  by apply elem_of_nil in Hv.
Qed.

Lemma without_pump_insert_ne (evid : gmap string Z) v (s : Z) :
  v ≠ "Pump_Age"%string → v ≠ "Pump_Failure"%string →
  without_pump (<[v := s]> evid) = <[v := s]> (without_pump evid).
Proof.
  intros H1 H2. unfold without_pump.
  rewrite (delete_insert_ne evid) by congruence.
  by rewrite delete_insert_ne by congruence.
Qed.

Lemma observation_cards_complete (evid : gmap string Z) v :
  valid_evidence the_network evid → evid !! "Contamination"%string = None →
  delete v (without_pump evid) ∈ enum_evidence observation_cards.
Proof.
  intros Hvalid Hnone. apply enum_evidence_complete.
  - apply (bool_decide_unpack _). vm_compute. exact I.
  - intros k s Hk. apply lookup_delete_Some in Hk as [_ Hk].
    unfold without_pump in Hk.
    apply lookup_delete_Some in Hk as [Hage Hk].
    apply lookup_delete_Some in Hk as [Hfail Hk].
    destruct (Hvalid k s Hk) as (Hnode & c & Hc & Hrange).
    exists c. split; [|exact Hrange].
    rewrite nodes_of_network in Hnode.
    repeat (apply elem_of_cons in Hnode as [-> | Hnode];
            [first [congruence
                   | vm_compute in Hc; injection Hc as <-; vm_compute; in_list]|]).
    by apply elem_of_nil in Hnode.
Qed.

(** One step up of one observable variable, on the level of the
    inference engine. *)
Lemma state1_step_up (evid : gmap string Z) v n s :
  valid_evidence the_network evid → evid !! "Contamination"%string = None →
  v ∈ app.evidence_keys → card_of the_network v = Some n → (S s < n)%nat →
  ∃ p q,
    state1_probability the_engine "Contamination" (<[v := Z.of_nat s]> evid) = Ok p
    ∧ state1_probability the_engine "Contamination" (<[v := Z.of_nat (S s)]> evid) = Ok q
    ∧ p <= q ∧ (v ≠ "Rainfall"%string → p < q).
Proof.
  intros Hvalid Hnone Hv Hc Hs.
  destruct (evidence_key_not_pump v Hv) as (Hage & Hfail & Hcont).
  assert (v ∈ nodes the_network) as Hnode.
  { unfold app.evidence_keys in Hv.
    repeat (apply elem_of_cons in Hv as [-> | Hv]; [in_nodes|]).
    by apply elem_of_nil in Hv. }
  pose proof monotone_everywhere as Hall. rewrite forallb_forall in Hall.
  specialize (Hall _ (proj1 (list_elem_of_In _ _)
                        (observation_cards_complete evid v Hvalid Hnone))).
  unfold monotone_check in Hall. rewrite forallb_forall in Hall.
  specialize (Hall _ (proj1 (list_elem_of_In _ _)
                        (observation_cards_of v n Hv Hc))).
  cbn [fst snd] in Hall. rewrite lookup_delete_eq in Hall.
  rewrite forallb_forall in Hall.
  specialize (Hall s). unfold step_up_ok in Hall.
  rewrite !insert_delete_eq in Hall.
  rewrite <- !without_pump_insert_ne in Hall by assumption.
  destruct (pump_independent (<[v := Z.of_nat s]> evid)) as (p & p' & Hp & Hp' & Hpp).
  { apply (valid_evidence_insert _ _ _ _ n);
      [exact Hvalid | exact Hnode | exact Hc | lia]. }
  { rewrite lookup_insert_ne; [exact Hnone | congruence]. }
  destruct (pump_independent (<[v := Z.of_nat (S s)]> evid))
    as (q & q' & Hq & Hq' & Hqq).
  { apply (valid_evidence_insert _ _ _ _ n);
      [exact Hvalid | exact Hnode | exact Hc | lia]. }
  { rewrite lookup_insert_ne; [exact Hnone | congruence]. }
  rewrite Hp', Hq' in Hall.
  assert ((if String.eqb v "Rainfall" then Qle_bool p' q' else Qltb p' q') = true)
    as Hcmp.
  { apply Hall. apply list_elem_of_In, elem_of_seq. lia. }
  exists p, q. split; [exact Hp|]. split; [exact Hq|].
  destruct (String.eqb_spec v "Rainfall") as [-> | Hne].
  - apply Qle_bool_iff in Hcmp. split; [|congruence].
    by rewrite Hpp, Hqq.
  - apply Qltb_lt in Hcmp. rewrite <- Hpp, <- Hqq in Hcmp.
    split; [by apply Qlt_le_weak | by intros _].
Qed.

(** Property X3.  On top of any valid evidence, moving one of the four
    observations (Rainfall, Turbidity, Surface_Runoff, Latrine_Dist) from a
    state s to the next state s+1 never lowers the contamination_probability
    that predict_contamination_risk returns, and strictly raises it for
    every observation other than Rainfall. *)
Theorem predict_contamination_risk_monotone (evid : gmap string Z) v n s :
  valid_evidence the_network evid → evid !! "Contamination"%string = None →
  v ∈ app.evidence_keys → card_of the_network v = Some n → (S s < n)%nat →
  ∃ r r',
    predict_contamination_risk (<[v := Z.of_nat s]> evid) bayesian_model
    = (Ok r, bayesian_model)
    ∧ predict_contamination_risk (<[v := Z.of_nat (S s)]> evid) bayesian_model
      = (Ok r', bayesian_model)
    ∧ contamination_probability r <= contamination_probability r'
    ∧ (v ≠ "Rainfall"%string →
       contamination_probability r < contamination_probability r').
Proof.
  intros Hvalid Hnone Hv Hc Hs.
  destruct (state1_step_up evid v n s Hvalid Hnone Hv Hc Hs)
    as (p & q & Hp & Hq & Hle & Hlt).
  destruct (evidence_key_not_pump v Hv) as (_ & _ & Hcont).
  assert (v ∈ nodes the_network) as Hnode.
  { unfold app.evidence_keys in Hv.
    repeat (apply elem_of_cons in Hv as [-> | Hv]; [in_nodes|]).
    by apply elem_of_nil in Hv. }
  destruct (predict_contamination_risk_run (<[v := Z.of_nat s]> evid))
    as (a0 & a1 & Ha & Ha1 & _).
  { apply (valid_evidence_insert _ _ _ _ n);
      [exact Hvalid | exact Hnode | exact Hc | lia]. }
  { rewrite lookup_insert_ne; [exact Hnone | congruence]. }
  destruct (predict_contamination_risk_run (<[v := Z.of_nat (S s)]> evid))
    as (b0 & b1 & Hb & Hb1 & _).
  { apply (valid_evidence_insert _ _ _ _ n);
      [exact Hvalid | exact Hnode | exact Hc | lia]. }
  { rewrite lookup_insert_ne; [exact Hnone | congruence]. }
  rewrite Hp in Ha1. injection Ha1 as <-.
  rewrite Hq in Hb1. injection Hb1 as <-.
  eexists _, _. split; [exact Ha|]. split; [exact Hb|].
  cbn [contamination_probability]. split; [exact Hle | exact Hlt].
Qed.

Lemma valid_empty : valid_evidence the_network ∅.
Proof. intros k s Hk. by rewrite lookup_empty in Hk. Qed.

Lemma predict_contamination_risk_monotone_witness :
  ∃ r r',
    predict_contamination_risk (<["Turbidity"%string := Z.of_nat 1]> ∅) bayesian_model
    = (Ok r, bayesian_model)
    ∧ predict_contamination_risk (<["Turbidity"%string := Z.of_nat 2]> ∅) bayesian_model
      = (Ok r', bayesian_model)
    ∧ contamination_probability r <= contamination_probability r'
    ∧ ("Turbidity"%string ≠ "Rainfall"%string →
       contamination_probability r < contamination_probability r').
Proof.
  apply (predict_contamination_risk_monotone ∅ "Turbidity" 3 1);
    [apply valid_empty | reflexivity | unfold app.evidence_keys; in_list
     | reflexivity | lia].
Defined.

(* ================================================================= *)
(** ** Edge behaviour of the other methods *)

(** Property X4.  When the evidence has an entry for every variable of the
    network, get_most_likely_scenario returns the empty mapping without
    running a single query: the states of the evidence are never checked, so
    out-of-range states are accepted silently, and the object is unchanged. *)
Theorem get_most_likely_scenario_all_observed (evid : gmap string Z) self net :
  model self = Some net →
  (∀ v, v ∈ nodes net → is_Some (evid !! v)) →
  get_most_likely_scenario evid self = (Ok ∅, self).
Proof.
  intros Hmodel Hall.
  unfold get_most_likely_scenario, most_likely_scenario_with,
      mbind at 1, M_bind at 1, get_model.
  rewrite Hmodel.
  assert (filter (λ v, evid !! v = None) (nodes net) = []) as ->; [|reflexivity].
  induction (nodes net) as [|v l IH]; [reflexivity|].
  rewrite filter_cons_False.
  - apply IH. intros w Hw. apply Hall. by right.
  - destruct (Hall v) as [s Hs]; [by left|]. congruence.
Qed.

Lemma get_most_likely_scenario_all_observed_witness :
  get_most_likely_scenario
    (list_to_map ((λ v, (v, 99%Z)) <$> nodes the_network)) bayesian_model
  = (Ok ∅, bayesian_model).
Proof.
  apply (get_most_likely_scenario_all_observed _ _ the_network);
    [reflexivity|].
  intros v Hv. rewrite nodes_of_network in Hv.
  repeat (apply elem_of_cons in Hv as [-> | Hv]; [by eexists|]).
  by apply elem_of_nil in Hv.
Defined.



(** Property X6.  _categorize_risk is monotone: a larger probability never
    gets a less severe level in the order LOW < MODERATE < HIGH < CRITICAL. *)
Theorem _categorize_risk_monotone (p q : Q) :
  p <= q → (risk_rank (_categorize_risk p) ≤ risk_rank (_categorize_risk q))%nat.
Proof.
  intros Hle. unfold _categorize_risk.
  destruct (Qltb q 0.2) eqn:Hq2.
  { apply Qltb_lt in Hq2.
    assert (Qltb p 0.2 = true) as -> by (apply Qltb_lt; eapply Qle_lt_trans; eauto).
    reflexivity. }
  destruct (Qltb q 0.5) eqn:Hq5.
  { apply Qltb_lt in Hq5.
    destruct (Qltb p 0.2); [vm_compute; lia|].
    assert (Qltb p 0.5 = true) as -> by (apply Qltb_lt; eapply Qle_lt_trans; eauto).
    reflexivity. }
  destruct (Qltb q 0.8) eqn:Hq8.
  { apply Qltb_lt in Hq8.
    destruct (Qltb p 0.2); [vm_compute; lia|].
    destruct (Qltb p 0.5); [vm_compute; lia|].
    assert (Qltb p 0.8 = true) as -> by (apply Qltb_lt; eapply Qle_lt_trans; eauto).
    reflexivity. }
  destruct (Qltb p 0.2); [vm_compute; lia|].
  destruct (Qltb p 0.5); [vm_compute; lia|].
  destruct (Qltb p 0.8); vm_compute; lia.
Qed.

Lemma _categorize_risk_monotone_witness :
  (risk_rank (_categorize_risk 0.3) ≤ risk_rank (_categorize_risk 0.9))%nat.
Proof. apply _categorize_risk_monotone. discriminate. Defined.

(** Property X7.  get_variable_info describes exactly the variables of the
    network that _build_network declares, and the number of state names it
    lists for a variable is the cardinality of that variable's CPD: a state
    index is valid evidence for the variable exactly when it indexes the
    list of state names. *)
Theorem get_variable_info_matches_network v :
  (is_Some (get_variable_info !! v) ↔ v ∈ nodes the_network)
  ∧ (∀ info, get_variable_info !! v = Some info →
       card_of the_network v = Some (length (states info))
       ∧ ∀ s : Z, (0 ≤ s < Z.of_nat (length (states info)))%Z ↔
                  valid_evidence the_network {[ v := s ]}).
Proof.
  assert (is_Some (get_variable_info !! v) → v ∈ nodes the_network) as Hdom.
  { intros [info Hinfo]. unfold get_variable_info in Hinfo.
    apply elem_of_list_to_map_2 in Hinfo.
    rewrite nodes_of_network.
    repeat (apply elem_of_cons in Hinfo as [[= -> _] | Hinfo]; [in_list|]).
    by apply elem_of_nil in Hinfo. }
  split.
  - split; [exact Hdom|]. intros Hv.
    destruct (node_card_info v Hv) as (info & Hinfo & _). by exists info.
  - intros info Hinfo.
    destruct (node_card_info v (Hdom (ex_intro _ info Hinfo)))
      as (info' & Hinfo' & Hcard & _).
    rewrite Hinfo in Hinfo'. injection Hinfo' as <-.
    split; [exact Hcard|]. intros s. split.
    + intros Hs k s' Hk. apply lookup_singleton_Some in Hk as [<- <-].
      split; [apply Hdom; by exists info|]. by exists (length (states info)).
    + intros Hvalid. destruct (Hvalid v s) as (_ & c & Hc & Hs);
        [apply lookup_singleton_eq|].
      rewrite Hcard in Hc. by injection Hc as <-.
Qed.

Lemma get_variable_info_matches_network_witness :
  is_Some (get_variable_info !! "Turbidity"%string)
  ↔ "Turbidity"%string ∈ nodes the_network.
Proof. apply (proj1 (get_variable_info_matches_network "Turbidity")). Defined.

(* ================================================================= *)
(** ** The endpoints of [backend/app.py] *)

Lemma size_observation_evidence o :
  size (observation_evidence o) = observed_count o.
Proof.
  destruct o as [[r|] [t|] [s|] [l|] pa];
    unfold observation_evidence, observed_count; cbn;
    rewrite ?map_size_insert, ?lookup_insert_ne, ?lookup_empty, ?map_size_empty
      by discriminate;
    reflexivity.
Qed.

Lemma observation_evidence_empty o :
  observation_evidence o = ∅ ↔ observed_count o = 0%nat.
Proof. rewrite <- size_observation_evidence. symmetry. apply map_size_empty_iff. Qed.

Lemma categorize_cases p :
  _categorize_risk p = "LOW"%string ∨ _categorize_risk p = "MODERATE"%string
  ∨ _categorize_risk p = "HIGH"%string ∨ _categorize_risk p = "CRITICAL"%string.
Proof.
  unfold _categorize_risk.
  destruct (Qltb p 0.2); [by left|].
  destruct (Qltb p 0.5); [right; by left|].
  destruct (Qltb p 0.8); [right; right; by left | right; right; by right].
Qed.

(** What [POST /predict] answers to a validated request with at least
    one observation. *)
Lemma app_predict_contamination_run now o :
  observation_ok o = true → (1 ≤ observed_count o)%nat →
  ∃ p0 p1,
    app.predict_contamination now o bayesian_model
    = (Return
         {| ContaminationRiskResponse.safe_probability := p0;
            ContaminationRiskResponse.contamination_probability := p1;
            ContaminationRiskResponse.risk_level := _categorize_risk p1;
            ContaminationRiskResponse.recommendation :=
              app._generate_recommendation (_categorize_risk p1) p1;
            ContaminationRiskResponse.evidence_used := observation_evidence o;
            ContaminationRiskResponse.timestamp := now;
            ContaminationRiskResponse.confidence :=
              app._calculate_confidence (observed_count o) |},
       bayesian_model)
    ∧ state1_probability the_engine "Contamination" (observation_evidence o) = Ok p1
    ∧ 0 < p0 ∧ 0 < p1 ∧ p0 + p1 == 1.
Proof.
  intros Hok Hcount.
  destruct (observation_evidence_valid o Hok) as [Hvalid Hnone].
  destruct (predict_contamination_risk_run _ Hvalid Hnone)
    as (p0 & p1 & Hrun & Hp1 & H0 & H1 & Hsum).
  exists p0, p1. split; [|split; [exact Hp1|]; split; [exact H0|]; split;
                           [exact H1 | exact Hsum]].
  unfold app.predict_contamination.
  rewrite bool_decide_eq_false_2.
  - rewrite Hrun. cbn [fst snd try_except safe_probability
                         contamination_probability risk_level].
    rewrite size_observation_evidence. reflexivity.
  - rewrite observation_evidence_empty. lia.
Qed.

(** Property X8.  POST /predict answers every request that passes the
    ObservationInput bounds and carries at least one of the four
    observations: it returns (never raises), the two probabilities sum to 1,
    the contamination probability is strictly between 0 and 1, risk_level is
    the category of that probability, the recommendation is the text that
    _generate_recommendation's table holds for the level (the fallback text
    is never used), evidence_used is the evidence built from the request,
    and the model object is unchanged. *)
Theorem app_predict_contamination_returns now o :
  observation_ok o = true → (1 ≤ observed_count o)%nat →
  ∃ resp,
    app.predict_contamination now o bayesian_model = (Return resp, bayesian_model)
    ∧ ContaminationRiskResponse.safe_probability resp
      + ContaminationRiskResponse.contamination_probability resp == 1
    ∧ 0 < ContaminationRiskResponse.contamination_probability resp
    ∧ ContaminationRiskResponse.contamination_probability resp < 1
    ∧ ContaminationRiskResponse.risk_level resp
      = _categorize_risk (ContaminationRiskResponse.contamination_probability resp)
    ∧ app.recommendations !! ContaminationRiskResponse.risk_level resp
      = Some (ContaminationRiskResponse.recommendation resp)
    ∧ ContaminationRiskResponse.evidence_used resp = observation_evidence o
    ∧ ContaminationRiskResponse.timestamp resp = now.
Proof.
  intros Hok Hcount.
  destruct (app_predict_contamination_run now o Hok Hcount)
    as (p0 & p1 & Hrun & _ & H0 & H1 & Hsum).
  eexists. split; [exact Hrun|].
  cbn [ContaminationRiskResponse.safe_probability
         ContaminationRiskResponse.contamination_probability
         ContaminationRiskResponse.risk_level
         ContaminationRiskResponse.recommendation
         ContaminationRiskResponse.evidence_used
         ContaminationRiskResponse.timestamp].
  split; [exact Hsum|]. split; [exact H1|].
  split; [apply (sum_one_lt_one p1 p0); [exact H0 | by rewrite Qplus_comm]|].
  split; [reflexivity|]. split; [|split; reflexivity].
  unfold app._generate_recommendation.
  destruct (categorize_cases p1) as [-> | [-> | [-> | ->]]]; reflexivity.
Qed.

Lemma app_predict_contamination_returns_witness :
  ∃ resp,
    app.predict_contamination "2026-01-01T00:00:00"
      {| rainfall := Some 2%Z; turbidity := Some 1%Z; surface_runoff := None;
         latrine_distance := None; pump_age := None |} bayesian_model
    = (Return resp, bayesian_model)
    ∧ ContaminationRiskResponse.safe_probability resp
      + ContaminationRiskResponse.contamination_probability resp == 1
    ∧ 0 < ContaminationRiskResponse.contamination_probability resp
    ∧ ContaminationRiskResponse.contamination_probability resp < 1
    ∧ ContaminationRiskResponse.risk_level resp
      = _categorize_risk (ContaminationRiskResponse.contamination_probability resp)
    ∧ app.recommendations !! ContaminationRiskResponse.risk_level resp
      = Some (ContaminationRiskResponse.recommendation resp)
    ∧ ContaminationRiskResponse.evidence_used resp
      = observation_evidence
          {| rainfall := Some 2%Z; turbidity := Some 1%Z; surface_runoff := None;
             latrine_distance := None; pump_age := None |}
    ∧ ContaminationRiskResponse.timestamp resp = "2026-01-01T00:00:00"%string.
Proof.
  apply app_predict_contamination_returns; [reflexivity | vm_compute; lia].
Defined.

(** Property X9.  A request with none of the four observations (pump_age
    alone does not count) is answered with status 500, not 400: the
    HTTPException(400) that predict_contamination and analyze_sensitivity
    raise inside their try block is caught by their own 'except Exception'
    and re-raised as HTTPException(500) whose detail wraps the 400. Whatever
    the input, every exception that leaves either endpoint is such a 500. *)
Theorem empty_observation_is_answered_with_500 now o g :
  (rainfall o = None → turbidity o = None → surface_runoff o = None →
   latrine_distance o = None →
   app.predict_contamination now o g
   = (Raise (HTTPException 500
               (Formatted "Prediction error: "
                  (HTTPException 400 (Text "At least one observation (rainfall, turbidity, surface_runoff, or latrine_distance) must be provided")))), g)
   ∧ app.analyze_sensitivity o g
     = (Raise (HTTPException 500
                 (Formatted "Sensitivity analysis error: "
                    (HTTPException 400 (Text "At least one observation required")))), g))
  ∧ (∀ e g', app.predict_contamination now o g = (Raise e, g') →
       ∃ cause, e = HTTPException 500 (Formatted "Prediction error: " cause))
  ∧ (∀ e g', app.analyze_sensitivity o g = (Raise e, g') →
       ∃ cause, e = HTTPException 500 (Formatted "Sensitivity analysis error: " cause)).
Proof.
  split; [|split].
  - intros Hr Ht Hs Hl.
    assert (observation_evidence o = ∅) as Hempty.
    { unfold observation_evidence. by rewrite Hr, Ht, Hs, Hl. }
    unfold app.predict_contamination, app.analyze_sensitivity.
    rewrite Hempty. rewrite !bool_decide_eq_true_2 by reflexivity.
    split; reflexivity.
  - intros e g'. unfold app.predict_contamination.
    destruct (bool_decide (observation_evidence o = ∅)).
    + cbn [fst snd try_except]. intros [= <- _]. by eexists.
    + destruct (predict_contamination_risk (observation_evidence o) g)
        as [[r | err] g''].
      * cbn [fst snd try_except]. discriminate.
      * cbn [fst snd try_except]. intros [= <- _]. by eexists.
  - intros e g'. unfold app.analyze_sensitivity.
    destruct (bool_decide (observation_evidence o = ∅)).
    + cbn [fst snd try_except]. intros [= <- _]. by eexists.
    + destruct (sensitivity_analysis "Contamination" (observation_evidence o) g)
        as [[r | err] g''].
      * cbn [fst snd try_except]. discriminate.
      * cbn [fst snd try_except]. intros [= <- _]. by eexists.
Qed.

Lemma empty_observation_is_answered_with_500_witness :
  app.predict_contamination "2026-01-01T00:00:00"
    {| rainfall := None; turbidity := None; surface_runoff := None;
       latrine_distance := None; pump_age := Some 2%Z |} bayesian_model
  = (Raise (HTTPException 500
              (Formatted "Prediction error: "
                 (HTTPException 400 (Text "At least one observation (rainfall, turbidity, surface_runoff, or latrine_distance) must be provided")))), bayesian_model)
  ∧ app.analyze_sensitivity
      {| rainfall := None; turbidity := None; surface_runoff := None;
         latrine_distance := None; pump_age := Some 2%Z |} bayesian_model
    = (Raise (HTTPException 500
                (Formatted "Sensitivity analysis error: "
                   (HTTPException 400 (Text "At least one observation required")))), bayesian_model).
Proof.
  apply (proj1 (empty_observation_is_answered_with_500 "2026-01-01T00:00:00"
                  {| rainfall := None; turbidity := None; surface_runoff := None;
                     latrine_distance := None; pump_age := Some 2%Z |}
                  bayesian_model)); reflexivity.
Defined.

Lemma observed_count_le o : (observed_count o ≤ 4)%nat.
Proof.
  destruct o as [[r|] [t|] [s|] [l|] pa]; vm_compute; lia.
Qed.

(** Property X10.  The confidence of every answer of POST /predict is
    determined by how many of the four observation fields the request
    carries: HIGH exactly for four, MEDIUM exactly for two or three, LOW
    exactly for one (pump_age is not counted). *)
Theorem confidence_counts_observations now o g resp g' :
  app.predict_contamination now o g = (Return resp, g') →
  (ContaminationRiskResponse.confidence resp = "HIGH"%string
   ↔ observed_count o = 4%nat)
  ∧ (ContaminationRiskResponse.confidence resp = "MEDIUM"%string
     ↔ (2 ≤ observed_count o ≤ 3)%nat)
  ∧ (ContaminationRiskResponse.confidence resp = "LOW"%string
     ↔ observed_count o = 1%nat).
Proof.
  unfold app.predict_contamination.
  destruct (bool_decide (observation_evidence o = ∅)) eqn:Hempty;
    [cbn [fst snd try_except]; discriminate|].
  apply bool_decide_eq_false in Hempty.
  rewrite observation_evidence_empty in Hempty.
  pose proof (observed_count_le o) as Hle.
  destruct (predict_contamination_risk (observation_evidence o) g)
    as [[r | err] g''];
    [|cbn [fst snd try_except]; discriminate].
  cbn [fst snd try_except]. intros [= <- _].
  cbn [ContaminationRiskResponse.confidence].
  rewrite size_observation_evidence. unfold app._calculate_confidence.
  destruct (Nat.leb_spec 4 (observed_count o)).
  { split; [split; [lia | reflexivity]|].
    split; (split; [discriminate | lia]). }
  destruct (Nat.leb_spec 2 (observed_count o)).
  { split; [split; [discriminate | lia]|].
    split; [split; [lia | reflexivity] | split; [discriminate | lia]]. }
  split; [split; [discriminate | lia]|].
  split; [split; [discriminate | lia] | split; [lia | reflexivity]].
Qed.

Lemma confidence_counts_observations_witness :
  ∃ resp,
    app.predict_contamination "2026-01-01T00:00:00"
      {| rainfall := Some 2%Z; turbidity := Some 1%Z; surface_runoff := None;
         latrine_distance := None; pump_age := None |} bayesian_model
    = (Return resp, bayesian_model)
    ∧ (ContaminationRiskResponse.confidence resp = "MEDIUM"%string
       ↔ (2 ≤ observed_count
                {| rainfall := Some 2%Z; turbidity := Some 1%Z;
                   surface_runoff := None; latrine_distance := None;
                   pump_age := None |} ≤ 3)%nat).
Proof.
  eexists. split; [vm_compute; reflexivity|].
  refine (proj1 (proj2 (confidence_counts_observations
                          "2026-01-01T00:00:00" _ bayesian_model _
                          bayesian_model _))).
  vm_compute. reflexivity.
Defined.

(** Property X11.  POST /predict-pump answers every pump_age that passes its
    Query bounds (0..2): the probabilities sum to 1, pump_age_category is
    the entry of age_categories at index pump_age, maintenance_needed holds
    exactly for age 2, and the recommendation is the URGENT text exactly
    when maintenance_needed is true (so the dashboard's error box always
    shows the urgent text). *)
Theorem app_predict_pump_status_returns (pump_age : Z) :
  app.pump_age_ok pump_age = true →
  ∃ resp,
    app.predict_pump_status pump_age bayesian_model = (Return resp, bayesian_model)
    ∧ PumpStatusResponse.working_probability resp
      + PumpStatusResponse.failure_probability resp == 1
    ∧ app.age_categories !! Z.to_nat pump_age
      = Some (PumpStatusResponse.pump_age_category resp)
    ∧ (PumpStatusResponse.maintenance_needed resp = true
       ↔ PumpStatusResponse.recommendation resp
         = "âš ï¸ URGENT: Schedule immediate inspection and maintenance"%string)
    ∧ (PumpStatusResponse.maintenance_needed resp = true ↔ pump_age = 2%Z).
Proof.
  intros Hok. apply bool_decide_eq_true in Hok.
  assert (pump_age = 0 ∨ pump_age = 1 ∨ pump_age = 2)%Z as [-> | [-> | ->]] by lia.
  - unfold app.predict_pump_status. rewrite predict_pump_status_new.
    eexists. split; [reflexivity|]. cbn. split; [reflexivity|].
    split; [reflexivity|]. split; split; discriminate.
  - unfold app.predict_pump_status. rewrite predict_pump_status_medium.
    eexists. split; [reflexivity|]. cbn. split; [reflexivity|].
    split; [reflexivity|]. split; split; discriminate.
  - unfold app.predict_pump_status. rewrite predict_pump_status_old.
    eexists. split; [reflexivity|]. cbn. split; [reflexivity|].
    split; [reflexivity|]. split; split; reflexivity.
Qed.

Lemma app_predict_pump_status_returns_witness :
  ∃ resp,
    app.predict_pump_status 2 bayesian_model = (Return resp, bayesian_model)
    ∧ PumpStatusResponse.working_probability resp
      + PumpStatusResponse.failure_probability resp == 1
    ∧ app.age_categories !! Z.to_nat 2
      = Some (PumpStatusResponse.pump_age_category resp)
    ∧ (PumpStatusResponse.maintenance_needed resp = true
       ↔ PumpStatusResponse.recommendation resp
         = "âš ï¸ URGENT: Schedule immediate inspection and maintenance"%string)
    ∧ (PumpStatusResponse.maintenance_needed resp = true ↔ 2%Z = 2%Z).
Proof. apply app_predict_pump_status_returns. reflexivity. Defined.

(* ================================================================= *)
(** ** The ranking of [POST /sensitivity-analysis] *)

Lemma insert_desc_perm x l : insert_desc x l ≡ₚ x :: l.
Proof.
  induction l as [|y l IH]; [reflexivity|]. cbn [insert_desc].
  destruct (Qltb x.2 y.2); [|reflexivity].
  rewrite IH. apply Permutation_swap.
Qed.

Lemma sorted_desc_perm l : sorted_desc l ≡ₚ l.
Proof.
  induction l as [|x l IH]; [reflexivity|].
  unfold sorted_desc in *. cbn [fold_right].
  rewrite insert_desc_perm. by rewrite IH.
Qed.

Lemma insert_desc_sorted x l : descending l → descending (insert_desc x l).
Proof.
  induction l as [|y l IH]; cbn [insert_desc descending].
  - intros _. split; [constructor | exact I].
  - intros [Hall Hsorted]. destruct (Qltb x.2 y.2) eqn:Hcmp.
    + cbn [descending]. split; [|by apply IH].
      rewrite insert_desc_perm. constructor; [|exact Hall].
      apply Qlt_le_weak. by apply Qltb_lt.
    + apply Qltb_ge in Hcmp. cbn [descending].
      split; [|split; [exact Hall | exact Hsorted]].
      constructor; [exact Hcmp|].
      eapply Forall_impl; [exact Hall|]. intros z Hz. cbn beta in *.
      by apply Qle_trans with y.2.
Qed.

Lemma sorted_desc_sorted l : descending (sorted_desc l).
Proof.
  induction l as [|x l IH]; [exact I|].
  unfold sorted_desc in *. cbn [fold_right]. by apply insert_desc_sorted.
Qed.

Lemma descending_lookup (l : list (string * Q)) :
  descending l →
  ∀ i j a b, (i < j)%nat → l !! i = Some a → l !! j = Some b → b.2 <= a.2.
Proof.
  induction l as [|x l IH]; intros Hsorted i j a b Hij Hi Hj.
  - by rewrite lookup_nil in Hi.
  - destruct Hsorted as [Hall Hsorted].
    destruct j as [|j]; [lia|]. cbn in Hj. destruct i as [|i].
    + cbn in Hi. injection Hi as <-.
      rewrite Forall_forall in Hall. apply Hall.
      by eapply list_elem_of_lookup_2.
    + cbn in Hi. apply (IH Hsorted i j); [lia | exact Hi | exact Hj].
Qed.

Lemma observation_evidence_keys o k :
  is_Some (observation_evidence o !! k) → k ∈ app.evidence_keys.
Proof.
  intros [s Hk]. unfold observation_evidence in Hk. unfold app.evidence_keys.
  apply set_if_present_lookup in Hk as [[-> _] | Hk]; [in_list|].
  apply set_if_present_lookup in Hk as [[-> _] | Hk]; [in_list|].
  apply set_if_present_lookup in Hk as [[-> _] | Hk]; [in_list|].
  apply set_if_present_lookup in Hk as [[-> _] | Hk]; [in_list|].
  by rewrite lookup_empty in Hk.
Qed.

Lemma elem_of_items (m : gmap string Q) v s :
  (v, s) ∈ app.items m ↔ v ∈ app.evidence_keys ∧ m !! v = Some s.
Proof.
  unfold app.items. rewrite list_elem_of_omap. split.
  - intros (k & Hk & Hs). destruct (m !! k) as [x|] eqn:Hm; [|discriminate].
    cbn in Hs. injection Hs as <- <-. by split.
  - intros [Hv Hm]. exists v. split; [exact Hv|]. by rewrite Hm.
Qed.

Lemma items_keys_nodup (m : gmap string Q) : NoDup (app.items m).*1.
Proof.
  unfold app.items.
  assert (NoDup app.evidence_keys) as Hnd
    by (apply (bool_decide_unpack _); vm_compute; exact I).
  induction Hnd as [|k l Hk Hnd IH]; [constructor|].
  cbn [omap list_omap]. destruct (m !! k) as [x|] eqn:Hm; cbn; [|exact IH].
  constructor; [|exact IH]. intros Hin.
  apply list_elem_of_fmap in Hin as ([k' s'] & Heq & Hin). cbn in Heq. subst k'.
  apply list_elem_of_omap in Hin as (k'' & Hk'' & Hs).
  destruct (m !! k''); [|discriminate]. cbn in Hs. injection Hs as -> _.
  by apply Hk.
Qed.

(** Property X12.  POST /sensitivity-analysis answers every validated
    request with at least one observation: sensitivity_scores has exactly
    the keys of the evidence, ranked_variables lists each scored variable
    exactly once with its score, in order of non-increasing impact, and
    most_impactful is a variable whose score is maximal. *)
Theorem analyze_sensitivity_ranking o :
  observation_ok o = true → (1 ≤ observed_count o)%nat →
  ∃ resp,
    app.analyze_sensitivity o bayesian_model = (Return resp, bayesian_model)
    ∧ (∀ v, is_Some (SensitivityResponse.sensitivity_scores resp !! v)
            ↔ is_Some (observation_evidence o !! v))
    ∧ (∀ v s, (v, s) ∈ SensitivityResponse.ranked_variables resp
              ↔ SensitivityResponse.sensitivity_scores resp !! v = Some s)
    ∧ NoDup (SensitivityResponse.ranked_variables resp).*1
    ∧ (∀ i j a b, (i < j)%nat →
         SensitivityResponse.ranked_variables resp !! i = Some a →
         SensitivityResponse.ranked_variables resp !! j = Some b →
         b.2 <= a.2)
    ∧ ∃ v s, SensitivityResponse.most_impactful resp = Some v
             ∧ SensitivityResponse.sensitivity_scores resp !! v = Some s
             ∧ ∀ w t, SensitivityResponse.sensitivity_scores resp !! w = Some t →
                      t <= s.
Proof.
  intros Hok Hcount.
  destruct (observation_evidence_valid o Hok) as [Hvalid Hnone].
  assert ("Contamination"%string ∈ nodes the_network) as Ht by in_nodes.
  destruct (sensitivity_analysis_run "Contamination" _ Hvalid Ht Hnone)
    as (base & m & _ & Hrun & Hdom & _).
  assert (∀ v s, (v, s) ∈ sorted_desc (app.items m) ↔ m !! v = Some s) as Hmem.
  { intros v s. rewrite sorted_desc_perm, elem_of_items. split; [tauto|].
    intros Hm. split; [|exact Hm]. apply (observation_evidence_keys o).
    destruct (observation_evidence o !! v) eqn:Hv; [by eexists|].
    apply Hdom in Hv. congruence. }
  pose proof (descending_lookup _ (sorted_desc_sorted (app.items m)))
    as Hsorted.
  eexists. split.
  { unfold app.analyze_sensitivity. rewrite bool_decide_eq_false_2.
    - rewrite Hrun. cbn [fst snd try_except]. reflexivity.
    - rewrite observation_evidence_empty. lia. }
  cbn [SensitivityResponse.sensitivity_scores SensitivityResponse.most_impactful
         SensitivityResponse.ranked_variables].
  split; [|split; [exact Hmem|]; split; [|split; [exact Hsorted|]]].
  - intros v. rewrite <- !not_eq_None_Some. by rewrite Hdom.
  - rewrite sorted_desc_perm. apply items_keys_nodup.
  - destruct (sorted_desc (app.items m)) as [|[v s] rest] eqn:Hranked.
    + exfalso.
      assert (∃ k x, observation_evidence o !! k = Some x) as (k & x & Hk).
      { apply map_choose. rewrite observation_evidence_empty. lia. }
      destruct (m !! k) as [y|] eqn:Hm; [|apply Hdom in Hm; congruence].
      apply Hmem in Hm. by apply elem_of_nil in Hm.
    + exists v, s. split; [reflexivity|].
      split; [apply Hmem; by left|]. intros w t Hw.
      apply Hmem in Hw. apply list_elem_of_lookup in Hw as [j Hj].
      destruct j as [|j].
      * cbn in Hj. injection Hj as <- <-. apply Qle_refl.
      * apply (Hsorted 0%nat (S j) (v, s) (w, t)); [lia | reflexivity | exact Hj].
Qed.

Lemma analyze_sensitivity_ranking_witness :
  ∃ resp,
    app.analyze_sensitivity
      {| rainfall := Some 2%Z; turbidity := Some 1%Z; surface_runoff := None;
         latrine_distance := None; pump_age := None |} bayesian_model
    = (Return resp, bayesian_model)
    ∧ (∀ v, is_Some (SensitivityResponse.sensitivity_scores resp !! v)
            ↔ is_Some (observation_evidence
                         {| rainfall := Some 2%Z; turbidity := Some 1%Z;
                            surface_runoff := None; latrine_distance := None;
                            pump_age := None |} !! v))
    ∧ (∀ v s, (v, s) ∈ SensitivityResponse.ranked_variables resp
              ↔ SensitivityResponse.sensitivity_scores resp !! v = Some s)
    ∧ NoDup (SensitivityResponse.ranked_variables resp).*1
    ∧ (∀ i j a b, (i < j)%nat →
         SensitivityResponse.ranked_variables resp !! i = Some a →
         SensitivityResponse.ranked_variables resp !! j = Some b →
         b.2 <= a.2)
    ∧ ∃ v s, SensitivityResponse.most_impactful resp = Some v
             ∧ SensitivityResponse.sensitivity_scores resp !! v = Some s
             ∧ ∀ w t, SensitivityResponse.sensitivity_scores resp !! w = Some t →
                      t <= s.
Proof.
  apply analyze_sensitivity_ranking; [reflexivity | vm_compute; lia].
Defined.

(* ================================================================= *)
(** ** The dashboard of [streamlit_app/app.py] *)

(** Property X13.  For two or more categories, percentage_to_category
    returns an index in [0, categories) for every integer percentage (also
    outside 0..100), and it is monotone in the percentage. *)
Theorem percentage_to_category_in_range (p q : Z) (categories : nat) :
  (2 ≤ categories)%nat →
  (0 ≤ streamlit_app.percentage_to_category p categories < Z.of_nat categories)%Z
  ∧ ((p ≤ q)%Z →
     (streamlit_app.percentage_to_category p categories
      ≤ streamlit_app.percentage_to_category q categories)%Z).
Proof.
  intros Htwo. unfold streamlit_app.percentage_to_category.
  repeat case_bool_decide; split; lia.
Qed.

Lemma percentage_to_category_in_range_witness :
  (0 ≤ streamlit_app.percentage_to_category 40 3 < Z.of_nat 3)%Z
  ∧ ((40 ≤ 70)%Z →
     (streamlit_app.percentage_to_category 40 3
      ≤ streamlit_app.percentage_to_category 70 3)%Z).
Proof. apply percentage_to_category_in_range. lia. Defined.

(** Property X14.  get_category_label never fails on a list of two or more
    labels and returns the label at the index percentage_to_category
    computes; on a one-element list it returns that label for percentages up
    to 50 and raises IndexError above 50; on an empty list it always raises
    IndexError. *)
Theorem get_category_label_edges (percentage : Z) (labels : list string) :
  ((2 ≤ length labels)%nat →
     ∃ label, streamlit_app.get_category_label percentage labels = Ok label
              ∧ labels !! Z.to_nat (streamlit_app.percentage_to_category
                                       percentage (length labels)) = Some label)
  ∧ (∀ only, labels = [only] →
       streamlit_app.get_category_label percentage labels
       = if bool_decide (percentage ≤ 50)%Z then Ok only else Err IndexError)
  ∧ (labels = [] →
       streamlit_app.get_category_label percentage labels = Err IndexError).
Proof.
  split; [|split].
  - intros Htwo.
    destruct (percentage_to_category_in_range percentage percentage
                (length labels) Htwo) as [Hrange _].
    unfold streamlit_app.get_category_label, py_index, getitem.
    rewrite bool_decide_eq_true_2 by lia.
    destruct (lookup_lt_is_Some_2 labels
                (Z.to_nat (streamlit_app.percentage_to_category percentage
                             (length labels)))) as [label Hlabel]; [lia|].
    exists label. by rewrite Hlabel.
  - intros only ->.
    unfold streamlit_app.get_category_label, streamlit_app.percentage_to_category.
    cbn [length]. rewrite (bool_decide_eq_false_2 (1%nat = 3%nat)) by lia.
    case_bool_decide; reflexivity.
  - intros ->.
    unfold streamlit_app.get_category_label, streamlit_app.percentage_to_category.
    cbn [length]. rewrite (bool_decide_eq_false_2 (0%nat = 3%nat)) by lia.
    case_bool_decide; reflexivity.
Qed.

Lemma get_category_label_edges_witness :
  ∃ label,
    streamlit_app.get_category_label 70 streamlit_app.turbidity_labels = Ok label
    ∧ streamlit_app.turbidity_labels
        !! Z.to_nat (streamlit_app.percentage_to_category 70
                       (length streamlit_app.turbidity_labels)) = Some label.
Proof.
  apply (proj1 (get_category_label_edges 70 streamlit_app.turbidity_labels)).
  vm_compute. lia.
Defined.

Lemma observations_ok r t ro l :
  observation_ok (streamlit_app.observations r t ro l) = true
  ∧ observed_count (streamlit_app.observations r t ro l) = 4%nat.
Proof.
  split; [|reflexivity].
  unfold observation_ok, streamlit_app.observations, field_ok. cbn.
  destruct (percentage_to_category_in_range r r 3) as [Hr _]; [lia|].
  destruct (percentage_to_category_in_range t t 3) as [Ht _]; [lia|].
  destruct (percentage_to_category_in_range ro ro 2) as [Hro _]; [lia|].
  destruct (percentage_to_category_in_range l l 2) as [Hl _]; [lia|].
  rewrite !bool_decide_eq_true_2 by lia. reflexivity.
Qed.

Lemma observations_keys r t ro l k :
  k ∈ app.evidence_keys →
  is_Some (observation_evidence (streamlit_app.observations r t ro l) !! k).
Proof.
  unfold app.evidence_keys, observation_evidence, streamlit_app.observations.
  cbn [latrine_distance surface_runoff turbidity rainfall set_if_present].
  intros Hk.
  repeat (apply elem_of_cons in Hk as [-> | Hk];
          [rewrite ?lookup_insert_ne by discriminate;
           rewrite lookup_insert_eq; eexists; reflexivity|]).
  exfalso. exact (proj1 (elem_of_nil _) Hk).
Qed.

(** Property X15.  Whatever the four slider positions of the dashboard, the
    observations its assess button sends pass the ObservationInput bounds
    and POST /predict answers them: the evidence has exactly the four
    observation keys, the confidence is HIGH, and the risk level is one that
    display_risk_result's css_class_map knows (its default is never used). *)
Theorem dashboard_assessment_is_answered now (rainfall_pct turbidity_pct runoff_pct
    latrine_pct : Z) :
  observation_ok
    (streamlit_app.observations rainfall_pct turbidity_pct runoff_pct latrine_pct)
  = true
  ∧ ∃ resp,
      app.predict_contamination now
        (streamlit_app.observations rainfall_pct turbidity_pct runoff_pct
           latrine_pct) bayesian_model
      = (Return resp, bayesian_model)
      ∧ ContaminationRiskResponse.confidence resp = "HIGH"%string
      ∧ (∀ k, is_Some (ContaminationRiskResponse.evidence_used resp !! k)
              ↔ k ∈ app.evidence_keys)
      ∧ ∃ cls, streamlit_app.css_class_map
                 !! ContaminationRiskResponse.risk_level resp = Some cls.
Proof.
  destruct (observations_ok rainfall_pct turbidity_pct runoff_pct latrine_pct)
    as [Hok Hcount].
  split; [exact Hok|].
  destruct (app_predict_contamination_run now _ Hok) as (p0 & p1 & Hrun & _);
    [rewrite Hcount; lia|].
  eexists. split; [exact Hrun|].
  cbn [ContaminationRiskResponse.confidence ContaminationRiskResponse.evidence_used
         ContaminationRiskResponse.risk_level].
  split; [by rewrite Hcount|]. split.
  - intros k. split; [apply observation_evidence_keys | apply observations_keys].
  - destruct (categorize_cases p1) as [-> | [-> | [-> | ->]]]; by eexists.
Qed.

(** Property X16.  The latrine slider of streamlit_app/app.py is reversed
    with respect to the model: at a position above 50 the dashboard shows
    the label 'Safe (>30m)' but sends state 1, which get_variable_info names
    'Risky (<30m)', and at a position up to 50 it shows 'Too close (<30m)'
    and sends state 0, 'Safe (>30m)'; with the other sliders fixed, the
    contamination probability the backend reports at a 'Safe' position is
    strictly higher than at a 'Too close' position. *)
Theorem dashboard_latrine_slider_reversed now (rainfall_pct turbidity_pct runoff_pct
    close_pct safe_pct : Z) :
  (close_pct ≤ 50)%Z → (50 < safe_pct)%Z →
  streamlit_app.get_category_label close_pct streamlit_app.latrine_labels
  = Ok "⚠️ Too close (<30m)"%string
  ∧ streamlit_app.get_category_label safe_pct streamlit_app.latrine_labels
    = Ok "✅ Safe (>30m)"%string
  ∧ (∃ info, get_variable_info !! "Latrine_Dist"%string = Some info
       ∧ states info !! Z.to_nat (streamlit_app.percentage_to_category close_pct 2)
         = Some "Safe (>30m)"%string
       ∧ states info !! Z.to_nat (streamlit_app.percentage_to_category safe_pct 2)
         = Some "Risky (<30m)"%string)
  ∧ ∃ at_close at_safe,
      app.predict_contamination now
        (streamlit_app.observations rainfall_pct turbidity_pct runoff_pct close_pct)
        bayesian_model = (Return at_close, bayesian_model)
      ∧ app.predict_contamination now
          (streamlit_app.observations rainfall_pct turbidity_pct runoff_pct safe_pct)
          bayesian_model = (Return at_safe, bayesian_model)
      ∧ ContaminationRiskResponse.contamination_probability at_close
        < ContaminationRiskResponse.contamination_probability at_safe.
Proof.
  intros Hclose Hsafe.
  assert (streamlit_app.percentage_to_category close_pct 2 = 0%Z) as Hc0.
  { unfold streamlit_app.percentage_to_category.
    rewrite (bool_decide_eq_false_2 (2%nat = 3%nat)) by lia.
    by rewrite bool_decide_eq_true_2 by lia. }
  assert (streamlit_app.percentage_to_category safe_pct 2 = 1%Z) as Hc1.
  { unfold streamlit_app.percentage_to_category.
    rewrite (bool_decide_eq_false_2 (2%nat = 3%nat)) by lia.
    by rewrite bool_decide_eq_false_2 by lia. }
  split; [|split; [|split]].
  - unfold streamlit_app.get_category_label, streamlit_app.latrine_labels.
    cbn [length]. rewrite Hc0. reflexivity.
  - unfold streamlit_app.get_category_label, streamlit_app.latrine_labels.
    cbn [length]. rewrite Hc1. reflexivity.
  - rewrite Hc0, Hc1. eexists. split; [reflexivity|]. split; reflexivity.
  - set (rest := {| rainfall := Some (streamlit_app.percentage_to_category rainfall_pct 3);
                    turbidity := Some (streamlit_app.percentage_to_category turbidity_pct 3);
                    surface_runoff := Some (streamlit_app.percentage_to_category runoff_pct 2);
                    latrine_distance := None; pump_age := None |}).
    assert (observation_ok rest = true) as Hrest.
    { destruct (observations_ok rainfall_pct turbidity_pct runoff_pct 0) as [H _].
      unfold observation_ok in *. rewrite !andb_true_iff in *.
      destruct H as [[[[? ?] ?] _] ?]. repeat split; assumption. }
    destruct (observation_evidence_valid rest Hrest) as [Hvalid Hnone].
    destruct (state1_step_up (observation_evidence rest) "Latrine_Dist" 2 0
                Hvalid Hnone) as (p & q & Hp & Hq & _ & Hlt);
      [unfold app.evidence_keys; in_list | reflexivity | lia |].
    destruct (observations_ok rainfall_pct turbidity_pct runoff_pct close_pct)
      as [Hok0 Hn0].
    destruct (observations_ok rainfall_pct turbidity_pct runoff_pct safe_pct)
      as [Hok1 Hn1].
    destruct (app_predict_contamination_run now _ Hok0) as (a0 & a1 & Ha & Ha1 & _);
      [rewrite Hn0; lia|].
    destruct (app_predict_contamination_run now _ Hok1) as (b0 & b1 & Hb & Hb1 & _);
      [rewrite Hn1; lia|].
    assert (observation_evidence
              (streamlit_app.observations rainfall_pct turbidity_pct runoff_pct close_pct)
            = <["Latrine_Dist"%string := Z.of_nat 0]> (observation_evidence rest)) as E0.
    { unfold observation_evidence, streamlit_app.observations, rest.
      cbn [latrine_distance surface_runoff turbidity rainfall set_if_present].
      by rewrite Hc0. }
    assert (observation_evidence
              (streamlit_app.observations rainfall_pct turbidity_pct runoff_pct safe_pct)
            = <["Latrine_Dist"%string := Z.of_nat 1]> (observation_evidence rest)) as E1.
    { unfold observation_evidence, streamlit_app.observations, rest.
      cbn [latrine_distance surface_runoff turbidity rainfall set_if_present].
      by rewrite Hc1. }
    rewrite E0, Hp in Ha1. injection Ha1 as <-.
    rewrite E1, Hq in Hb1. injection Hb1 as <-.
    eexists _, _. split; [exact Ha|]. split; [exact Hb|].
    cbn [ContaminationRiskResponse.contamination_probability].
    apply Hlt. discriminate.
Qed.

Lemma dashboard_latrine_slider_reversed_witness :
  streamlit_app.get_category_label 0 streamlit_app.latrine_labels
  = Ok "⚠️ Too close (<30m)"%string
  ∧ streamlit_app.get_category_label 100 streamlit_app.latrine_labels
    = Ok "✅ Safe (>30m)"%string
  ∧ (∃ info, get_variable_info !! "Latrine_Dist"%string = Some info
       ∧ states info !! Z.to_nat (streamlit_app.percentage_to_category 0 2)
         = Some "Safe (>30m)"%string
       ∧ states info !! Z.to_nat (streamlit_app.percentage_to_category 100 2)
         = Some "Risky (<30m)"%string)
  ∧ ∃ at_close at_safe,
      app.predict_contamination "2026-01-01T00:00:00"
        (streamlit_app.observations 50 0 0 0) bayesian_model
      = (Return at_close, bayesian_model)
      ∧ app.predict_contamination "2026-01-01T00:00:00"
          (streamlit_app.observations 50 0 0 100) bayesian_model
        = (Return at_safe, bayesian_model)
      ∧ ContaminationRiskResponse.contamination_probability at_close
        < ContaminationRiskResponse.contamination_probability at_safe.
Proof.
  apply (dashboard_latrine_slider_reversed "2026-01-01T00:00:00" 50 0 0 0 100); lia.
Defined.

Lemma gauge_value_le p a b :
  a * 100 == b → p <= a → streamlit_app.gauge_value p <= b.
Proof.
  intros Hb H. unfold streamlit_app.gauge_value. rewrite <- Hb.
  apply Qmult_le_compat_r; [exact H | discriminate].
Qed.

Lemma gauge_value_ge p a b :
  a * 100 == b → a <= p → b <= streamlit_app.gauge_value p.
Proof.
  intros Hb H. unfold streamlit_app.gauge_value. rewrite <- Hb.
  apply Qmult_le_compat_r; [exact H | discriminate].
Qed.

(** Property X17.  For every probability in [0, 1], the gauge step of
    create_risk_gauge that contains probability*100 has the colour that the
    page's style block gives as background to the CSS class
    display_risk_result selects for _categorize_risk of that probability:
    gauge zones and risk levels use the same thresholds and colours. *)
Theorem gauge_colour_matches_risk_class (p : Q) :
  0 <= p → p <= 1 →
  ∃ cls colour lo hi,
    streamlit_app.css_class (_categorize_risk p) = cls
    ∧ streamlit_app.css_class_map !! _categorize_risk p = Some cls
    ∧ streamlit_app.background_color !! cls = Some colour
    ∧ (lo, hi, colour) ∈ streamlit_app.gauge_steps
    ∧ lo <= streamlit_app.gauge_value p ∧ streamlit_app.gauge_value p <= hi.
Proof.
  intros H0 H1. unfold _categorize_risk, streamlit_app.gauge_steps.
  pose proof (gauge_value_ge p 0 0 eq_refl H0) as Hlo.
  pose proof (gauge_value_le p 1 100 eq_refl H1) as Hhi.
  destruct (Qltb p 0.2) eqn:H2.
  { apply Qltb_lt, Qlt_le_weak in H2.
    exists "risk-low"%string, "#d4edda"%string, 0, 20.
    split; [reflexivity|]. split; [reflexivity|].
    split; [reflexivity|]. split; [in_list|].
    split; [exact Hlo | exact (gauge_value_le p 0.2 20 eq_refl H2)]. }
  apply Qltb_ge in H2.
  destruct (Qltb p 0.5) eqn:H5.
  { apply Qltb_lt, Qlt_le_weak in H5.
    exists "risk-moderate"%string, "#fff3cd"%string, 20, 50.
    split; [reflexivity|]. split; [reflexivity|].
    split; [reflexivity|]. split; [in_list|].
    split; [exact (gauge_value_ge p 0.2 20 eq_refl H2)
           | exact (gauge_value_le p 0.5 50 eq_refl H5)]. }
  apply Qltb_ge in H5.
  destruct (Qltb p 0.8) eqn:H8.
  { apply Qltb_lt, Qlt_le_weak in H8.
    exists "risk-high"%string, "#f8d7da"%string, 50, 80.
    split; [reflexivity|]. split; [reflexivity|].
    split; [reflexivity|]. split; [in_list|].
    split; [exact (gauge_value_ge p 0.5 50 eq_refl H5)
           | exact (gauge_value_le p 0.8 80 eq_refl H8)]. }
  apply Qltb_ge in H8.
  exists "risk-critical"%string, "#f5c6cb"%string, 80, 100.
  split; [reflexivity|]. split; [reflexivity|].
  split; [reflexivity|]. split; [in_list|].
  split; [exact (gauge_value_ge p 0.8 80 eq_refl H8) | exact Hhi].
Qed.

Lemma gauge_colour_matches_risk_class_witness :
  ∃ cls colour lo hi,
    streamlit_app.css_class (_categorize_risk 0.53) = cls
    ∧ streamlit_app.css_class_map !! _categorize_risk 0.53 = Some cls
    ∧ streamlit_app.background_color !! cls = Some colour
    ∧ (lo, hi, colour) ∈ streamlit_app.gauge_steps
    ∧ lo <= streamlit_app.gauge_value 0.53 ∧ streamlit_app.gauge_value 0.53 <= hi.
Proof. apply gauge_colour_matches_risk_class; discriminate. Defined.

(* ================================================================= *)
(** ** When the model answers *)

(** A query that returns has passed the three checks of its input. *)
Lemma query_ok_inv engine variables (evid : gmap string Z) p :
  query engine variables evid = Ok p →
  valid_evidence (ve_model engine) evid
  ∧ ∀ t, t ∈ variables → t ∈ nodes (ve_model engine) ∧ evid !! t = None.
Proof.
  unfold query.
  destruct (existsb (λ t, bool_decide (is_Some (evid !! t))) variables) eqn:Hconflict;
    [discriminate|].
  destruct (forallb (known (ve_model engine)) (variables ++ (map_to_list evid).*1))
    eqn:Hknown; [|discriminate].
  cbn [negb].
  destruct (existsb (out_of_range (ve_model engine)) (map_to_list evid)) eqn:Hrange;
    [discriminate|].
  intros _.
  rewrite forallb_forall in Hknown.
  assert (∀ v, v ∈ variables ++ (map_to_list evid).*1 →
               v ∈ nodes (ve_model engine)
               ∧ is_Some (card_of (ve_model engine) v)) as Hk.
  { intros v Hv. apply list_elem_of_In, Hknown in Hv. unfold known in Hv.
    apply andb_true_iff in Hv as [H1 H2].
    split; [by apply bool_decide_eq_true in H1 | by apply bool_decide_eq_true in H2]. }
  split.
  - intros k s Hks.
    destruct (Hk k) as [Hnode [c Hc]].
    { apply elem_of_app. right. apply keys_of_evidence. by exists s. }
    split; [exact Hnode|]. exists c. split; [exact Hc|].
    destruct (decide (0 ≤ s < Z.of_nat c)%Z) as [Hin | Hout]; [exact Hin|].
    exfalso. apply not_true_iff_false in Hrange. apply Hrange.
    apply existsb_exists. exists (k, s). split.
    + apply list_elem_of_In, elem_of_map_to_list, Hks.
    + unfold out_of_range. cbn [fst snd]. rewrite Hc.
      apply negb_true_iff, bool_decide_eq_false, Hout.
  - intros t Ht. split.
    + apply Hk, elem_of_app. by left.
    + destruct (evid !! t) as [s|] eqn:Hs; [|reflexivity].
      exfalso. apply not_true_iff_false in Hconflict. apply Hconflict.
      apply existsb_exists. exists t. split; [by apply list_elem_of_In|].
      apply bool_decide_eq_true. rewrite Hs. by eexists.
Qed.

(** Property X18.  The /predict/contamination endpoint of main.py, which
    hands the request's evidence to predict_contamination_risk unchecked,
    returns a result exactly when every key of the evidence is a variable of
    the network with an in-range state and Contamination itself is not in
    the evidence. *)
Theorem predict_contamination_answers_iff (evidence : gmap string Z) :
  (∃ r, main.predict_contamination evidence bayesian_model = (Ok r, bayesian_model))
  ↔ valid_evidence the_network evidence
    ∧ evidence !! "Contamination"%string = None.
Proof.
  unfold main.predict_contamination. split.
  - intros [r Hrun].
    apply predict_contamination_risk_inv in Hrun as (probs & _ & _ & Hq & _).
    rewrite engine_query_singleton in Hq.
    assert (query the_engine ["Contamination"%string] evidence = Ok probs) as Hq'
      by congruence.
    apply query_ok_inv in Hq' as [Hvalid Htarget].
    split; [exact Hvalid|]. apply Htarget. by left.
  - intros [Hvalid Hnone].
    destruct (predict_contamination_risk_run evidence Hvalid Hnone)
      as (p0 & p1 & Hrun & _). by eexists.
Qed.

(** Property X19.  sensitivity_analysis returns a result exactly when the
    evidence is valid (keys are variables of the network, states in range),
    the target is a variable of the network, and the target is not in the
    evidence. *)
Theorem sensitivity_analysis_answers_iff target (evid : gmap string Z) :
  (∃ m, sensitivity_analysis target evid bayesian_model = (Ok m, bayesian_model))
  ↔ valid_evidence the_network evid
    ∧ target ∈ nodes the_network ∧ evid !! target = None.
Proof.
  split.
  - intros [m Hrun]. unfold sensitivity_analysis in Hrun.
    apply bind_inv in Hrun as (res & self1 & Hq & _).
    rewrite engine_query_singleton in Hq.
    assert (query the_engine [target] evid = Ok res) as Hq' by congruence.
    apply query_ok_inv in Hq' as [Hvalid Htarget].
    split; [exact Hvalid|]. apply Htarget. by left.
  - intros (Hvalid & Ht & Hnone).
    destruct (sensitivity_analysis_run target evid Hvalid Ht Hnone)
      as (base & m & _ & Hrun & _). by exists m.
Qed.

(* ================================================================= *)
(** ** The score of a two-state observation *)

(** Property X20.  For a two-state evidence variable the sensitivity score
    does not depend on which of its two states was observed:
    sensitivity_analysis gives the variable the same score under the
    evidence and under the evidence with that variable's state flipped. *)
Theorem sensitivity_score_binary_symmetric target (evid : gmap string Z) v (s0 : Z) :
  valid_evidence the_network evid → target ∈ nodes the_network →
  evid !! target = None → evid !! v = Some s0 →
  card_of the_network v = Some 2%nat →
  ∃ m m' score score',
    sensitivity_analysis target evid bayesian_model = (Ok m, bayesian_model)
    ∧ sensitivity_analysis target (<[v := (1 - s0)%Z]> evid) bayesian_model
      = (Ok m', bayesian_model)
    ∧ m !! v = Some score ∧ m' !! v = Some score' ∧ score == score'.
Proof.
  intros Hvalid Ht Hnone Hv Hcard.
  destruct (Hvalid v s0 Hv) as (Hnode & c & Hc & Hs0).
  rewrite Hcard in Hc. injection Hc as <-.
  assert (v ≠ target) as Hne by (intros ->; congruence).
  assert (valid_evidence the_network (<[v := (1 - s0)%Z]> evid)) as Hvalid'.
  { apply (valid_evidence_insert _ _ _ _ 2); [exact Hvalid | exact Hnode
                                               | exact Hcard | lia]. }
  assert (<[v := (1 - s0)%Z]> evid !! target = None) as Hnone'
    by (rewrite lookup_insert_ne; [exact Hnone | exact Hne]).
  destruct (sensitivity_analysis_run target evid Hvalid Ht Hnone)
    as (base & m & Hbase & Hrun & _ & Hscore).
  destruct (sensitivity_analysis_run target _ Hvalid' Ht Hnone')
    as (base' & m' & Hbase' & Hrun' & _ & Hscore').
  destruct (Hscore v s0 Hv) as (n & Hn & Htwo & Hm & Hq).
  rewrite Hcard in Hn. injection Hn as <-.
  destruct (Hscore' v (1 - s0)%Z (lookup_insert_eq _ _ _))
    as (n' & Hn' & Htwo' & Hm' & Hq').
  rewrite Hcard in Hn'. injection Hn' as <-.
  destruct (score_is_max target evid v s0 2 base Htwo Hq)
    as [_ (s & p & Hs & Hsne & Hp & Heq)].
  destruct (score_is_max target _ v (1 - s0)%Z 2 base' Htwo' Hq')
    as [_ (s' & p' & Hs' & Hsne' & Hp' & Heq')].
  assert (Z.of_nat s = (1 - s0)%Z) as Es by lia.
  assert (Z.of_nat s' = s0) as Es' by lia.
  rewrite Es in Hp. rewrite Hbase' in Hp. injection Hp as <-.
  rewrite Es', insert_insert_eq, (insert_id evid v s0 Hv), Hbase in Hp'.
  injection Hp' as <-.
  eexists m, m', _, _. split; [exact Hrun|]. split; [exact Hrun'|].
  split; [exact Hm|]. split; [exact Hm'|].
  rewrite Heq, Heq'. rewrite Qabs_Qminus. reflexivity.
Qed.

Lemma sensitivity_score_binary_symmetric_witness :
  ∃ m m' score score',
    sensitivity_analysis "Contamination" {[ "Latrine_Dist"%string := 0%Z ]}
      bayesian_model = (Ok m, bayesian_model)
    ∧ sensitivity_analysis "Contamination"
        (<["Latrine_Dist"%string := (1 - 0)%Z]> {[ "Latrine_Dist"%string := 0%Z ]})
        bayesian_model = (Ok m', bayesian_model)
    ∧ m !! "Latrine_Dist"%string = Some score
    ∧ m' !! "Latrine_Dist"%string = Some score' ∧ score == score'.
Proof.
  apply sensitivity_score_binary_symmetric;
    [|in_nodes | reflexivity | reflexivity | reflexivity].
  intros k s Hk. apply lookup_singleton_Some in Hk as [<- <-].
  split; [in_nodes|]. exists 2%nat. split; [reflexivity | lia].
Defined.

(* ================================================================= *)
(** ** The most likely state of Contamination and the risk level *)

Lemma half_lt p0 p1 : p0 + p1 == 1 → p0 < p1 → 0.5 < p1.
Proof.
  intros Hsum Hlt. apply Qnot_le_lt. intros Hle.
  assert (p0 + p1 < p1 + p1) as H1 by (by apply Qplus_lt_l).
  assert (p1 + p1 <= 0.5 + 0.5) as H2 by (by apply Qplus_le_compat).
  rewrite Hsum in H1.
  apply (Qlt_irrefl 1). eapply Qlt_le_trans; [exact H1|].
  eapply Qle_trans; [exact H2|]. discriminate.
Qed.

(** Property X21.  For valid evidence without Contamination,
    get_most_likely_scenario and predict_contamination_risk agree: the
    scenario's state of Contamination is 0 or 1, it is 1 exactly when
    contamination_probability exceeds safe_probability (a tie gives 0), and
    whenever it is 1 the risk_level is HIGH or CRITICAL. *)
Theorem scenario_agrees_with_risk_level (evid : gmap string Z) :
  valid_evidence the_network evid → evid !! "Contamination"%string = None →
  ∃ m r state,
    get_most_likely_scenario evid bayesian_model = (Ok m, bayesian_model)
    ∧ predict_contamination_risk evid bayesian_model = (Ok r, bayesian_model)
    ∧ m !! "Contamination"%string = Some state
    ∧ (state = 0 ∨ state = 1)%nat
    ∧ (state = 1%nat ↔ safe_probability r < contamination_probability r)
    ∧ (state = 1%nat →
       risk_level r = "HIGH"%string ∨ risk_level r = "CRITICAL"%string).
Proof.
  intros Hvalid Hnone.
  set (unobserved := filter (λ v, evid !! v = None) (nodes the_network)).
  destruct (scenario_loop evid unobserved ∅) as (m & Hloop & Hin & _).
  { intros v Hv. apply list_elem_of_filter in Hv as [Hvn Hv].
    destruct (query_ok_singleton v evid Hvalid Hv Hvn)
      as (p & c & Hq & _ & Hlen & Htwo).
    exists p. destruct p as [|x p]; [simpl in Hlen; lia|].
    eexists. split; [exact Hq | reflexivity]. }
  destruct (Hin "Contamination"%string) as (p & i & Hq & Harg & Hm).
  { apply list_elem_of_filter. split; [exact Hnone | in_nodes]. }
  destruct (query_ok_singleton "Contamination" evid Hvalid) as (p' & c & Hq' & Hc & Hlen & _);
    [in_nodes | exact Hnone |].
  rewrite Hq in Hq'. injection Hq' as <-.
  assert (c = 2%nat) as -> by (vm_compute in Hc; congruence).
  destruct p as [|p0 [|p1 [|p2 p]]]; try discriminate Hlen.
  pose proof (query_sum_one _ _ _ _ Hq) as Hsum.
  rewrite qsum_eq in Hsum. cbn [fold_right] in Hsum. rewrite Qplus_0_r in Hsum.
  exists m, {| safe_probability := p0; contamination_probability := p1;
               risk_level := _categorize_risk p1; evidence_used := evid |}, i.
  split; [|split; [|split; [exact Hm|]]].
  - unfold get_most_likely_scenario, most_likely_scenario_with,
      mbind at 1, M_bind at 1, get_model.
    rewrite model_of_singleton. exact Hloop.
  - unfold predict_contamination_risk, mbind, M_bind.
    rewrite engine_query_singleton, Hq. reflexivity.
  - cbn [safe_probability contamination_probability risk_level].
    unfold argmax in Harg. cbn [argmax_from] in Harg.
    destruct (Qltb p0 p1) eqn:Hcmp; injection Harg as <-.
    + apply Qltb_lt in Hcmp. split; [by right|]. split; [by split|].
      intros _. pose proof (half_lt p0 p1 Hsum Hcmp) as Hhalf.
      unfold _categorize_risk.
      assert (Qltb p1 0.2 = false) as ->.
      { apply Qltb_ge. apply Qlt_le_weak. eapply Qle_lt_trans; [|exact Hhalf].
        discriminate. }
      assert (Qltb p1 0.5 = false) as -> by (by apply Qltb_ge, Qlt_le_weak).
      destruct (Qltb p1 0.8); [by left | by right].
    + apply Qltb_ge in Hcmp. split; [by left|]. split; [|discriminate].
      split; [discriminate|]. intros Hlt. exfalso.
      by apply (Qlt_irrefl p0), Qlt_le_trans with p1.
Qed.

Lemma scenario_agrees_with_risk_level_witness :
  ∃ m r state,
    get_most_likely_scenario {[ "Turbidity"%string := 2%Z ]} bayesian_model
    = (Ok m, bayesian_model)
    ∧ predict_contamination_risk {[ "Turbidity"%string := 2%Z ]} bayesian_model
      = (Ok r, bayesian_model)
    ∧ m !! "Contamination"%string = Some state
    ∧ (state = 0 ∨ state = 1)%nat
    ∧ (state = 1%nat ↔ safe_probability r < contamination_probability r)
    ∧ (state = 1%nat →
       risk_level r = "HIGH"%string ∨ risk_level r = "CRITICAL"%string).
Proof.
  apply scenario_agrees_with_risk_level; [apply valid_turbidity_two | reflexivity].
Defined.

(* ================================================================= *)
(** ** The pump tab and the older dashboard *)

(** Property X22.  Whatever the position of the pump-age slider, the
    category the dashboard sends passes the bounds of POST /predict-pump,
    the endpoint answers, and the label the dashboard shows is its icon
    followed by the pump_age_category the backend reports. *)
Theorem dashboard_pump_check_is_answered (pump_age_pct : Z) :
  app.pump_age_ok (streamlit_app.percentage_to_category pump_age_pct 3) = true
  ∧ ∃ resp label icon,
      app.predict_pump_status (streamlit_app.percentage_to_category pump_age_pct 3)
        bayesian_model = (Return resp, bayesian_model)
      ∧ streamlit_app.get_category_label pump_age_pct streamlit_app.pump_labels
        = Ok label
      ∧ label = (icon ++ " " ++ PumpStatusResponse.pump_age_category resp)%string.
Proof.
  unfold app.pump_age_ok, streamlit_app.get_category_label,
    streamlit_app.pump_labels. cbn [length].
  unfold streamlit_app.percentage_to_category.
  rewrite (bool_decide_eq_true_2 (3%nat = 3%nat)) by reflexivity.
  destruct (bool_decide (pump_age_pct ≤ 33)%Z);
    [|destruct (bool_decide (pump_age_pct ≤ 66)%Z)].
  - split; [reflexivity|]. unfold app.predict_pump_status.
    rewrite predict_pump_status_new.
    eexists _, _, "🆕"%string. split; [reflexivity|]. split; reflexivity.
  - split; [reflexivity|]. unfold app.predict_pump_status.
    rewrite predict_pump_status_medium.
    eexists _, _, "⚙️"%string. split; [reflexivity|]. split; reflexivity.
  - split; [reflexivity|]. unfold app.predict_pump_status.
    rewrite predict_pump_status_old.
    eexists _, _, "🔧"%string. split; [reflexivity|]. split; reflexivity.
Qed.

Lemma option_cases3 (x : Z) : x ∈ [0; 1; 2]%Z → (0 ≤ x ≤ 2)%Z.
Proof.
  intros H. repeat (apply elem_of_cons in H as [-> | H]; [lia|]).
  by apply elem_of_nil in H.
Qed.

Lemma option_cases2 (x : Z) : x ∈ [0; 1]%Z → (0 ≤ x ≤ 1)%Z.
Proof.
  intros H. repeat (apply elem_of_cons in H as [-> | H]; [lia|]).
  by apply elem_of_nil in H.
Qed.

(** Property X23.  In the older dashboard (deployment/streamlit_app.py) the
    latrine choice agrees with the model: option 0 is labelled 'Safe (>30
    meters)', option 1 'Too close (<30 meters)', and for any choice of the
    other three widgets POST /predict answers both with confidence HIGH and
    reports a strictly lower contamination probability for the 'Safe'
    option. *)
Theorem deployment_latrine_choice_agrees now (rainfall turbidity surface_runoff : Z) :
  rainfall ∈ deployment.rainfall_options →
  turbidity ∈ deployment.turbidity_options →
  surface_runoff ∈ deployment.surface_runoff_options →
  deployment.latrine_distance_format 0 = Ok "✅ Safe (>30 meters)"%string
  ∧ deployment.latrine_distance_format 1 = Ok "⚠️ Too close (<30 meters)"%string
  ∧ ∃ at_safe at_close,
      app.predict_contamination now
        (deployment.observations rainfall turbidity surface_runoff 0)
        bayesian_model = (Return at_safe, bayesian_model)
      ∧ app.predict_contamination now
          (deployment.observations rainfall turbidity surface_runoff 1)
          bayesian_model = (Return at_close, bayesian_model)
      ∧ ContaminationRiskResponse.contamination_probability at_safe
        < ContaminationRiskResponse.contamination_probability at_close
      ∧ ContaminationRiskResponse.confidence at_safe = "HIGH"%string
      ∧ ContaminationRiskResponse.confidence at_close = "HIGH"%string.
Proof.
  intros Hr Ht Hs.
  apply option_cases3 in Hr. apply option_cases3 in Ht. apply option_cases2 in Hs.
  split; [reflexivity|]. split; [reflexivity|].
  set (rest := {| rainfall := Some rainfall; turbidity := Some turbidity;
                  surface_runoff := Some surface_runoff;
                  latrine_distance := None; pump_age := None |}).
  assert (observation_ok rest = true) as Hrest.
  { unfold observation_ok, rest, field_ok. cbn.
    rewrite !bool_decide_eq_true_2 by lia. reflexivity. }
  assert (∀ l, (0 ≤ l ≤ 1)%Z →
            observation_ok (deployment.observations rainfall turbidity
                              surface_runoff l) = true) as Hok.
  { intros l Hl. unfold observation_ok, deployment.observations, field_ok. cbn.
    rewrite !bool_decide_eq_true_2 by lia. reflexivity. }
  destruct (observation_evidence_valid rest Hrest) as [Hvalid Hnone].
  destruct (state1_step_up (observation_evidence rest) "Latrine_Dist" 2 0
              Hvalid Hnone) as (p & q & Hp & Hq & _ & Hlt);
    [unfold app.evidence_keys; in_list | reflexivity | lia |].
  destruct (app_predict_contamination_run now _ (Hok 0%Z ltac:(lia)))
    as (a0 & a1 & Ha & Ha1 & _); [vm_compute; lia|].
  destruct (app_predict_contamination_run now _ (Hok 1%Z ltac:(lia)))
    as (b0 & b1 & Hb & Hb1 & _); [vm_compute; lia|].
  change (observation_evidence
            (deployment.observations rainfall turbidity surface_runoff 0))
    with (<["Latrine_Dist"%string := Z.of_nat 0]> (observation_evidence rest)) in Ha1.
  change (observation_evidence
            (deployment.observations rainfall turbidity surface_runoff 1))
    with (<["Latrine_Dist"%string := Z.of_nat 1]> (observation_evidence rest)) in Hb1.
  rewrite Hp in Ha1. injection Ha1 as <-.
  rewrite Hq in Hb1. injection Hb1 as <-.
  eexists _, _. split; [exact Ha|]. split; [exact Hb|].
  cbn [ContaminationRiskResponse.contamination_probability
         ContaminationRiskResponse.confidence].
  split; [apply Hlt; discriminate|]. split; reflexivity.
Qed.

Lemma deployment_latrine_choice_agrees_witness :
  deployment.latrine_distance_format 0 = Ok "✅ Safe (>30 meters)"%string
  ∧ deployment.latrine_distance_format 1 = Ok "⚠️ Too close (<30 meters)"%string
  ∧ ∃ at_safe at_close,
      app.predict_contamination "2026-01-01T00:00:00"
        (deployment.observations 0 0 0 0) bayesian_model
      = (Return at_safe, bayesian_model)
      ∧ app.predict_contamination "2026-01-01T00:00:00"
          (deployment.observations 0 0 0 1) bayesian_model
        = (Return at_close, bayesian_model)
      ∧ ContaminationRiskResponse.contamination_probability at_safe
        < ContaminationRiskResponse.contamination_probability at_close
      ∧ ContaminationRiskResponse.confidence at_safe = "HIGH"%string
      ∧ ContaminationRiskResponse.confidence at_close = "HIGH"%string.
Proof.
  apply (deployment_latrine_choice_agrees "2026-01-01T00:00:00" 0 0 0);
    unfold deployment.rainfall_options, deployment.turbidity_options,
      deployment.surface_runoff_options; in_list.
Defined.
